(** * Word wrapping with ANSI escape sequences: package [wordwrap]

    A shallow embedding of [wordwrap/wordwrap.go] and the properties its
    specification states about it.

    Go values are modelled as follows.
    - [int] and [rune] are [Z]; buffer lengths stay far below [2^63], so the
      wrap-around of [int] is never reached and is not written out.
    - [[]byte], [string], [bytes.Buffer] and [ansi.Buffer] are [list byte];
      writing to a buffer appends, [Reset] empties it.
    - A panic of the Go runtime (here: [strings.Repeat] with a negative count)
      and a loop that never ends are results of type [result]. *)

From Stdlib Require Import ZArith List Lia Bool Strings.Byte.
From Stdlib Require Strings.String.
Import ListNotations String.StringSyntax.
Open Scope string_scope.
Open Scope Z_scope.

Definition rune : Type := Z.
Definition bytes : Type := list byte.

(** [len(b)] of a byte slice or string, as a Go [int]. *)
Definition len (b : bytes) : Z := Z.of_nat (length b).

(** The numeric value of a byte, and Go's conversion [byte(x)], which keeps
    the low eight bits. *)
Definition byte_val (b : byte) : Z := Z.of_N (Byte.to_N b).

Definition byte_of (z : Z) : byte :=
  match Byte.of_N (Z.to_N (z mod 256)) with
  | Some b => b
  | None => x00
  end.

(** A string literal as bytes. *)
Definition bs (s : String.string) : bytes := String.list_byte_of_string s.

(** ** Faults *)

Inductive fault : Type :=
| NegativeRepeat   (* panic: strings: negative Repeat count *)
| NoProgress.      (* the loop was cut off by its fuel *)

Inductive result (A : Type) : Type :=
| Ok (a : A)
| Fail (f : fault).

Arguments Ok {A} a.
Arguments Fail {A} f.

Definition bind {A B : Type} (r : result A) (k : A -> result B) : result B :=
  match r with
  | Ok a => k a
  | Fail f => Fail f
  end.

Notation "x <- e ;; k" := (bind e (fun x => k))
  (at level 61, e at next level, right associativity).

(** ** Package [utf8] *)

Module utf8.

Definition RuneError : rune := 0xFFFD.
Definition RuneSelf : Z := 0x80.
Definition MaxRune : rune := 0x10FFFF.
Definition surrogateMin : rune := 0xD800.
Definition surrogateMax : rune := 0xDFFF.

(** [utf8.AppendRune] to an empty slice: the bytes [bytes.Buffer.WriteRune]
    appends.  A rune outside the Unicode range or inside the surrogate range
    is written as [RuneError]. *)
Definition EncodeRune (r : rune) : bytes :=
  if (0 <=? r) && (r <? RuneSelf) then [byte_of r]
  else if (0 <=? r) && (r <=? 0x7FF) then
    [byte_of (Z.lor 0xC0 (Z.shiftr r 6));
     byte_of (Z.lor 0x80 (Z.land r 0x3F))]
  else if (r <? 0) || (MaxRune <? r)
          || ((surrogateMin <=? r) && (r <=? surrogateMax)) then
    [byte_of (Z.lor 0xE0 (Z.shiftr RuneError 12));
     byte_of (Z.lor 0x80 (Z.land (Z.shiftr RuneError 6) 0x3F));
     byte_of (Z.lor 0x80 (Z.land RuneError 0x3F))]
  else if r <=? 0xFFFF then
    [byte_of (Z.lor 0xE0 (Z.shiftr r 12));
     byte_of (Z.lor 0x80 (Z.land (Z.shiftr r 6) 0x3F));
     byte_of (Z.lor 0x80 (Z.land r 0x3F))]
  else
    [byte_of (Z.lor 0xF0 (Z.shiftr r 18));
     byte_of (Z.lor 0x80 (Z.land (Z.shiftr r 12) 0x3F));
     byte_of (Z.lor 0x80 (Z.land (Z.shiftr r 6) 0x3F));
     byte_of (Z.lor 0x80 (Z.land r 0x3F))].

(** The table [first]: information about the first byte of an encoding.
    [0xF0] is ASCII, [0xF1] is invalid; otherwise the low three bits are the
    size and the high four bits index [acceptRanges]. *)
Definition first (b : Z) : Z :=
  if b <? 0x80 then 0xF0
  else if b <? 0xC2 then 0xF1
  else if b <? 0xE0 then 0x02
  else if b =? 0xE0 then 0x13
  else if b <? 0xED then 0x03
  else if b =? 0xED then 0x23
  else if b <? 0xF0 then 0x03
  else if b =? 0xF0 then 0x34
  else if b <? 0xF4 then 0x04
  else if b =? 0xF4 then 0x44
  else 0xF1.

(** [acceptRanges]: the range allowed for the second byte. *)
Definition acceptRanges (i : Z) : Z * Z :=
  if i =? 1 then (0xA0, 0xBF)
  else if i =? 2 then (0x80, 0x9F)
  else if i =? 3 then (0x90, 0xBF)
  else if i =? 4 then (0x80, 0x8F)
  else (0x80, 0xBF).

Definition continuation (b : Z) : bool := (0x80 <=? b) && (b <=? 0xBF).

(** [utf8.DecodeRuneInString]: the first rune of [s] and its width in bytes.
    An invalid or short encoding yields [(RuneError, 1)]. *)
Definition DecodeRune (s : bytes) : rune * nat :=
  match s with
  | [] => (RuneError, 0%nat)
  | b0 :: t =>
    let s0 := byte_val b0 in
    let x := first s0 in
    if 0xF0 <=? x then
      (if x =? 0xF0 then s0 else RuneError, 1%nat)
    else
      let sz := Z.land x 7 in
      let accept := acceptRanges (Z.shiftr x 4) in
      match t with
      | [] => (RuneError, 1%nat)
      | b1 :: t1 =>
        let s1 := byte_val b1 in
        if (s1 <? fst accept) || (snd accept <? s1) then (RuneError, 1%nat)
        else if sz <=? 2 then
          (Z.lor (Z.shiftl (Z.land s0 0x1F) 6) (Z.land s1 0x3F), 2%nat)
        else
          match t1 with
          | [] => (RuneError, 1%nat)
          | b2 :: t2 =>
            let s2 := byte_val b2 in
            if negb (continuation s2) then (RuneError, 1%nat)
            else if sz <=? 3 then
              (Z.lor (Z.lor (Z.shiftl (Z.land s0 0x0F) 12)
                            (Z.shiftl (Z.land s1 0x3F) 6))
                     (Z.land s2 0x3F), 3%nat)
            else
              match t2 with
              | [] => (RuneError, 1%nat)
              | b3 :: _ =>
                let s3 := byte_val b3 in
                if negb (continuation s3) then (RuneError, 1%nat)
                else
                  (Z.lor (Z.lor (Z.lor (Z.shiftl (Z.land s0 0x07) 18)
                                       (Z.shiftl (Z.land s1 0x3F) 12))
                                (Z.shiftl (Z.land s2 0x3F) 6))
                         (Z.land s3 0x3F), 4%nat)
              end
          end
      end
  end.

(** [for _, c := range s]: the runes of [s] in order.  [skip] counts the
    bytes of the current rune that are still to be passed over. *)
Fixpoint range_from (skip : nat) (s : bytes) : list rune :=
  match s with
  | [] => []
  | _ :: t =>
    match skip with
    | S k => range_from k t
    | O => let (r, size) := DecodeRune s in r :: range_from (pred size) t
    end
  end.

Definition range (s : bytes) : list rune := range_from 0 s.

(** The runes of [s] together with the bytes each one was decoded from. *)
Fixpoint chunks_from (skip : nat) (s : bytes) : list (rune * bytes) :=
  match s with
  | [] => []
  | b :: t =>
    match skip with
    | S k => chunks_from k t
    | O =>
      let (r, size) := DecodeRune s in
      (r, firstn size s) :: chunks_from (pred size) t
    end
  end.

Definition chunks (s : bytes) : list (rune * bytes) := chunks_from 0 s.

End utf8.

(** ** Package [unicode] *)

Module unicode.

(** [unicode.IsSpace]: the Latin-1 cases and the [White_Space] table. *)
Definition IsSpace (r : rune) : bool :=
  if (0 <=? r) && (r <=? 0xFF) then
    ((0x09 <=? r) && (r <=? 0x0D)) || (r =? 0x20) || (r =? 0x85) || (r =? 0xA0)
  else
    (r =? 0x1680) || ((0x2000 <=? r) && (r <=? 0x200A))
    || (r =? 0x2028) || (r =? 0x2029) || (r =? 0x202F) || (r =? 0x205F)
    || (r =? 0x3000).

End unicode.

(** ** Package [strings] *)

Module strings.

(** [strings.Repeat(" ", count)]; it panics when [count] is negative. *)
Definition Repeat (b : byte) (count : Z) : result bytes :=
  if count <? 0 then Fail NegativeRepeat
  else Ok (repeat b (Z.to_nat count)).

(** [strings.Replace(s, old, new, -1)] for a one-byte [old]. *)
Definition Replace (s : bytes) (old : byte) (new : bytes) : bytes :=
  flat_map (fun b => if Byte.eqb b old then new else [b]) s.

Fixpoint dropSpaces (l : list (rune * bytes)) : list (rune * bytes) :=
  match l with
  | [] => []
  | (r, c) :: t => if unicode.IsSpace r then dropSpaces t else l
  end.

(** [strings.TrimSpace]: [s] without its leading and trailing white space,
    white space being decided rune by rune. *)
Definition TrimSpace (s : bytes) : bytes :=
  flat_map snd (rev (dropSpaces (rev (dropSpaces (utf8.chunks s))))).

End strings.

(** ** Package [wordwrap] *)

Definition ESC : rune := 0x1B.

(** [ansi.IsTerminator], also written out in [Write]: an ASCII letter
    (or the at sign) closes an escape sequence. *)
Definition IsTerminator (c : rune) : bool :=
  ((0x40 <=? c) && (c <=? 0x5a)) || ((0x61 <=? c) && (c <=? 0x7a)).

Definition defaultBreakpoints : list rune := [0x2D].
Definition defaultNewline : list rune := [0x0A].

Fixpoint inGroup (a : list rune) (c : rune) : bool :=
  match a with
  | [] => false
  | v :: a' => if v =? c then true else inGroup a' c
  end.

(** The struct [WordWrap]: the settings, then the state. *)
Record WordWrap : Type := mkWordWrap {
  Limit : Z;
  Breakpoints : list rune;
  Newline : list rune;
  KeepNewlines : bool;
  HardWrap : bool;
  TabReplace : bytes;
  PreserveSpaces : bool;
  buf : bytes;
  space : bytes;
  word : bytes;
  lineLen : Z;
  ansi : bool;
  wroteBegin : bool;
  lastAnsi : bytes;
  newArgument : bool;
  leadingZero : bool
}.

(** Field assignments. *)
Definition set_buf (v : bytes) (w : WordWrap) : WordWrap :=
  mkWordWrap (Limit w) (Breakpoints w) (Newline w) (KeepNewlines w)
    (HardWrap w) (TabReplace w) (PreserveSpaces w) v (space w) (word w)
    (lineLen w) (ansi w) (wroteBegin w) (lastAnsi w) (newArgument w)
    (leadingZero w).

Definition set_space (v : bytes) (w : WordWrap) : WordWrap :=
  mkWordWrap (Limit w) (Breakpoints w) (Newline w) (KeepNewlines w)
    (HardWrap w) (TabReplace w) (PreserveSpaces w) (buf w) v (word w)
    (lineLen w) (ansi w) (wroteBegin w) (lastAnsi w) (newArgument w)
    (leadingZero w).

Definition set_word (v : bytes) (w : WordWrap) : WordWrap :=
  mkWordWrap (Limit w) (Breakpoints w) (Newline w) (KeepNewlines w)
    (HardWrap w) (TabReplace w) (PreserveSpaces w) (buf w) (space w) v
    (lineLen w) (ansi w) (wroteBegin w) (lastAnsi w) (newArgument w)
    (leadingZero w).

Definition set_lineLen (v : Z) (w : WordWrap) : WordWrap :=
  mkWordWrap (Limit w) (Breakpoints w) (Newline w) (KeepNewlines w)
    (HardWrap w) (TabReplace w) (PreserveSpaces w) (buf w) (space w) (word w)
    v (ansi w) (wroteBegin w) (lastAnsi w) (newArgument w)
    (leadingZero w).

Definition set_ansi (v : bool) (w : WordWrap) : WordWrap :=
  mkWordWrap (Limit w) (Breakpoints w) (Newline w) (KeepNewlines w)
    (HardWrap w) (TabReplace w) (PreserveSpaces w) (buf w) (space w) (word w)
    (lineLen w) v (wroteBegin w) (lastAnsi w) (newArgument w)
    (leadingZero w).

Definition set_wroteBegin (v : bool) (w : WordWrap) : WordWrap :=
  mkWordWrap (Limit w) (Breakpoints w) (Newline w) (KeepNewlines w)
    (HardWrap w) (TabReplace w) (PreserveSpaces w) (buf w) (space w) (word w)
    (lineLen w) (ansi w) v (lastAnsi w) (newArgument w)
    (leadingZero w).

Definition set_lastAnsi (v : bytes) (w : WordWrap) : WordWrap :=
  mkWordWrap (Limit w) (Breakpoints w) (Newline w) (KeepNewlines w)
    (HardWrap w) (TabReplace w) (PreserveSpaces w) (buf w) (space w) (word w)
    (lineLen w) (ansi w) (wroteBegin w) v (newArgument w)
    (leadingZero w).

Definition set_newArgument (v : bool) (w : WordWrap) : WordWrap :=
  mkWordWrap (Limit w) (Breakpoints w) (Newline w) (KeepNewlines w)
    (HardWrap w) (TabReplace w) (PreserveSpaces w) (buf w) (space w) (word w)
    (lineLen w) (ansi w) (wroteBegin w) (lastAnsi w) v
    (leadingZero w).

Definition set_leadingZero (v : bool) (w : WordWrap) : WordWrap :=
  mkWordWrap (Limit w) (Breakpoints w) (Newline w) (KeepNewlines w)
    (HardWrap w) (TabReplace w) (PreserveSpaces w) (buf w) (space w) (word w)
    (lineLen w) (ansi w) (wroteBegin w) (lastAnsi w) (newArgument w)
    v.

(** Writes to the three buffers that receive text. *)
Definition buf_Write (b : bytes) (w : WordWrap) : WordWrap :=
  set_buf (buf w ++ b) w.

Definition buf_WriteRune (c : rune) (w : WordWrap) : WordWrap :=
  set_buf (buf w ++ utf8.EncodeRune c) w.

Definition space_WriteRune (c : rune) (w : WordWrap) : WordWrap :=
  set_space (space w ++ utf8.EncodeRune c) w.

Definition word_Write (b : bytes) (w : WordWrap) : WordWrap :=
  set_word (word w ++ b) w.

Definition word_WriteRune (c : rune) (w : WordWrap) : WordWrap :=
  set_word (word w ++ utf8.EncodeRune c) w.

Definition lastAnsi_WriteRune (c : rune) (w : WordWrap) : WordWrap :=
  set_lastAnsi (lastAnsi w ++ utf8.EncodeRune c) w.

(** [NewWriter] *)
Definition NewWriter (limit : Z) : WordWrap :=
  {| Limit := limit;
     Breakpoints := defaultBreakpoints;
     Newline := defaultNewline;
     KeepNewlines := true;
     HardWrap := false;
     TabReplace := [];
     PreserveSpaces := false;
     buf := []; space := []; word := [];
     lineLen := 0; ansi := false;
     wroteBegin := false; lastAnsi := [];
     newArgument := false; leadingZero := false |}.

(** The loop [for length >= w.Limit] of [addSpace], on the output buffer and
    the number of spaces left.  Each round needs one unit of [fuel]. *)
Fixpoint spaceLines (fuel : nat) (limit : Z) (b : bytes) (length : Z)
  : result (bytes * Z) :=
  if limit <=? length then
    match fuel with
    | O => Fail NoProgress
    | S fuel' =>
      r <- strings.Repeat " " limit ;;
      spaceLines fuel' limit (b ++ x0a :: r) (length - limit)
    end
  else Ok (b, length).

(** [addSpace]: adds the pending spaces to [buf] and resets [space]. *)
Definition addSpace (w : WordWrap) : result WordWrap :=
  if len (space w) <=? Limit w - lineLen w then
    let w := set_lineLen (lineLen w + len (space w)) w in
    let w := buf_Write (space w) w in
    Ok (set_space [] w)
  else
    let length := len (space w) in
    let first := Limit w - lineLen w in
    r <- strings.Repeat " " first ;;
    let w := buf_Write r w in
    let length := length - first in
    bl <- spaceLines (Z.to_nat length) (Limit w) (buf w) length ;;
    let w := set_buf (fst bl) w in
    let length := snd bl in
    w <- (if 0 <? length then
            r <- strings.Repeat " " length ;;
            Ok (buf_Write (x0a :: r) w)
          else Ok w) ;;
    let w := set_lineLen length w in
    Ok (set_space [] w).

Section Wrapping.

(** [runewidth.RuneWidth], the display width of one rune.  The package
    go-runewidth and its tables are not part of the sources, so the width
    function is a parameter of the development. *)
Variable RuneWidth : rune -> Z.

(** Modelled from the spec: [ansi.PrintableRuneWidth] and the method of
    [ansi.Buffer] with that name (package [ansi] is not among the sources).
    The printable width of a run of text: the bytes of an escape sequence,
    from the escape character up to its terminator, count 0 columns, every
    other character counts its display width. *)
Fixpoint printableWidth (inSeq : bool) (n : Z) (l : list rune) : Z :=
  match l with
  | [] => n
  | c :: l' =>
    if c =? ESC then printableWidth true n l'
    else if inSeq then printableWidth (negb (IsTerminator c)) n l'
    else printableWidth false (n + RuneWidth c) l'
  end.

Definition PrintableRuneWidth (s : bytes) : Z :=
  printableWidth false 0 (utf8.range s).

(** [addWord] *)
Definition addWord (w : WordWrap) : result WordWrap :=
  if 0 <? len (word w) then
    w <- addSpace w ;;
    let w := set_lineLen (lineLen w + PrintableRuneWidth (word w)) w in
    let w := buf_Write (word w) w in
    Ok (set_word [] w)
  else Ok w.

(** [addNewLine] *)
Definition addNewLine (w : WordWrap) : result WordWrap :=
  w <- (if PreserveSpaces w then addSpace w else Ok w) ;;
  let w := if negb (len (lastAnsi w) =? 0)
           then buf_Write (x1b :: bs "[0m") w else w in
  let w := buf_WriteRune 0x0A w in
  let w := set_lineLen 0 w in
  let w := set_space [] w in
  Ok (set_wroteBegin false w).

(** The body of the loop of [Write], in three parts.  First the restart of
    the active style after a line break. *)
Definition restartAnsi (w : WordWrap) : result WordWrap :=
  if negb (wroteBegin w) && negb (ansi w) && negb (len (lastAnsi w) =? 0) then
    let w := buf_Write (lastAnsi w) w in
    addWord w
  else Ok w.

(** The branch [else if w.ansi]: one rune inside an escape sequence.  The
    two [continue] statements are the two early results. *)
Definition ansiRune (w : WordWrap) (c : rune) : WordWrap :=
  if (c =? 0x30) && newArgument w then
    set_leadingZero true w
  else
    let w := set_newArgument false w in
    let w := if inGroup [0x31; 0x32; 0x33; 0x34; 0x35; 0x36; 0x37; 0x38; 0x39] c
             then set_leadingZero false w else w in
    let w := if inGroup [0x5B; 0x3B] c then set_newArgument true w else w in
    if inGroup [0x5B; 0x3B] c && leadingZero w then
      let w := set_lastAnsi [] w in
      let w := set_lastAnsi (lastAnsi w ++ x1b :: bs "[") w in
      let w := set_leadingZero false w in
      word_Write (bs "0m" ++ x1b :: bs "[") w
    else
      let w := lastAnsi_WriteRune c w in
      let w :=
        if IsTerminator c then
          let w := if leadingZero w then
                     let w := word_WriteRune 0x30 w in
                     let w := set_lastAnsi [] w in
                     set_leadingZero false w
                   else w in
          set_ansi false w
        else w in
      word_WriteRune c w.

Definition writeRune (w : WordWrap) (c : rune) : result WordWrap :=
  w <- restartAnsi w ;;
  let w := set_wroteBegin true w in
  if c =? ESC then
    let w := word_WriteRune c w in
    let w := lastAnsi_WriteRune c w in
    let w := set_ansi true w in
    Ok (set_newArgument true w)
  else if ansi w then
    Ok (ansiRune w c)
  else if inGroup (Newline w) c then
    let w :=
      if len (word w) =? 0 then
        let w := if Limit w <? lineLen w + len (space w)
                 then set_lineLen 0 w
                 else buf_Write (space w) w in
        set_space [] w
      else w in
    w <- addWord w ;;
    addNewLine w
  else if unicode.IsSpace c then
    w <- addWord w ;;
    Ok (space_WriteRune c w)
  else if inGroup (Breakpoints w) c then
    w <- addSpace w ;;
    w <- addWord w ;;
    Ok (buf_WriteRune c w)
  else if HardWrap w
          && (lineLen w + PrintableRuneWidth (word w) + RuneWidth c
              + len (space w) =? Limit w) then
    let w := word_WriteRune c w in
    addWord w
  else
    let w := word_WriteRune c w in
    if (Limit w <? lineLen w + len (space w) + PrintableRuneWidth (word w))
       && (PrintableRuneWidth (word w) <? Limit w) then
      addNewLine w
    else Ok w.

Fixpoint writeRunes (w : WordWrap) (s : list rune) : result WordWrap :=
  match s with
  | [] => Ok w
  | c :: s' => w <- writeRune w c ;; writeRunes w s'
  end.

(** [Write]: the writer after the call; the count it returns is [len(b)]
    and its error is always [nil]. *)
Definition Write (w : WordWrap) (b : bytes) : result WordWrap :=
  if Limit w =? 0 then Ok (buf_Write b w)
  else
    let s := b in
    let s := if negb (KeepNewlines w)
             then strings.Replace (strings.TrimSpace s) x0a [x20] else s in
    let s := if HardWrap w
             then strings.Replace s x09 (TabReplace w) else s in
    writeRunes w (utf8.range s).

(** [Close] *)
Definition Close (w : WordWrap) : result WordWrap :=
  w <- (if PreserveSpaces w then addSpace w else Ok w) ;;
  addWord w.

(** The methods [Bytes] and [String] of the writer both return [buf]. *)
Definition WordWrap_Bytes (w : WordWrap) : bytes := buf w.

(** [Bytes]: wraps a byte slice with the default settings.  [String] is the
    same function on strings. *)
Definition Bytes (b : bytes) (limit : Z) : result bytes :=
  let f := NewWriter limit in
  f <- Write f b ;;
  f <- Close f ;;
  Ok (WordWrap_Bytes f).

Definition String (s : bytes) (limit : Z) : result bytes := Bytes s limit.

(** A sequence of [Write] calls followed by [Close], and the result read
    afterwards. *)
Fixpoint writeAll (w : WordWrap) (chunks : list bytes) : result WordWrap :=
  match chunks with
  | [] => Ok w
  | b :: chunks' => w <- Write w b ;; writeAll w chunks'
  end.

Definition session (w : WordWrap) (chunks : list bytes) : result bytes :=
  w <- writeAll w chunks ;;
  w <- Close w ;;
  Ok (WordWrap_Bytes w).

End Wrapping.

(** A width function for examples: what go-runewidth returns below U+0300,
    namely 0 for control characters and the soft hyphen and 1 otherwise. *)
Definition narrowWidth (r : rune) : Z :=
  if (r <? 0x20) || ((0x7F <=? r) && (r <=? 0x9F)) || (r =? 0xAD) then 0
  else 1.

Definition esc (s : String.string) : bytes := x1b :: bs s.

(** A writer as [NewWriter] returns it, whose exported settings may have
    been assigned since: nothing written, nothing pending. *)
Definition fresh (w : WordWrap) : Prop :=
  buf w = [] /\ space w = [] /\ word w = [] /\ lineLen w = 0 /\
  ansi w = false /\ wroteBegin w = false /\ lastAnsi w = [] /\
  newArgument w = false /\ leadingZero w = false.

(** ** The shorthand [HardWrap] *)

(** More field assignments. *)
Definition set_HardWrap (v : bool) (w : WordWrap) : WordWrap :=
  mkWordWrap (Limit w) (Breakpoints w) (Newline w) (KeepNewlines w)
    v (TabReplace w) (PreserveSpaces w) (buf w) (space w) (word w)
    (lineLen w) (ansi w) (wroteBegin w) (lastAnsi w) (newArgument w)
    (leadingZero w).

Definition set_TabReplace (v : bytes) (w : WordWrap) : WordWrap :=
  mkWordWrap (Limit w) (Breakpoints w) (Newline w) (KeepNewlines w)
    (HardWrap w) v (PreserveSpaces w) (buf w) (space w) (word w)
    (lineLen w) (ansi w) (wroteBegin w) (lastAnsi w) (newArgument w)
    (leadingZero w).

Definition set_KeepNewlines (v : bool) (w : WordWrap) : WordWrap :=
  mkWordWrap (Limit w) (Breakpoints w) (Newline w) v
    (HardWrap w) (TabReplace w) (PreserveSpaces w) (buf w) (space w) (word w)
    (lineLen w) (ansi w) (wroteBegin w) (lastAnsi w) (newArgument w)
    (leadingZero w).

Definition set_PreserveSpaces (v : bool) (w : WordWrap) : WordWrap :=
  mkWordWrap (Limit w) (Breakpoints w) (Newline w) (KeepNewlines w)
    (HardWrap w) (TabReplace w) v (buf w) (space w) (word w)
    (lineLen w) (ansi w) (wroteBegin w) (lastAnsi w) (newArgument w)
    (leadingZero w).

Module wordwrap.

(** [HardWrap], the shorthand for a hard-wrapping writer.  The struct has a
    field of the same name, so the function lives in a name space of its
    own. *)
Definition HardWrap (RuneWidth : rune -> Z) (s : bytes) (limit : Z)
    (tabReplace : bytes) : result bytes :=
  let f := NewWriter limit in
  let f := set_HardWrap true f in
  let f := set_TabReplace tabReplace f in
  f <- Write RuneWidth f s ;;
  f <- Close RuneWidth f ;;
  Ok (WordWrap_Bytes f).

End wordwrap.

(** * The vocabulary of the properties *)

(** ** Writers and inputs of the examples *)

(** A writer with wrapping disabled and every other setting changed from
    its default. *)
Definition passthroughWriter : WordWrap :=
  mkWordWrap 0 [0x2D; 0x2F] [0x0A; 0x0D] false true (bs "    ") true
    [] [] [] 0 false false [] false false.

(** The example of the specification: 12 pending spaces, [Limit = 5],
    [lineLen = 3], [PreserveSpaces] set.  The run is split 2 + 5 + 5. *)
Definition twelveSpaces : WordWrap :=
  mkWordWrap 5 defaultBreakpoints defaultNewline true false [] true
    (bs "abc") (bs "            ") [] 3 false true [] false false.

(** The sequence [ESC[31;0;32m] and what the normalizer makes of it. *)
Definition resetInTheMiddle : bytes := esc "[31;0;32m".

Definition splitInTwo : bytes := esc "[31;0m" ++ esc "[32m".

(** A writer with the default settings and nothing but a pending word. *)
Definition onlyWord (limit : Z) (begun : bool) (pending : bytes) : WordWrap :=
  set_word pending (set_wroteBegin begun (NewWriter limit)).

(** ** Flushing a run of spaces *)

(** The layout the specification gives for a run that does not fit: [first]
    spaces on the current line, [q] full lines of [limit] spaces, and a last
    line of [r] spaces when [r] is positive. *)
Definition splitRun (limit first q r : Z) : bytes :=
  repeat x20 (Z.to_nat first)
  ++ concat (repeat (x0a :: repeat x20 (Z.to_nat limit)) (Z.to_nat q))
  ++ (if 0 <? r then x0a :: repeat x20 (Z.to_nat r) else []).

(** The number of space characters in a piece of output. *)
Definition spacesIn (b : bytes) : Z := len (filter (Byte.eqb x20) b).

(** The runes that [addSpace] writes for a run that does not fit. *)
Definition splitRunes (limit first q r : Z) : list rune :=
  repeat 0x20 (Z.to_nat first)
  ++ concat (repeat (0x0A :: repeat 0x20 (Z.to_nat limit)) (Z.to_nat q))
  ++ (if 0 <? r then 0x0A :: repeat 0x20 (Z.to_nat r) else []).

(** ** Input that is not valid UTF-8 *)

(** A Unicode scalar value: what [range] yields and [EncodeRune] keeps. *)
Definition validRune (r : rune) : Prop :=
  0 <= r <= utf8.MaxRune /\ ~ (utf8.surrogateMin <= r <= utf8.surrogateMax).

(** The value of the first byte decides the size and the range of the
    second byte. *)
Inductive leadClass : Z -> Z -> Z -> Z -> Prop :=
| lead2 : forall x, 0xC2 <= x <= 0xDF -> leadClass x 2 0x80 0xBF
| leadE0 : leadClass 0xE0 3 0xA0 0xBF
| lead3 : forall x, 0xE1 <= x <= 0xEC \/ 0xEE <= x <= 0xEF ->
                    leadClass x 3 0x80 0xBF
| leadED : leadClass 0xED 3 0x80 0x9F
| leadF0 : leadClass 0xF0 4 0x90 0xBF
| lead4 : forall x, 0xF1 <= x <= 0xF3 -> leadClass x 4 0x80 0xBF
| leadF4 : leadClass 0xF4 4 0x80 0x8F.

(** A byte that cannot begin an encoding: a continuation byte or one of
    the bytes that never occur in UTF-8. *)
Definition neverValid (b : byte) : bool := utf8.first (byte_val b) =? 0xF1.

(** A rune that the loop of [Write] treats as the text of a word under the
    default settings: it reaches the last branch. *)
Definition wordRune (c : rune) : bool :=
  negb (c =? ESC)
  && negb (inGroup defaultNewline c)
  && negb (unicode.IsSpace c)
  && negb (inGroup defaultBreakpoints c).

(** An ASCII byte that the loop of [Write] treats as the text of a word
    under the default settings. *)
Definition wordByte (b : byte) : bool :=
  (byte_val b <? utf8.RuneSelf)
  && negb (byte_val b =? ESC)
  && negb (inGroup defaultNewline (byte_val b))
  && negb (unicode.IsSpace (byte_val b))
  && negb (inGroup defaultBreakpoints (byte_val b)).

(** The input with every byte that is never valid replaced by the encoding
    of [utf8.RuneError]. *)
Definition replaceInvalid (s : bytes) : bytes :=
  flat_map (fun b => if neverValid b then utf8.EncodeRune utf8.RuneError
                     else [b]) s.

(** ** Lines and words of the output *)

Definition encodeAll (rs : list rune) : bytes := flat_map utf8.EncodeRune rs.

(** [l] cut at the elements that satisfy [sep]; the separators are dropped,
    and the result has one more piece than there are separators. *)
Fixpoint splitAt {A : Type} (sep : A -> bool) (l : list A) : list (list A) :=
  match l with
  | [] => [[]]
  | c :: t =>
    if sep c then [] :: splitAt sep t
    else match splitAt sep t with
         | w :: ws => (c :: w) :: ws
         | [] => [[c]]
         end
  end.

(** No element of [l] is a separator. *)
Definition noSep {A : Type} (sep : A -> bool) (l : list A) : bool :=
  forallb (fun c => negb (sep c)) l.

Definition lineBreak (c : rune) : bool := c =? 0x0A.

(** The output as lines of runes; the last one is the line being filled. *)
Definition textLines (s : bytes) : list (list rune) :=
  splitAt lineBreak (utf8.range s).

Definition currentLine (s : bytes) : list rune := last (textLines s) [].

(** The lines [done], each closed by a line break, and the line [cur] that
    is being filled. *)
Definition joinLines (done : list (list rune)) (cur : list rune) : list rune :=
  flat_map (fun l => l ++ [0x0A]) done ++ cur.

(** The words of a line: its maximal runs without white space. *)
Definition words (l : list rune) : list (list rune) :=
  splitAt unicode.IsSpace l.

Definition noESC (l : list rune) : bool := forallb (fun c => negb (c =? ESC)) l.

(** The printable width of a line or word. *)
Definition lineWidth (RuneWidth : rune -> Z) (l : list rune) : Z :=
  printableWidth RuneWidth false 0 l.

(** The sum of the widths of the runes, which is the printable width of
    text without escape sequences. *)
Definition sumWidth (RuneWidth : rune -> Z) (l : list rune) : Z :=
  fold_right (fun c n => RuneWidth c + n) 0 l.

(** The width of a line as [lineLen] counts it: a white-space character
    counts the bytes of its encoding, any other character its width. *)
Definition columns (RuneWidth : rune -> Z) (l : list rune) : Z :=
  fold_right
    (fun c n => (if unicode.IsSpace c then len (utf8.EncodeRune c)
                 else RuneWidth c) + n)
    0 l.

(** [lineLen] as the specification describes it: the printable width of
    what was written to the output since the last line break. *)
Definition countsLine (RuneWidth : rune -> Z) (w : WordWrap) : Prop :=
  lineLen w = lineWidth RuneWidth (currentLine (buf w)).

(** A line holds a word at least as wide as the limit. *)
Definition holdsWideWord (RuneWidth : rune -> Z) (limit : Z) (l : list rune) : bool :=
  existsb (fun w => limit <=? lineWidth RuneWidth w) (words l).

(** A line is within the limit, or it holds a word that is not. *)
Definition fits (RuneWidth : rune -> Z) (limit : Z) (l : list rune) : bool :=
  (lineWidth RuneWidth l <=? limit) || holdsWideWord RuneWidth limit l.

(** Text without escape characters and without breakpoint characters. *)
Definition plainText (s : bytes) : bool :=
  forallb (fun c => negb (c =? ESC) && negb (inGroup defaultBreakpoints c))
          (utf8.range s).

(** A single atomic word: no white space and no breakpoint character. *)
Definition atomicWord (breakpoints : list rune) (l : list rune) : bool :=
  forallb (fun c => negb (unicode.IsSpace c) && negb (inGroup breakpoints c)) l.

(** The bound as the specification states it: the line is within the
    limit, or it is a single atomic word wider than the limit. *)
Definition withinLimit (RuneWidth : rune -> Z) (breakpoints : list rune)
    (limit : Z) (l : list rune) : bool :=
  (lineWidth RuneWidth l <=? limit)
  || (atomicWord breakpoints l && (limit <? lineWidth RuneWidth l)).

(** A run without white space, at least as wide as the limit, somewhere in
    the line. *)
Definition wideRun (RuneWidth : rune -> Z) (limit : Z) (l : list rune) : Prop :=
  exists pre w post,
    l = pre ++ w ++ post /\
    noSep unicode.IsSpace w = true /\ limit <= sumWidth RuneWidth w.

(** A word of the line is at least as wide as the limit, by the sum of
    the widths of its runes. *)
Definition wideWordS (RuneWidth : rune -> Z) (limit : Z) (l : list rune) : bool :=
  existsb (fun w => limit <=? sumWidth RuneWidth w) (words l).

(** ** The invariant of the line-filling loop *)

(** A rune of the text: a scalar value other than the escape character. *)
Definition textRune (c : rune) : Prop := validRune c /\ c <> ESC.

(** A rune of the input: text that is no breakpoint. *)
Definition inputRune (c : rune) : Prop :=
  textRune c /\ inGroup defaultBreakpoints c = false.

Definition goodLine (RuneWidth : rune -> Z) (limit : Z) (l : list rune) : Prop :=
  sumWidth RuneWidth l <= limit \/ wideRun RuneWidth limit l.

(** The writer [w] in the middle of plain text, with the default settings:
    [done] are the lines written so far, [cur] is the line being filled and
    [wd] is the pending word. *)
Record Shape (RuneWidth : rune -> Z) (limit : Z) (w : WordWrap)
    (done : list (list rune)) (cur wd : list rune) : Prop := {
  sh_limit : Limit w = limit;
  sh_bp : Breakpoints w = defaultBreakpoints;
  sh_nl : Newline w = defaultNewline;
  sh_keep : KeepNewlines w = true;
  sh_hard : HardWrap w = false;
  sh_pres : PreserveSpaces w = false;
  sh_ansi : ansi w = false;
  sh_last : lastAnsi w = [];
  sh_buf : buf w = encodeAll (joinLines done cur);
  sh_word : word w = encodeAll wd;
  sh_done_text : Forall (Forall textRune) done;
  sh_cur_text : Forall textRune cur;
  sh_wd_text : Forall textRune wd;
  sh_done_nb : Forall (fun l => noSep lineBreak l = true) done;
  sh_cur_nb : noSep lineBreak cur = true;
  sh_wd_solid : noSep unicode.IsSpace wd = true;
  sh_done_good : Forall (goodLine RuneWidth limit) done
}.

(** The invariant: the shape, the pending spaces [sp], and what [lineLen]
    says about the line being filled and about the room left for the
    pending word. *)
Record Inv (RuneWidth : rune -> Z) (limit : Z) (w : WordWrap)
    (done : list (list rune)) (cur sp wd : list rune) : Prop := {
  inv_shape : Shape RuneWidth limit w done cur wd;
  inv_space : space w = encodeAll sp;
  inv_sp_text : Forall textRune sp;
  inv_sp_nb : noSep lineBreak sp = true;
  inv_sp_space : forallb unicode.IsSpace sp = true;
  inv_len : 0 <= lineLen w;
  inv_cur_good :
    wideRun RuneWidth limit cur \/
    (lineLen w = columns RuneWidth cur /\ lineLen w <= limit);
  inv_room :
    wd = [] \/ limit <= sumWidth RuneWidth wd \/
    lineLen w + len (space w) + sumWidth RuneWidth wd <= limit
}.

(** There is room for the pending word on the current line. *)
Definition Room (w : WordWrap) : Prop :=
  word w = [] \/ lineLen w + len (space w) <= Limit w.

(** ** The output buffer and the settings *)

(** The exported settings of [w'] are those of [w]. *)
Definition sameSettings (w w' : WordWrap) : Prop :=
  Limit w' = Limit w /\ Breakpoints w' = Breakpoints w /\
  Newline w' = Newline w /\ KeepNewlines w' = KeepNewlines w /\
  HardWrap w' = HardWrap w /\ TabReplace w' = TabReplace w /\
  PreserveSpaces w' = PreserveSpaces w.

(** The output of [w'] is the output of [w] with more bytes after it. *)
Definition appended (w w' : WordWrap) : Prop :=
  exists x, buf w' = buf w ++ x.

Definition advances (w w' : WordWrap) : Prop :=
  sameSettings w w' /\ appended w w'.

(** ** Text in pieces and visible text *)

(** [s] is valid UTF-8: decoding it and encoding the runes again gives [s]
    back. *)
Definition validUTF8 (s : bytes) : Prop := encodeAll (utf8.range s) = s.

(** A visible rune: anything but white space. *)
Definition visible (l : list rune) : list rune :=
  filter (fun c => negb (unicode.IsSpace c)) l.

(** ** A negative limit *)

(** A writer with the default settings and a negative limit, outside an
    escape sequence, before anything was flushed. *)
Definition negativeLimit (w : WordWrap) : Prop :=
  Limit w < 0 /\ lineLen w = 0 /\
  Breakpoints w = defaultBreakpoints /\ Newline w = defaultNewline /\
  HardWrap w = false /\ PreserveSpaces w = false /\
  ansi w = false /\ lastAnsi w = [].

(** ** Escape sequences *)

(** The runes between the escape character and the terminator of a
    sequence in which no argument begins with a zero.  [newArg] tells
    whether the next rune begins an argument. *)
Fixpoint plainArgs (newArg : bool) (body : list rune) : bool :=
  match body with
  | [] => true
  | c :: t =>
    negb (c =? ESC) && negb (IsTerminator c)
    && negb ((c =? 0x30) && newArg)
    && plainArgs (inGroup [0x5B; 0x3B] c) t
  end.

(** Whether the rune after [body] begins an argument. *)
Definition endsArgument (newArg : bool) (body : list rune) : bool :=
  fold_left (fun _ c => inGroup [0x5B; 0x3B] c) body newArg.

(** The writer [w] with the runes [seq] of an escape sequence added to
    the pending word and to the active style; [na] and [an] are the
    parser flags [newArgument] and [ansi]. *)
Definition seqState (w : WordWrap) (seq : list rune) (na an : bool) : WordWrap :=
  mkWordWrap (Limit w) (Breakpoints w) (Newline w) (KeepNewlines w)
    (HardWrap w) (TabReplace w) (PreserveSpaces w) (buf w) (space w)
    (word w ++ encodeAll seq) (lineLen w) an true
    (lastAnsi w ++ encodeAll seq) na false.

(** The writer [w] after a sequence that reset the style: [seq] was added
    to the pending word and no style is active. *)
Definition resetState (w : WordWrap) (seq : list rune) : WordWrap :=
  mkWordWrap (Limit w) (Breakpoints w) (Newline w) (KeepNewlines w)
    (HardWrap w) (TabReplace w) (PreserveSpaces w) (buf w) (space w)
    (word w ++ encodeAll seq) (lineLen w) false true [] false false.

(** ** The invariant of the loop for any settings *)

(** What the loop of [Write] reads for the input [b] when newlines are
    kept: with [HardWrap] set the tabs are replaced first. *)
Definition tabsReplaced (w : WordWrap) (b : bytes) : bytes :=
  if HardWrap w then strings.Replace b x09 (TabReplace w) else b.

(** Runes that [addSpace] writes: spaces and line breaks. *)
Definition blank (c : rune) : bool := (c =? 0x20) || (c =? 0x0A).

(** The invariant of the loop of [Write] on text without escape sequences,
    whatever the settings are: the three buffers hold the encodings of the
    runes [B], [S] and [W], and the pending spaces are white space. *)
Record Kept (w : WordWrap) (B S W : list rune) : Prop := {
  kept_buf : buf w = encodeAll B;
  kept_space : space w = encodeAll S;
  kept_word : word w = encodeAll W;
  kept_B : Forall validRune B;
  kept_S : Forall validRune S;
  kept_W : Forall validRune W;
  kept_blank : visible S = [];
  kept_ansi : ansi w = false;
  kept_last : lastAnsi w = [];
  kept_nl : forallb unicode.IsSpace (Newline w) = true
}.

(** A writer with breakpoints and line breaks of its own that preserves
    spaces. *)
Definition slashWriter : WordWrap :=
  mkWordWrap 4 [0x2D; 0x2F] [0x0A; 0x0D] true false [] true
    [] [] [] 0 false false [] false false.

(** ** Text that fits *)

(** The columns [lineLen] counts for one rune: the bytes of a white-space
    character, the width of any other. *)
Definition column (RuneWidth : rune -> Z) (c : rune) : Z :=
  if unicode.IsSpace c then len (utf8.EncodeRune c) else RuneWidth c.

(** The text [rest] is still to be read, the current line holds [n]
    columns, and no line gets more than [limit] columns. *)
Fixpoint roomFor (RuneWidth : rune -> Z) (limit n : Z) (rest : list rune) : bool :=
  match rest with
  | [] => n <=? limit
  | c :: t =>
    if lineBreak c then (n <=? limit) && roomFor RuneWidth limit 0 t
    else roomFor RuneWidth limit (n + column RuneWidth c) t
  end.

(** The text ends in white space that is not a line break. *)
Definition trailingBlank (rs : list rune) : bool :=
  let c := last rs 0x0A in unicode.IsSpace c && negb (lineBreak c).

(** The invariant of the loop of [Write] on text whose lines fit: nothing
    was dropped or inserted so far.  [seen] is the text read, [W] the
    pending word and [n] the columns of the current line of [seen]. *)
Record Fit (RuneWidth : rune -> Z) (limit : Z) (w : WordWrap)
    (seen W : list rune) (n : Z) : Prop := {
  fit_limit : Limit w = limit;
  fit_bp : Breakpoints w = defaultBreakpoints;
  fit_nl : Newline w = defaultNewline;
  fit_hard : HardWrap w = false;
  fit_pres : PreserveSpaces w = false;
  fit_ansi : ansi w = false;
  fit_last : lastAnsi w = [];
  fit_out : buf w ++ space w ++ word w = encodeAll seen;
  fit_word : word w = encodeAll W;
  fit_text : Forall textRune W;
  fit_len : 0 <= lineLen w;
  fit_room : lineLen w + len (space w) + sumWidth RuneWidth W <= n;
  fit_blank : space w <> [] -> word w = [] -> trailingBlank seen = true
}.

(** ** Hard wrapping *)

(** A rune of narrow text: no escape character, no breakpoint, and one
    column wide unless it is white space. *)
Definition narrowRune (RuneWidth : rune -> Z) (c : rune) : Prop :=
  textRune c /\ inGroup defaultBreakpoints c = false /\
  (unicode.IsSpace c = false -> RuneWidth c = 1).

(** The invariant of the loop of [Write] for a hard-wrapping writer on
    narrow text: [done] are the lines written, [cur] is the line being
    filled, [sp] and [wd] are the pending spaces and the pending word. *)
Record Hard (RuneWidth : rune -> Z) (limit : Z) (w : WordWrap)
    (done : list (list rune)) (cur sp wd : list rune) : Prop := {
  hd_limit : Limit w = limit;
  hd_bp : Breakpoints w = defaultBreakpoints;
  hd_nl : Newline w = defaultNewline;
  hd_hard : HardWrap w = true;
  hd_pres : PreserveSpaces w = false;
  hd_ansi : ansi w = false;
  hd_last : lastAnsi w = [];
  hd_buf : buf w = encodeAll (joinLines done cur);
  hd_space : space w = encodeAll sp;
  hd_word : word w = encodeAll wd;
  hd_done_text : Forall (Forall textRune) done;
  hd_cur_text : Forall textRune cur;
  hd_sp_text : Forall textRune sp;
  hd_wd_text : Forall textRune wd;
  hd_done_nb : Forall (fun l => noSep lineBreak l = true) done;
  hd_cur_nb : noSep lineBreak cur = true;
  hd_sp_nb : noSep lineBreak sp = true;
  hd_sp_space : forallb unicode.IsSpace sp = true;
  hd_wd_solid : noSep unicode.IsSpace wd = true;
  hd_done_fit : Forall (fun l => columns RuneWidth l <= limit) done;
  hd_len : lineLen w = columns RuneWidth cur;
  hd_cur_fit : 0 <= lineLen w <= limit;
  hd_room :
    wd = [] \/ lineLen w + len (space w) + sumWidth RuneWidth wd < limit
}.

(** ** Wrapping twice *)

(** The text [rest] is still to be read, the word that is being read is
    [n] columns wide so far, and every word stays narrower than [limit]. *)
Fixpoint narrowWords (RuneWidth : rune -> Z) (limit n : Z) (rest : list rune)
  : bool :=
  match rest with
  | [] => true
  | c :: t =>
    if unicode.IsSpace c then narrowWords RuneWidth limit 0 t
    else (n + RuneWidth c <? limit)
         && narrowWords RuneWidth limit (n + RuneWidth c) t
  end.

(** The invariant of the loop of [Write] with the default settings on plain
    text whose words are narrower than the limit: every line written has
    at most [limit] columns, and the output does not end in a blank. *)
Record Soft (RuneWidth : rune -> Z) (limit : Z) (w : WordWrap)
    (done : list (list rune)) (cur sp wd : list rune) : Prop := {
  sf_limit : Limit w = limit;
  sf_bp : Breakpoints w = defaultBreakpoints;
  sf_nl : Newline w = defaultNewline;
  sf_hard : HardWrap w = false;
  sf_pres : PreserveSpaces w = false;
  sf_ansi : ansi w = false;
  sf_last : lastAnsi w = [];
  sf_buf : buf w = encodeAll (joinLines done cur);
  sf_space : space w = encodeAll sp;
  sf_word : word w = encodeAll wd;
  sf_done_text : Forall (Forall textRune) done;
  sf_cur_text : Forall textRune cur;
  sf_sp_text : Forall textRune sp;
  sf_wd_text : Forall textRune wd;
  sf_done_nb : Forall (fun l => noSep lineBreak l = true) done;
  sf_cur_nb : noSep lineBreak cur = true;
  sf_sp_nb : noSep lineBreak sp = true;
  sf_sp_space : forallb unicode.IsSpace sp = true;
  sf_wd_solid : noSep unicode.IsSpace wd = true;
  sf_done_fit : Forall (fun l => columns RuneWidth l <= limit) done;
  sf_len : lineLen w = columns RuneWidth cur;
  sf_cur_fit : 0 <= lineLen w <= limit;
  sf_room :
    wd = [] \/ lineLen w + len (space w) + sumWidth RuneWidth wd <= limit;
  sf_tail : trailingBlank (joinLines done cur) = false
}.

(** ** Blanks at the end *)

(** White space that is not a line break. *)
Definition blankRune (c : rune) : bool :=
  unicode.IsSpace c && negb (lineBreak c).

(** ** Words that stay whole *)

(** The words of a text: its maximal runs without white space. *)
Definition tokens (l : list rune) : list (list rune) :=
  filter (fun w => match w with [] => false | _ :: _ => true end) (words l).

(** The text is empty or ends in white space. *)
Definition endsBlank (l : list rune) : bool := unicode.IsSpace (last l 0x20).

(** A rune of text that a writer with the breakpoints [bp] does not use as
    a breakpoint: no escape character, and white space or no breakpoint. *)
Definition wordText (bp : list rune) (c : rune) : bool :=
  negb (c =? ESC) && (unicode.IsSpace c || negb (inGroup bp c)).

(** The invariant of the loop of [Write] that keeps words whole, for a
    writer that does not wrap hard: [seen] is the text read so far, which
    ends in the pending word [W]; before that word it has the words of the
    output [B]; and the pending word will be set apart from the output, by
    the pending spaces [S] or by the white space the output ends in. *)
Record Whole (bp : list rune) (w : WordWrap) (seen B S W : list rune)
    : Prop := {
  wh_kept : Kept w B S W;
  wh_hard : HardWrap w = false;
  wh_bp : Breakpoints w = bp;
  wh_seen : exists pre,
      seen = pre ++ W /\ endsBlank pre = true /\ tokens pre = tokens B;
  wh_gap : S <> [] \/ endsBlank B = true
}.

(** * Properties *)

(** ** Lengths *)

Lemma len_app : forall a b, len (a ++ b) = len a + len b.
Proof. intros. unfold len. rewrite length_app. lia. Qed.

Lemma len_nonneg : forall a, 0 <= len a.
Proof. intros. unfold len. lia. Qed.

Lemma len_zero_inv : forall a, len a <= 0 -> a = [].
Proof. intros [|x a] H; [reflexivity | unfold len in H; simpl in H; lia]. Qed.

Lemma len_repeat : forall (b : byte) n, len (repeat b n) = Z.of_nat n.
Proof. intros. unfold len. now rewrite repeat_length. Qed.

(** ** Passthrough with [Limit = 0] *)

Lemma fresh_NewWriter : forall limit, fresh (NewWriter limit).
Proof. intros; repeat split. Qed.

Section Passthrough.

Variable RuneWidth : rune -> Z.

Lemma Write_limit_zero : forall w b,
  Limit w = 0 -> Write RuneWidth w b = Ok (buf_Write b w).
Proof.
  intros w b H. unfold Write. rewrite H. reflexivity.
Qed.

Lemma writeAll_limit_zero : forall chunks w,
  Limit w = 0 ->
  writeAll RuneWidth w chunks = Ok (buf_Write (concat chunks) w).
Proof.
  induction chunks as [|b chunks IH]; intros w H; simpl.
  - unfold buf_Write. rewrite app_nil_r. destruct w; reflexivity.
  - rewrite Write_limit_zero by assumption. simpl.
    rewrite IH by (destruct w; assumption).
    unfold buf_Write. destruct w; simpl. rewrite app_assoc. reflexivity.
Qed.

Lemma Close_nothing_pending : forall w,
  Limit w = 0 -> space w = [] -> word w = [] -> lineLen w = 0 ->
  Close RuneWidth w = Ok w.
Proof.
  intros w HL Hs Hw Hl. destruct w; simpl in *; subst.
  unfold Close, addSpace, addWord; simpl.
  destruct PreserveSpaces0; simpl; unfold buf_Write; simpl;
    rewrite ?app_nil_r; reflexivity.
Qed.

End Passthrough.

(** C8. With [Limit = 0] a session is a strict passthrough: whatever the
    other settings are and however the input is cut into [Write] calls, the
    result read after [Close] is the concatenation of the inputs, byte for
    byte. *)
Theorem limit_zero_passthrough :
  forall (RuneWidth : rune -> Z) (w : WordWrap) (chunks : list bytes),
    fresh w -> Limit w = 0 ->
    session RuneWidth w chunks = Ok (concat chunks).
Proof.
  intros rw w chunks Hf HL.
  destruct Hf as (Hb & Hs & Hw & Hl & _).
  unfold session. rewrite writeAll_limit_zero by assumption. simpl.
  rewrite Close_nothing_pending; try (destruct w; simpl in *; assumption).
  simpl. unfold WordWrap_Bytes. destruct w; simpl in *. subst. reflexivity.
Qed.

Lemma limit_zero_passthrough_witness :
  fresh passthroughWriter /\ Limit passthroughWriter = 0 /\
  session narrowWidth passthroughWriter
    [bs "  a  b" ++ [x09; x0a]; esc "[0031m" ++ [xff]; bs " c-d  "]
  = Ok (bs "  a  b" ++ [x09; x0a] ++ esc "[0031m" ++ [xff] ++ bs " c-d  ").
Proof.
  assert (Hf : fresh passthroughWriter) by (repeat split).
  split; [exact Hf | split; [reflexivity |]].
  exact (limit_zero_passthrough narrowWidth passthroughWriter
           [bs "  a  b" ++ [x09; x0a]; esc "[0031m" ++ [xff]; bs " c-d  "]
           Hf eq_refl).
Defined.

(** ** Flushing a run of spaces *)

Lemma Repeat_ok : forall b n, 0 <= n ->
  strings.Repeat b n = Ok (repeat b (Z.to_nat n)).
Proof.
  intros b n H. unfold strings.Repeat.
  destruct (Z.ltb_spec n 0); [lia | reflexivity].
Qed.

Lemma Repeat_negative : forall b n, n < 0 ->
  strings.Repeat b n = Fail NegativeRepeat.
Proof.
  intros b n H. unfold strings.Repeat.
  destruct (Z.ltb_spec n 0); [reflexivity | lia].
Qed.

(** With a positive limit the loop ends within its fuel, after
    [length / limit] rounds, and leaves [length mod limit] spaces. *)
Lemma spaceLines_ok : forall fuel limit b length,
  0 < limit -> 0 <= length -> (Z.to_nat length <= fuel)%nat ->
  spaceLines fuel limit b length
  = Ok (b ++ concat (repeat (x0a :: repeat x20 (Z.to_nat limit))
                            (Z.to_nat (length / limit))),
        length mod limit).
Proof.
  induction fuel as [|fuel IH]; intros limit b length Hl Hn Hf.
  - assert (length = 0) by lia. subst. simpl.
    destruct (Z.leb_spec limit 0); [lia |].
    now rewrite app_nil_r.
  - simpl. destruct (Z.leb_spec limit length) as [Hle | Hlt].
    + rewrite Repeat_ok by lia. simpl.
      rewrite IH by lia.
      replace length with ((length - limit) + 1 * limit) at 3 4 by ring.
      rewrite Z.div_add, Z.mod_add by lia.
      assert (0 <= (length - limit) / limit) by (apply Z.div_pos; lia).
      replace (Z.to_nat ((length - limit) / limit + 1))
        with (S (Z.to_nat ((length - limit) / limit))) by lia.
      simpl. rewrite <- app_assoc. reflexivity.
    + rewrite Z.div_small, Z.mod_small by lia. simpl.
      now rewrite app_nil_r.
Qed.

(** With [Limit = 0] and spaces left it never ends, whatever the fuel. *)
Lemma spaceLines_limit_zero : forall fuel b length,
  0 <= length -> spaceLines fuel 0 b length = Fail NoProgress.
Proof.
  induction fuel as [|fuel IH]; intros b length Hn; simpl;
    destruct (Z.leb_spec 0 length); try lia; [reflexivity |].
  simpl. rewrite Z.sub_0_r. apply IH; assumption.
Qed.

(** [addSpace] when the run fits and when it does not. *)
Lemma addSpace_fits : forall w,
  len (space w) <= Limit w - lineLen w ->
  addSpace w
  = Ok (set_space []
         (buf_Write (space w) (set_lineLen (lineLen w + len (space w)) w))).
Proof.
  intros w H. unfold addSpace.
  destruct (Z.leb_spec (len (space w)) (Limit w - lineLen w)); [| lia].
  destruct w; reflexivity.
Qed.

Lemma addSpace_overflow : forall w,
  0 < Limit w -> 0 <= lineLen w <= Limit w ->
  Limit w - lineLen w < len (space w) ->
  let first := Limit w - lineLen w in
  let rest := len (space w) - first in
  addSpace w
  = Ok (set_space []
         (set_lineLen (rest mod Limit w)
           (buf_Write
              (splitRun (Limit w) first (rest / Limit w) (rest mod Limit w))
              w))).
Proof.
  intros w HL Hl Hs first rest. unfold addSpace.
  destruct (Z.leb_spec (len (space w)) (Limit w - lineLen w)); [lia |].
  fold first. rewrite Repeat_ok by (unfold first; lia). simpl.
  fold rest.
  replace (Limit (buf_Write (repeat " "%byte (Z.to_nat first)) w))
    with (Limit w) by (destruct w; reflexivity).
  rewrite spaceLines_ok by (unfold rest, first; lia). simpl.
  assert (Hr : 0 <= rest mod Limit w < Limit w) by (apply Z.mod_pos_bound; lia).
  unfold splitRun, buf_Write.
  destruct (Z.ltb_spec 0 (rest mod Limit w)).
  - rewrite Repeat_ok by lia. simpl. destruct w; simpl.
    rewrite <- !app_assoc. reflexivity.
  - simpl. destruct w; simpl. rewrite <- !app_assoc, app_nil_r. reflexivity.
Qed.

Lemma spacesIn_app : forall a b, spacesIn (a ++ b) = spacesIn a + spacesIn b.
Proof. intros. unfold spacesIn. now rewrite filter_app, len_app. Qed.

Lemma spacesIn_spaces : forall n, spacesIn (repeat x20 n) = Z.of_nat n.
Proof.
  induction n as [|n IH]; [reflexivity |].
  change (repeat x20 (S n)) with ([x20] ++ repeat x20 n).
  rewrite spacesIn_app, IH. change (spacesIn [x20]) with 1. lia.
Qed.

Lemma spacesIn_line : forall n, spacesIn (x0a :: repeat x20 n) = Z.of_nat n.
Proof.
  intros n. change (x0a :: repeat x20 n) with ([x0a] ++ repeat x20 n).
  rewrite spacesIn_app, spacesIn_spaces. reflexivity.
Qed.

(** The pieces of a split run hold as many spaces as their sizes say. *)
Lemma spacesIn_splitRun : forall limit first q r,
  0 <= limit -> 0 <= first -> 0 <= q -> 0 <= r ->
  spacesIn (splitRun limit first q r) = first + q * limit + r.
Proof.
  intros limit first q r Hl Hf Hq Hr. unfold splitRun.
  rewrite !spacesIn_app, spacesIn_spaces.
  assert (Hlines : forall k,
            spacesIn (concat (repeat (x0a :: repeat x20 (Z.to_nat limit)) k))
            = Z.of_nat k * limit).
  { induction k as [|k IH]; [reflexivity |].
    cbn [repeat concat]. rewrite spacesIn_app, IH, spacesIn_line. lia. }
  rewrite Hlines.
  destruct (Z.ltb_spec 0 r).
  - rewrite spacesIn_line. lia.
  - change (spacesIn []) with 0. lia.
Qed.

(** C7. When the pending run of spaces does not fit in what is left of the
    current line, [addSpace] fills the current line, writes one full line of
    spaces for each complete multiple of [Limit] that remains and a last
    partial line for the rest, and leaves [lineLen] at that rest; the other
    fields keep their values.  The pieces hold as many spaces as the run
    had bytes.  With [PreserveSpaces] set and no word pending, this is what
    [Close] does. *)
Theorem addSpace_splits_run : forall (RuneWidth : rune -> Z) w,
  0 < Limit w -> 0 <= lineLen w <= Limit w ->
  Limit w - lineLen w < len (space w) ->
  let first := Limit w - lineLen w in
  let rest := len (space w) - first in
  let pieces :=
    splitRun (Limit w) first (rest / Limit w) (rest mod Limit w) in
  addSpace w
  = Ok (set_space [] (set_lineLen (rest mod Limit w) (buf_Write pieces w)))
  /\ spacesIn pieces = len (space w)
  /\ (PreserveSpaces w = true -> word w = [] ->
      Close RuneWidth w = addSpace w).
Proof.
  intros rw w HL Hl Hs first rest pieces. split; [| split].
  - apply addSpace_overflow; assumption.
  - unfold pieces. rewrite spacesIn_splitRun.
    + pose proof (Z.div_mod rest (Limit w)). unfold rest, first in *. lia.
    + lia.
    + unfold first. lia.
    + apply Z.div_pos; unfold rest, first; lia.
    + apply Z.mod_pos_bound. lia.
  - intros Hp Hw. unfold Close. rewrite Hp.
    rewrite addSpace_overflow by assumption.
    cbv beta iota delta [bind]. unfold addWord.
    replace (word (set_space [] (set_lineLen _ (buf_Write _ w))))
      with (word w) by (destruct w; reflexivity).
    rewrite Hw. reflexivity.
Qed.

(** The state of the example is the one [Write] reaches on ["abc"] and
    twelve spaces. *)
Lemma twelveSpaces_reached :
  Write narrowWidth
    (mkWordWrap 5 defaultBreakpoints defaultNewline true false [] true
       [] [] [] 0 false false [] false false)
    (bs "abc            ")
  = Ok twelveSpaces.
Proof. vm_compute. reflexivity. Qed.

Lemma addSpace_splits_run_witness :
  addSpace twelveSpaces
  = Ok (set_space [] (set_lineLen 0
         (set_buf (bs "abc" ++ bs "  " ++ x0a :: bs "     "
                   ++ x0a :: bs "     ") twelveSpaces)))
  /\ spacesIn (bs "  " ++ x0a :: bs "     " ++ x0a :: bs "     ") = 12
  /\ Close narrowWidth twelveSpaces = addSpace twelveSpaces.
Proof.
  destruct (addSpace_splits_run narrowWidth twelveSpaces)
    as (Hsplit & Hcount & Hclose).
  - reflexivity.
  - split; discriminate.
  - reflexivity.
  - split; [exact Hsplit | split; [exact Hcount | ]].
    apply Hclose; reflexivity.
Defined.

(** ** The escape-sequence normalizer *)

Section Normalizer.

Variable RuneWidth : rune -> Z.

(** With wrapping enabled, [Bytes] runs the loop of [Write] over the runes
    of its input, then [Close]. *)
Lemma Bytes_wrapping : forall b limit,
  limit <> 0 ->
  Bytes RuneWidth b limit
  = (w <- writeRunes RuneWidth (NewWriter limit) (utf8.range b) ;;
     w <- Close RuneWidth w ;; Ok (buf w)).
Proof.
  intros b limit H. unfold Bytes, Write.
  replace (Limit (NewWriter limit) =? 0) with false
    by (symmetry; apply Z.eqb_neq; exact H).
  reflexivity.
Qed.

(** [Close] when the pending spaces fit on the current line: they are
    written if a word follows them or [PreserveSpaces] is set, then the
    word is written. *)
Lemma Close_fits : forall w,
  len (space w) <= Limit w - lineLen w ->
  exists w',
    Close RuneWidth w = Ok w' /\
    buf w' = buf w
             ++ (if PreserveSpaces w || (0 <? len (word w))
                 then space w else [])
             ++ word w.
Proof.
  intros w H. destruct w; simpl in *.
  unfold Close, addWord, addSpace; simpl.
  destruct PreserveSpaces0; simpl.
  - destruct (Z.leb_spec (len space0) (Limit0 - lineLen0)); [| lia]. simpl.
    destruct (Z.ltb_spec 0 (len word0)); simpl.
    + assert (0 <= len space0) by (unfold len; lia).
      destruct (Z.leb_spec (len []) (Limit0 - (lineLen0 + len space0)));
        [| unfold len in *; simpl in *; lia].
      simpl. eexists; split; [reflexivity |]. simpl.
      now rewrite app_nil_r, app_assoc.
    + eexists; split; [reflexivity |]. simpl.
      assert (word0 = []) by (destruct word0; [reflexivity | unfold len in *; simpl in *; lia]).
      subst. now rewrite !app_nil_r.
  - destruct (Z.ltb_spec 0 (len word0)); simpl.
    + destruct (Z.leb_spec (len space0) (Limit0 - lineLen0)); [| lia]. simpl.
      eexists; split; [reflexivity |]. simpl. now rewrite app_assoc.
    + eexists; split; [reflexivity |]. simpl.
      assert (word0 = []) by (destruct word0; [reflexivity | unfold len in *; simpl in *; lia]).
      subst. now rewrite app_nil_r.
Qed.

(** One rune inside a sequence: a digit from 1 to 9 is copied to the word
    and to the active style and clears both parser flags. *)
Lemma ansiRune_nonzero_digit : forall w d,
  0x31 <= d <= 0x39 ->
  ansiRune w d
  = word_WriteRune d
      (lastAnsi_WriteRune d (set_leadingZero false (set_newArgument false w))).
Proof.
  intros w d Hd.
  assert (Hc : d = 0x31 \/ d = 0x32 \/ d = 0x33 \/ d = 0x34 \/ d = 0x35 \/
               d = 0x36 \/ d = 0x37 \/ d = 0x38 \/ d = 0x39) by lia.
  destruct w.
  repeat (destruct Hc as [Hc | Hc]; [subst d; reflexivity |]).
  subst d; reflexivity.
Qed.

(** A zero at the start of an argument is withheld. *)
Lemma ansiRune_leading_zero : forall w,
  newArgument w = true -> ansiRune w 0x30 = set_leadingZero true w.
Proof.
  intros w H. unfold ansiRune. rewrite H. reflexivity.
Qed.

Lemma writeRune_ansi : forall w c,
  ansi w = true -> c <> ESC ->
  writeRune RuneWidth w c = Ok (ansiRune (set_wroteBegin true w) c).
Proof.
  intros w c Ha Hc. unfold writeRune, restartAnsi. rewrite Ha.
  rewrite andb_false_r. simpl.
  replace (c =? ESC) with false by (symmetry; apply Z.eqb_neq; exact Hc).
  simpl. rewrite Ha. reflexivity.
Qed.

(** Zeros at the start of an argument leave the buffers as they are. *)
Lemma leading_zeros_withheld : forall k w,
  ansi w = true -> newArgument w = true ->
  writeRunes RuneWidth w (0x30 :: repeat 0x30 k)
  = Ok (set_leadingZero true (set_wroteBegin true w)).
Proof.
  induction k as [|k IH]; intros w Ha Hn.
  - simpl. rewrite writeRune_ansi by (assumption || discriminate). simpl.
    rewrite ansiRune_leading_zero by (destruct w; assumption). reflexivity.
  - change (writeRunes RuneWidth w (48 :: repeat 48 (S k)))
      with (w' <- writeRune RuneWidth w 48 ;;
            writeRunes RuneWidth w' (48 :: repeat 48 k)).
    rewrite writeRune_ansi by (assumption || discriminate).
    cbv beta iota delta [bind].
    rewrite ansiRune_leading_zero by (destruct w; assumption).
    rewrite IH by (destruct w; assumption).
    destruct w; reflexivity.
Qed.

Lemma writeRunes_app : forall s1 s2 w,
  writeRunes RuneWidth w (s1 ++ s2)
  = (w' <- writeRunes RuneWidth w s1 ;; writeRunes RuneWidth w' s2).
Proof.
  induction s1 as [|c s1 IH]; intros s2 w; simpl; [reflexivity |].
  destruct (writeRune RuneWidth w c); simpl; [apply IH | reflexivity].
Qed.

Lemma zero_padding_stripped : forall k w d,
  ansi w = true -> newArgument w = true -> 0x31 <= d <= 0x39 ->
  writeRunes RuneWidth w (repeat 0x30 k ++ [d])
  = Ok (word_WriteRune d
         (lastAnsi_WriteRune d
           (set_leadingZero false
             (set_newArgument false (set_wroteBegin true w))))).
Proof.
  intros k w d Ha Hn Hd. rewrite writeRunes_app.
  destruct k as [|k].
  - simpl. rewrite writeRune_ansi by (assumption || (unfold ESC; lia)).
    simpl. rewrite ansiRune_nonzero_digit by assumption. reflexivity.
  - change (repeat 48 (S k)) with (48 :: repeat 48 k).
    rewrite leading_zeros_withheld by assumption. simpl.
    rewrite writeRune_ansi;
      [| destruct w; assumption | unfold ESC; lia].
    simpl. rewrite ansiRune_nonzero_digit by assumption.
    destruct w; reflexivity.
Qed.

End Normalizer.

(** C6. [ESC[0031m] is written as [ESC[31m]: at the start of a numeric
    argument, zeros followed by a digit from 1 to 9 are dropped, from the
    word and from the active style alike, and a digit from 1 to 9 clears
    the pending-zero flag. *)
Theorem leading_zeros_normalized :
  forall RuneWidth : rune -> Z,
    (forall limit, 0 < limit ->
       String RuneWidth (esc "[0031m") limit = Ok (esc "[31m")) /\
    (forall k w d,
       ansi w = true -> newArgument w = true -> 0x31 <= d <= 0x39 ->
       writeRunes RuneWidth w (repeat 0x30 k ++ [d])
       = Ok (word_WriteRune d
              (lastAnsi_WriteRune d
                (set_leadingZero false
                  (set_newArgument false (set_wroteBegin true w)))))) /\
    (forall w d, 0x31 <= d <= 0x39 -> leadingZero (ansiRune w d) = false).
Proof.
  intros rw. split; [| split].
  - intros limit Hl. unfold String. rewrite Bytes_wrapping by lia.
    replace (writeRunes rw (NewWriter limit) (utf8.range (esc "[0031m")))
      with (Ok (set_word (esc "[31m") (set_lastAnsi (esc "[31m")
                 (set_wroteBegin true (NewWriter limit)))))
      by (vm_compute; reflexivity).
    simpl bind.
    destruct (Close_fits rw (set_word (esc "[31m") (set_lastAnsi (esc "[31m")
                 (set_wroteBegin true (NewWriter limit))))) as (w' & Hc & Hb).
    + simpl. unfold len; simpl. lia.
    + rewrite Hc. simpl. rewrite Hb. reflexivity.
  - apply zero_padding_stripped.
  - intros w d Hd. rewrite ansiRune_nonzero_digit by assumption.
    destruct w; reflexivity.
Qed.

Lemma leading_zeros_normalized_witness :
  String narrowWidth (esc "[0031m") 80 = Ok (esc "[31m") /\
  writeRunes narrowWidth
    (set_newArgument true (set_ansi true (NewWriter 80)))
    (repeat 0x30 4 ++ [0x37])
  = Ok (set_wroteBegin true (set_word (bs "7") (set_lastAnsi (bs "7")
         (set_ansi true (NewWriter 80))))) /\
  leadingZero (ansiRune (set_leadingZero true (NewWriter 80)) 0x35) = false.
Proof.
  destruct (leading_zeros_normalized narrowWidth) as (H1 & H2 & H3).
  split; [| split].
  - apply H1. lia.
  - rewrite H2; [reflexivity | reflexivity | reflexivity | lia].
  - apply H3. lia.
Defined.

Lemma restartAnsi_skip : forall (RuneWidth : rune -> Z) w,
  wroteBegin w = true \/ ansi w = true \/ lastAnsi w = [] ->
  restartAnsi RuneWidth w = Ok w.
Proof.
  intros rw w H. unfold restartAnsi.
  destruct H as [H | [H | H]]; rewrite H; simpl;
    rewrite ?andb_false_r; reflexivity.
Qed.

Lemma writeRune_ESC : forall (RuneWidth : rune -> Z) w,
  wroteBegin w = true \/ ansi w = true \/ lastAnsi w = [] ->
  writeRune RuneWidth w ESC
  = Ok (set_newArgument true (set_ansi true
         (lastAnsi_WriteRune ESC (word_WriteRune ESC
            (set_wroteBegin true w))))).
Proof.
  intros rw w H. unfold writeRune. rewrite restartAnsi_skip by assumption.
  reflexivity.
Qed.

Lemma splitting_at_a_bare_zero :
  forall (RuneWidth : rune -> Z) (w : WordWrap),
    ansi w = false -> leadingZero w = false ->
    wroteBegin w = true \/ lastAnsi w = [] ->
    writeRunes RuneWidth w (utf8.range resetInTheMiddle)
    = Ok (set_word (word w ++ splitInTwo)
           (set_lastAnsi (esc "[32m")
             (set_newArgument false (set_wroteBegin true w)))).
Proof.
  intros rw w Ha Hz Hr.
  change (utf8.range resetInTheMiddle)
    with (ESC :: [0x5B; 0x33; 0x31; 0x3B; 0x30; 0x3B; 0x33; 0x32; 0x6D]).
  cbn [writeRunes]. rewrite writeRune_ESC by tauto.
  cbv beta iota delta [bind].
  destruct w; simpl in *; subst.
  cbv -[app]. rewrite <- !app_assoc. reflexivity.
Qed.

(** C5. The sequence [ESC[31;0;32m] is written as the two sequences
    [ESC[31;0m] and [ESC[32m], one after the other and without the second
    semicolon: so for the sequence alone as input, and so wherever it
    starts outside a sequence, where the two sequences are appended to the
    pending word; the active style is [ESC[32m] afterwards. *)
Theorem bare_zero_splits_sequence :
  forall RuneWidth : rune -> Z,
    (forall limit, 0 < limit ->
       String RuneWidth resetInTheMiddle limit = Ok splitInTwo) /\
    (forall w,
       ansi w = false -> leadingZero w = false ->
       wroteBegin w = true \/ lastAnsi w = [] ->
       exists w',
         writeRunes RuneWidth w (utf8.range resetInTheMiddle) = Ok w' /\
         word w' = word w ++ splitInTwo /\
         lastAnsi w' = esc "[32m" /\
         buf w' = buf w /\ space w' = space w /\ lineLen w' = lineLen w /\
         ansi w' = false /\ leadingZero w' = false).
Proof.
  intros rw. split.
  - intros limit Hl. unfold String. rewrite Bytes_wrapping by lia.
    rewrite splitting_at_a_bare_zero by (auto using fresh_NewWriter).
    simpl bind.
    match goal with |- context [Close rw ?w] =>
      destruct (Close_fits rw w) as (w' & Hc & Hb) end.
    + simpl. unfold len; simpl. lia.
    + rewrite Hc. simpl. rewrite Hb. reflexivity.
  - intros w Ha Hz Hr. eexists. split.
    + apply splitting_at_a_bare_zero; assumption.
    + destruct w; simpl in *. repeat split; assumption.
Qed.

Lemma bare_zero_splits_sequence_witness :
  String narrowWidth resetInTheMiddle 80 = Ok splitInTwo /\
  exists w',
    writeRunes narrowWidth
      (set_word (bs "ab") (set_lastAnsi (esc "[1m") (set_wroteBegin true
         (set_lineLen 3 (set_buf (esc "[1mxy ") (NewWriter 80))))))
      (utf8.range resetInTheMiddle) = Ok w' /\
    word w' = bs "ab" ++ splitInTwo /\ lastAnsi w' = esc "[32m".
Proof.
  destruct (bare_zero_splits_sequence narrowWidth) as (H1 & H2).
  split.
  - apply H1. lia.
  - destruct (H2 (set_word (bs "ab") (set_lastAnsi (esc "[1m")
                   (set_wroteBegin true (set_lineLen 3
                      (set_buf (esc "[1mxy ") (NewWriter 80)))))))
      as (w' & Hw & Hword & Hlast & _);
      [reflexivity | reflexivity | left; reflexivity |].
    exists w'. repeat split; assumption.
Defined.

(** ** Input that is not valid UTF-8 *)

Lemma byte_of_byte_val : forall b, byte_of (byte_val b) = b.
Proof. intros b; destruct b; reflexivity. Qed.

Lemma byte_val_range : forall b, 0 <= byte_val b < 256.
Proof. intros b; destruct b; vm_compute; split; congruence. Qed.

Lemma DecodeRune_neverValid : forall b t,
  neverValid b = true -> utf8.DecodeRune (b :: t) = (utf8.RuneError, 1%nat).
Proof.
  intros b t H. unfold neverValid in H. apply Z.eqb_eq in H.
  unfold utf8.DecodeRune. cbv zeta. rewrite H. reflexivity.
Qed.

Lemma DecodeRune_ascii : forall b t,
  byte_val b < utf8.RuneSelf ->
  utf8.DecodeRune (b :: t) = (byte_val b, 1%nat).
Proof.
  intros b t H. unfold utf8.DecodeRune, utf8.first. cbv zeta.
  unfold utf8.RuneSelf in H.
  destruct (Z.ltb_spec (byte_val b) 128); [reflexivity | lia].
Qed.

Lemma EncodeRune_ascii : forall b,
  byte_val b < utf8.RuneSelf -> utf8.EncodeRune (byte_val b) = [b].
Proof.
  intros b H. unfold utf8.EncodeRune.
  pose proof (byte_val_range b).
  destruct (Z.leb_spec 0 (byte_val b)); [| lia].
  destruct (Z.ltb_spec (byte_val b) utf8.RuneSelf); [| lia].
  simpl. now rewrite byte_of_byte_val.
Qed.

Section InvalidInput.

Variable RuneWidth : rune -> Z.

(** A rune of word text joins the pending word; at the start of a line no
    break is put before it. *)
Lemma writeRune_onlyWord : forall limit begun pending c,
  c <> ESC -> inGroup defaultNewline c = false ->
  unicode.IsSpace c = false -> inGroup defaultBreakpoints c = false ->
  writeRune RuneWidth (onlyWord limit begun pending) c
  = Ok (onlyWord limit true (pending ++ utf8.EncodeRune c)).
Proof.
  intros limit begun pending c He Hn Hs Hb.
  unfold writeRune. rewrite restartAnsi_skip by (right; right; reflexivity).
  cbv beta iota delta [bind].
  replace (c =? ESC) with false by (symmetry; apply Z.eqb_neq; exact He).
  simpl. simpl in Hn, Hb. rewrite Hn, Hs, Hb.
  set (W := PrintableRuneWidth RuneWidth (pending ++ utf8.EncodeRune c)).
  destruct (Z.ltb_spec limit W); destruct (Z.ltb_spec W limit);
    simpl; try reflexivity; lia.
Qed.

(** A run of word text ends up in the pending word, each rune in its own
    encoding. *)
Lemma writeRunes_onlyWord : forall rs limit begun pending,
  forallb wordRune rs = true ->
  writeRunes RuneWidth (onlyWord limit begun pending) rs
  = Ok (onlyWord limit (begun || negb (length rs =? 0)%nat)
          (pending ++ encodeAll rs)).
Proof.
  induction rs as [|c rs IH]; intros limit begun pending H.
  - simpl. rewrite app_nil_r, orb_false_r. reflexivity.
  - simpl in H. apply andb_prop in H. destruct H as [Hc Hrs].
    replace (begun || negb (length (c :: rs) =? 0)%nat) with true
      by (simpl; now rewrite orb_true_r).
    unfold wordRune in Hc.
    repeat (apply andb_prop in Hc; destruct Hc as [Hc ?]).
    cbn [writeRunes].
    rewrite writeRune_onlyWord; try (apply negb_true_iff; assumption).
    2:{ apply Z.eqb_neq. apply negb_true_iff. assumption. }
    cbv beta iota delta [bind]. rewrite IH by assumption.
    unfold encodeAll. cbn [flat_map]. rewrite <- app_assoc. reflexivity.
Qed.

(** The whole call on word text: what was decoded is encoded again. *)
Lemma Bytes_onlyWord : forall s limit,
  0 < limit -> forallb wordRune (utf8.range s) = true ->
  Bytes RuneWidth s limit = Ok (encodeAll (utf8.range s)).
Proof.
  intros s limit Hl Hs. rewrite Bytes_wrapping by lia.
  change (NewWriter limit) with (onlyWord limit false []).
  rewrite writeRunes_onlyWord by assumption.
  cbv beta iota delta [bind].
  match goal with |- context [Close RuneWidth ?w] =>
    destruct (Close_fits RuneWidth w) as (w' & Hc & Hb) end.
  - simpl. unfold len; simpl. lia.
  - rewrite Hc. simpl. rewrite Hb. simpl.
    destruct (0 <? len (encodeAll (utf8.range s))); reflexivity.
Qed.

End InvalidInput.

(** Bytes that are never valid and ASCII word text decode to word text, and
    encoding the runes again replaces each invalid byte. *)
Lemma range_replaceInvalid : forall s,
  forallb (fun b => neverValid b || wordByte b) s = true ->
  forallb wordRune (utf8.range s) = true /\
  encodeAll (utf8.range s) = replaceInvalid s.
Proof.
  induction s as [|b s IH]; intros H; [split; reflexivity |].
  simpl in H. apply andb_prop in H. destruct H as [Hb Hs].
  destruct (IH Hs) as [IH1 IH2].
  unfold utf8.range in *. cbn [utf8.range_from].
  unfold replaceInvalid. cbn [flat_map]. fold (replaceInvalid s).
  destruct (neverValid b) eqn:Hnv.
  - rewrite DecodeRune_neverValid by assumption. cbn [pred].
    unfold encodeAll. cbn [forallb flat_map].
    fold (encodeAll (utf8.range_from 0 s)).
    rewrite IH1, IH2. split; reflexivity.
  - simpl in Hb. unfold wordByte in Hb.
    repeat (apply andb_prop in Hb; destruct Hb as [Hb ?]).
    apply Z.ltb_lt in Hb.
    rewrite DecodeRune_ascii by assumption. cbn [pred].
    unfold encodeAll. cbn [forallb flat_map].
    fold (encodeAll (utf8.range_from 0 s)).
    rewrite IH1, IH2, EncodeRune_ascii by assumption.
    unfold wordRune. repeat (rewrite andb_true_iff).
    repeat split; assumption.
Qed.

(** Replacing makes the input longer as soon as one byte is replaced. *)
Lemma replaceInvalid_longer : forall s,
  existsb neverValid s = true ->
  (length s < length (replaceInvalid s))%nat.
Proof.
  assert (Hle : forall l, (length l <= length (replaceInvalid l))%nat).
  { induction l as [|x l IHl]; [simpl; lia |].
    unfold replaceInvalid. cbn [flat_map]. fold (replaceInvalid l).
    rewrite length_app. destruct (neverValid x); simpl; lia. }
  induction s as [|b s IH]; intros He; [discriminate |].
  simpl in He. unfold replaceInvalid. cbn [flat_map].
  fold (replaceInvalid s). rewrite length_app.
  destruct (neverValid b) eqn:Hb.
  - specialize (Hle s). simpl. lia.
  - simpl in He. specialize (IH He). simpl. lia.
Qed.

(** C10. With wrapping enabled, bytes that are not valid UTF-8 are not kept.
    The loop of [Write] sees the input as runes only, so word text comes out
    as the encoding of its runes: where [utf8.DecodeRune] reads a byte as
    [utf8.RuneError], the three bytes [EF BF BD] take its place.  For input
    made of ASCII word text and of bytes that cannot begin an encoding, which
    always decode so, the result is the input with each such byte replaced,
    and it differs from the input as soon as there is one.  With [Limit = 0]
    any input is copied unchanged, so only then is arbitrary input passed
    through byte for byte. *)
Theorem invalid_utf8_replaced :
  forall (RuneWidth : rune -> Z) (s : bytes),
    (forall limit, 0 < limit ->
       forallb wordRune (utf8.range s) = true ->
       Bytes RuneWidth s limit = Ok (encodeAll (utf8.range s))) /\
    (forall limit, 0 < limit ->
       forallb (fun b => neverValid b || wordByte b) s = true ->
       Bytes RuneWidth s limit = Ok (replaceInvalid s)) /\
    Bytes RuneWidth s 0 = Ok s /\
    (forall b t, neverValid b = true ->
       utf8.DecodeRune (b :: t) = (utf8.RuneError, 1%nat)) /\
    utf8.EncodeRune utf8.RuneError = [xef; xbf; xbd] /\
    (existsb neverValid s = true -> replaceInvalid s <> s).
Proof.
  intros rw s. split; [| split; [| split; [| split; [| split]]]].
  - intros limit Hl Hs. apply Bytes_onlyWord; assumption.
  - intros limit Hl Hs. destruct (range_replaceInvalid s Hs) as [Hw He].
    rewrite <- He. apply Bytes_onlyWord; assumption.
  - unfold Bytes. rewrite Write_limit_zero by reflexivity.
    cbv beta iota delta [bind].
    rewrite Close_nothing_pending by reflexivity. reflexivity.
  - intros b t Hb. apply DecodeRune_neverValid; assumption.
  - reflexivity.
  - intros He Heq. pose proof (replaceInvalid_longer s He) as Hlen.
    rewrite Heq in Hlen. lia.
Qed.

Lemma invalid_utf8_replaced_witness :
  Bytes narrowWidth (bs "ab" ++ [xff; xc3] ++ bs "c" ++ [xc3; xa9]) 9
  = Ok (bs "ab" ++ [xef; xbf; xbd; xef; xbf; xbd] ++ bs "c" ++ [xc3; xa9]) /\
  Bytes narrowWidth (bs "ab" ++ [xff; x80] ++ bs "c") 4
  = Ok (bs "ab" ++ [xef; xbf; xbd; xef; xbf; xbd] ++ bs "c") /\
  Bytes narrowWidth (bs "ab" ++ [xff; x80] ++ bs "c") 0
  = Ok (bs "ab" ++ [xff; x80] ++ bs "c").
Proof.
  split; [| split].
  - apply (invalid_utf8_replaced narrowWidth
             (bs "ab" ++ [xff; xc3] ++ bs "c" ++ [xc3; xa9])); [lia |].
    reflexivity.
  - apply (invalid_utf8_replaced narrowWidth
             (bs "ab" ++ [xff; x80] ++ bs "c")); [lia | reflexivity].
  - apply (invalid_utf8_replaced narrowWidth
             (bs "ab" ++ [xff; x80] ++ bs "c")).
Defined.

(** ** Where the code departs from its specification *)

(** [addSpace] panics whenever the line is already longer than [Limit]. *)
Lemma addSpace_panics : forall w,
  Limit w < lineLen w -> addSpace w = Fail NegativeRepeat.
Proof.
  intros w H. unfold addSpace.
  assert (0 <= len (space w)) by (unfold len; lia).
  destruct (Z.leb_spec (len (space w)) (Limit w - lineLen w)); [lia |].
  rewrite Repeat_negative by lia. reflexivity.
Qed.

(** C2. Processing is not total.  A word longer than the limit leaves
    [lineLen] above [Limit]; the next flush of the pending spaces, here at
    the second hyphen, asks [strings.Repeat] for a negative number of spaces
    and panics.  The same happens in [Close] when the word after the long
    one is as wide as the limit. *)
Theorem write_panics_after_long_word :
  Write narrowWidth (NewWriter 3) (bs "abcd--") = Fail NegativeRepeat /\
  match Write narrowWidth (NewWriter 1) (bs "ab c") with
  | Ok w => Close narrowWidth w = Fail NegativeRepeat
  | Fail _ => False
  end.
Proof.
  split; vm_compute; reflexivity.
Qed.

(** Two slips in the bookkeeping of [lineLen]: writing a breakpoint
    character does not count it, and a run of spaces that ends on a full
    line leaves [lineLen] at 0. *)
Lemma lineLen_slips :
  match Write narrowWidth (NewWriter 10) (bs "a-") with
  | Ok w => currentLine (buf w) = [0x61; 0x2D] /\
            lineWidth narrowWidth (currentLine (buf w)) = 2 /\
            lineLen w = 1
  | Fail _ => False
  end /\
  match addSpace twelveSpaces with
  | Ok w => currentLine (buf w) = repeat 0x20 5 /\
            lineWidth narrowWidth (currentLine (buf w)) = 5 /\
            lineLen w = 0
  | Fail _ => False
  end.
Proof.
  split; vm_compute; repeat split.
Qed.

(** C3. [lineLen] is not the width of the current line once a breakpoint
    character was written.  The breakpoint branch of [Write] writes the
    character to the output and leaves [lineLen] as it is, while [addWord]
    adds the width of every word it writes: after ["a-"] the line holds two
    columns and [lineLen] is 1, also after [Close]; after ["ab "], where
    the second column is a letter, [lineLen] is 2. *)
Theorem lineLen_misses_breakpoint :
  match Write narrowWidth (NewWriter 10) (bs "a-") with
  | Ok w =>
    buf w = bs "a-" /\
    currentLine (buf w) = [0x61; 0x2D] /\
    lineWidth narrowWidth (currentLine (buf w)) = 2 /\
    lineLen w = 1 /\
    ~ countsLine narrowWidth w /\
    match Close narrowWidth w with
    | Ok w' =>
      buf w' = bs "a-" /\ lineLen w' = 1 /\ ~ countsLine narrowWidth w'
    | Fail _ => False
    end
  | Fail _ => False
  end /\
  match Write narrowWidth (NewWriter 10) (bs "ab ") with
  | Ok w => buf w = bs "ab" /\ lineLen w = 2 /\ countsLine narrowWidth w
  | Fail _ => False
  end.
Proof.
  split.
  - vm_compute.
    split; [reflexivity | split; [reflexivity | split; [reflexivity |
    split; [reflexivity | split; [discriminate |
    split; [reflexivity | split; [reflexivity | discriminate]]]]]]].
  - vm_compute.
    split; [reflexivity | split; reflexivity].
Qed.

(** C1. A line with breakpoint characters grows beyond the limit.  As the
    hyphens are not counted in [lineLen], the loop of [Write] takes the
    line [aa-bb-] to hold four columns and moves [cc] to the next line
    only after the sixth column is written: with limit 5 the first line of
    the result is 6 columns wide.  That line is no single word, and no
    word of the input is as wide as the limit. *)
Theorem breakpoints_overflow_line :
  String narrowWidth (bs "aa-bb-cc-dd") 5
  = Ok (bs "aa-bb-" ++ x0a :: bs "cc-dd") /\
  textLines (bs "aa-bb-" ++ x0a :: bs "cc-dd")
  = [[0x61; 0x61; 0x2D; 0x62; 0x62; 0x2D]; [0x63; 0x63; 0x2D; 0x64; 0x64]] /\
  lineWidth narrowWidth [0x61; 0x61; 0x2D; 0x62; 0x62; 0x2D] = 6 /\
  atomicWord defaultBreakpoints [0x61; 0x61; 0x2D; 0x62; 0x62; 0x2D] = false /\
  forallb (withinLimit narrowWidth defaultBreakpoints 5)
          (textLines (bs "aa-bb-" ++ x0a :: bs "cc-dd")) = false /\
  match Write narrowWidth (NewWriter 5) (bs "aa-bb-") with
  | Ok w => buf w = bs "aa-bb-" /\ lineLen w = 4
  | Fail _ => False
  end.
Proof.
  split; [vm_compute; reflexivity |].
  split; [vm_compute; reflexivity |].
  split; [vm_compute; reflexivity |].
  split; [vm_compute; reflexivity |].
  split; [vm_compute; reflexivity |].
  vm_compute. split; reflexivity.
Qed.

(** The restart at the top of the loop: at the start of a line, outside a
    sequence and with an active style, the style is written again and the
    pending word after it. *)
Lemma restartAnsi_replays : forall (RuneWidth : rune -> Z) w,
  wroteBegin w = false -> ansi w = false -> lastAnsi w <> [] ->
  lineLen w = 0 -> space w = [] -> 0 <= Limit w ->
  exists w',
    restartAnsi RuneWidth w = Ok w' /\
    buf w' = buf w ++ lastAnsi w ++ word w /\ word w' = [].
Proof.
  intros rw w Hb Ha Hl Hn Hs HL. unfold restartAnsi.
  rewrite Hb, Ha.
  destruct (Z.eqb_spec (len (lastAnsi w)) 0) as [E | E].
  { exfalso. apply Hl. apply len_zero_inv. lia. }
  cbn [negb andb]. unfold addWord.
  replace (word (buf_Write (lastAnsi w) w)) with (word w)
    by (destruct w; reflexivity).
  destruct (Z.ltb_spec 0 (len (word w))) as [Hw | Hw].
  - rewrite addSpace_fits
      by (destruct w; simpl in *; subst; change (len []) with 0; lia).
    cbv beta iota delta [bind]. eexists. split; [reflexivity |].
    destruct w; simpl in *; subst. rewrite app_nil_r, app_assoc. auto.
  - eexists. split; [reflexivity |].
    assert (Hnil : word w = []) by (apply len_zero_inv; lia).
    destruct w; simpl in *; subst. rewrite app_nil_r. auto.
Qed.

(** C4. The style is not restarted when the line break is forced by the
    last rune of the input: the word moved to the new line is written by
    [Close], which does not replay the active style, after the reset that
    ended the previous line.  With one more rune the style is replayed. *)
Theorem style_lost_at_end_of_input :
  String narrowWidth (esc "[31mab c") 3
  = Ok (esc "[31mab" ++ esc "[0m" ++ x0a :: bs "c") /\
  String narrowWidth (esc "[31mab cd") 3
  = Ok (esc "[31mab" ++ esc "[0m" ++ x0a :: esc "[31mcd").
Proof.
  split; vm_compute; reflexivity.
Qed.

(** C9. Wrapping is not idempotent on text without escape sequences: the
    first pass splits the four spaces over two lines and keeps [-b] on the
    second, the second pass breaks between the hyphen and [b]. *)
Theorem rewrapping_changes_layout :
  String narrowWidth (bs "    -b") 2 = Ok (bs "  " ++ x0a :: bs "  -b") /\
  String narrowWidth (bs "  " ++ x0a :: bs "  -b") 2
  = Ok (bs "  " ++ x0a :: bs "  -" ++ x0a :: bs "b") /\
  bs "  " ++ x0a :: bs "  -" ++ x0a :: bs "b" <> bs "  " ++ x0a :: bs "  -b".
Proof.
  split; [vm_compute; reflexivity |
          split; [vm_compute; reflexivity | discriminate]].
Qed.

(** * Lines within the limit *)

(** ** Encoding and decoding runes *)

Lemma land_disjoint : forall x lo k,
  0 <= k -> x mod 2 ^ k = 0 -> 0 <= lo < 2 ^ k -> Z.land x lo = 0.
Proof.
  intros x lo k Hk Hx Hlo. apply Z.bits_inj'. intros n Hn.
  rewrite Z.land_spec, Z.bits_0.
  destruct (Z.lt_ge_cases n k) as [Hlt | Hge].
  - assert (Hx' : x = (x / 2 ^ k) * 2 ^ k).
    { pose proof (Z.div_mod x (2 ^ k)). rewrite Hx in H.
      rewrite Z.mul_comm. rewrite Z.add_0_r in H. apply H.
      apply Z.pow_nonzero; lia. }
    rewrite Hx'. rewrite Z.mul_pow2_bits_low by lia. reflexivity.
  - rewrite <- (Z.mod_small lo (2 ^ k)) by lia.
    rewrite Z.mod_pow2_bits_high by lia. apply andb_false_r.
Qed.

(** Joining bit fields that do not overlap is addition. *)
Lemma lor_disjoint : forall x lo k m,
  0 <= k -> m = 2 ^ k -> x mod m = 0 -> 0 <= lo < m -> Z.lor x lo = x + lo.
Proof.
  intros x lo k m Hk Hm Hx Hlo. subst m.
  pose proof (Z.add_lor_land x lo) as H.
  rewrite (land_disjoint x lo k) in H by assumption. lia.
Qed.

Lemma byte_val_byte_of : forall z, 0 <= z < 256 -> byte_val (byte_of z) = z.
Proof.
  intros z Hz. unfold byte_val, byte_of.
  rewrite Z.mod_small by lia.
  destruct (Byte.of_N (Z.to_N z)) eqn:E.
  - apply Byte.to_of_N in E. rewrite E. lia.
  - apply Byte.of_N_None_iff in E. lia.
Qed.

Ltac dlia := Z.div_mod_to_equations; lia.

(** The bit operations of the two functions, as arithmetic. *)
Ltac bits_to_arith :=
  repeat rewrite Z.shiftr_div_pow2 by lia;
  repeat rewrite Z.shiftl_mul_pow2 by lia;
  change 0x3F with (Z.ones 6); change 0x1F with (Z.ones 5);
  change 0x0F with (Z.ones 4); change 0x07 with (Z.ones 3);
  repeat rewrite Z.land_ones by lia;
  change (2 ^ 3) with 8; change (2 ^ 4) with 16; change (2 ^ 5) with 32;
  change (2 ^ 6) with 64; change (2 ^ 12) with 4096;
  change (2 ^ 18) with 262144.

Ltac lor_to_add k m :=
  match goal with
  | |- context [Z.lor ?x ?lo] =>
    rewrite (lor_disjoint x lo k m) by first [lia | reflexivity | dlia]
  end.

(** Settles the comparisons of the goal that follow from the context. *)
Ltac settle_cmp :=
  repeat match goal with
  | |- context [?a <? ?b] =>
    first [ replace (a <? b) with true by (symmetry; apply Z.ltb_lt; dlia)
          | replace (a <? b) with false by (symmetry; apply Z.ltb_ge; dlia) ]
  | |- context [?a <=? ?b] =>
    first [ replace (a <=? b) with true by (symmetry; apply Z.leb_le; dlia)
          | replace (a <=? b) with false by (symmetry; apply Z.leb_gt; dlia) ]
  | |- context [?a =? ?b] =>
    first [ replace (a =? b) with true by (symmetry; apply Z.eqb_eq; dlia)
          | replace (a =? b) with false by (symmetry; apply Z.eqb_neq; dlia) ]
  end.

Lemma EncodeRune_1 : forall r, 0 <= r < 0x80 ->
  utf8.EncodeRune r = [byte_of r].
Proof.
  intros r Hr. unfold utf8.EncodeRune, utf8.RuneSelf. settle_cmp. reflexivity.
Qed.

Lemma EncodeRune_2 : forall r, 0x80 <= r <= 0x7FF ->
  utf8.EncodeRune r = [byte_of (0xC0 + r / 64); byte_of (0x80 + r mod 64)].
Proof.
  intros r Hr. unfold utf8.EncodeRune, utf8.RuneSelf. settle_cmp.
  cbn [andb]. bits_to_arith.
  lor_to_add 6 64. lor_to_add 7 128. reflexivity.
Qed.

Lemma EncodeRune_3 : forall r,
  0x800 <= r <= 0xFFFF -> ~ (0xD800 <= r <= 0xDFFF) ->
  utf8.EncodeRune r
  = [byte_of (0xE0 + r / 4096); byte_of (0x80 + (r / 64) mod 64);
     byte_of (0x80 + r mod 64)].
Proof.
  intros r Hr Hs.
  unfold utf8.EncodeRune, utf8.RuneSelf, utf8.MaxRune, utf8.surrogateMin,
    utf8.surrogateMax.
  replace (r <? 128) with false by (symmetry; apply Z.ltb_ge; lia).
  replace (r <=? 2047) with false by (symmetry; apply Z.leb_gt; lia).
  replace (r <? 0) with false by (symmetry; apply Z.ltb_ge; lia).
  replace (1114111 <? r) with false by (symmetry; apply Z.ltb_ge; lia).
  replace (r <=? 65535) with true by (symmetry; apply Z.leb_le; lia).
  replace ((55296 <=? r) && (r <=? 57343)) with false.
  2:{ symmetry. apply andb_false_iff.
      destruct (Z.leb_spec 55296 r); [right; apply Z.leb_gt; lia | left; reflexivity]. }
  rewrite !andb_false_r. cbn [orb].
  bits_to_arith.
  lor_to_add 5 32. lor_to_add 7 128. lor_to_add 7 128. reflexivity.
Qed.

Lemma EncodeRune_4 : forall r, 0x10000 <= r <= 0x10FFFF ->
  utf8.EncodeRune r
  = [byte_of (0xF0 + r / 262144); byte_of (0x80 + (r / 4096) mod 64);
     byte_of (0x80 + (r / 64) mod 64); byte_of (0x80 + r mod 64)].
Proof.
  intros r Hr.
  unfold utf8.EncodeRune, utf8.RuneSelf, utf8.MaxRune, utf8.surrogateMin,
    utf8.surrogateMax.
  replace (r <? 128) with false by (symmetry; apply Z.ltb_ge; lia).
  replace (r <=? 2047) with false by (symmetry; apply Z.leb_gt; lia).
  replace (r <? 0) with false by (symmetry; apply Z.ltb_ge; lia).
  replace (1114111 <? r) with false by (symmetry; apply Z.ltb_ge; lia).
  replace (r <=? 65535) with false by (symmetry; apply Z.leb_gt; lia).
  replace (r <=? 57343) with false by (symmetry; apply Z.leb_gt; lia).
  rewrite !andb_false_r. cbn [orb].
  bits_to_arith.
  lor_to_add 4 16. lor_to_add 7 128. lor_to_add 7 128. lor_to_add 7 128.
  reflexivity.
Qed.

(** [DecodeRune] on each class of first byte. *)
Lemma DecodeRune_1 : forall b0 t, byte_val b0 < 0x80 ->
  utf8.DecodeRune (b0 :: t) = (byte_val b0, 1%nat).
Proof.
  intros b0 t H. unfold utf8.DecodeRune, utf8.first. cbv zeta.
  settle_cmp. reflexivity.
Qed.

Lemma DecodeRune_bad_second : forall b0 b1 t lo hi,
  0xC2 <= byte_val b0 <= 0xF4 ->
  utf8.acceptRanges (Z.shiftr (utf8.first (byte_val b0)) 4) = (lo, hi) ->
  byte_val b1 < lo \/ hi < byte_val b1 ->
  utf8.DecodeRune (b0 :: b1 :: t) = (utf8.RuneError, 1%nat).
Proof.
  intros b0 b1 t lo hi H0 Ha H1. unfold utf8.DecodeRune. cbv zeta.
  rewrite Ha. cbn [fst snd].
  replace (240 <=? utf8.first (byte_val b0)) with false.
  2:{ symmetry. apply Z.leb_gt. unfold utf8.first. 
      repeat match goal with
      | |- context [?a <? ?b] => destruct (Z.ltb_spec a b); try lia
      | |- context [?a =? ?b] => destruct (Z.eqb_spec a b); try lia
      end. }
  destruct H1 as [H1 | H1].
  - replace (byte_val b1 <? lo) with true by (symmetry; apply Z.ltb_lt; lia).
    reflexivity.
  - replace (hi <? byte_val b1) with true by (symmetry; apply Z.ltb_lt; lia).
    rewrite orb_true_r. reflexivity.
Qed.

Lemma first_leadClass : forall x sz lo hi,
  leadClass x sz lo hi ->
  (0xF0 <=? utf8.first x) = false /\
  Z.land (utf8.first x) 7 = sz /\
  utf8.acceptRanges (Z.shiftr (utf8.first x) 4) = (lo, hi).
Proof.
  intros x sz lo hi H.
  destruct H; try match goal with H : _ \/ _ |- _ => destruct H end;
    unfold utf8.first; settle_cmp; repeat split; reflexivity.
Qed.

Lemma leadClass_cases : forall x,
  0 <= x < 256 ->
  x < 0x80 \/ utf8.first x = 0xF1 \/ exists sz lo hi, leadClass x sz lo hi.
Proof.
  intros x Hx.
  destruct (Z.ltb_spec x 0x80); [left; assumption | right].
  destruct (Z.ltb_spec x 0xC2).
  { left. unfold utf8.first. settle_cmp. reflexivity. }
  destruct (Z.ltb_spec 0xF4 x).
  { left. unfold utf8.first. settle_cmp. reflexivity. }
  right.
  destruct (Z.ltb_spec x 0xE0); [do 3 eexists; apply lead2; lia |].
  destruct (Z.eqb_spec x 0xE0); [subst; do 3 eexists; apply leadE0 |].
  destruct (Z.eqb_spec x 0xED); [subst; do 3 eexists; apply leadED |].
  destruct (Z.ltb_spec x 0xF0); [do 3 eexists; apply lead3; lia |].
  destruct (Z.eqb_spec x 0xF0); [subst; do 3 eexists; apply leadF0 |].
  destruct (Z.eqb_spec x 0xF4); [subst; do 3 eexists; apply leadF4 |].
  do 3 eexists; apply lead4; lia.
Qed.

Lemma continuation_true : forall x,
  0x80 <= x <= 0xBF -> utf8.continuation x = true.
Proof. intros x H. unfold utf8.continuation. settle_cmp. reflexivity. Qed.

Lemma continuation_false : forall x,
  x < 0x80 \/ 0xBF < x -> utf8.continuation x = false.
Proof.
  intros x H. unfold utf8.continuation.
  destruct H; settle_cmp; rewrite ?andb_false_r; reflexivity.
Qed.

Lemma DecodeRune_2 : forall b0 b1 t,
  0xC2 <= byte_val b0 <= 0xDF -> 0x80 <= byte_val b1 <= 0xBF ->
  utf8.DecodeRune (b0 :: b1 :: t)
  = ((byte_val b0 - 0xC0) * 64 + (byte_val b1 - 0x80), 2%nat).
Proof.
  intros b0 b1 t H0 H1.
  destruct (first_leadClass _ _ _ _ (lead2 _ H0)) as (Hf & Hs & Ha).
  unfold utf8.DecodeRune. cbv zeta. rewrite Hf, Hs, Ha. cbn [fst snd].
  settle_cmp. cbn [orb]. bits_to_arith. lor_to_add 6 64.
  f_equal. dlia.
Qed.

Lemma DecodeRune_3 : forall b0 b1 b2 t lo hi,
  leadClass (byte_val b0) 3 lo hi ->
  lo <= byte_val b1 <= hi -> 0x80 <= byte_val b2 <= 0xBF ->
  utf8.DecodeRune (b0 :: b1 :: b2 :: t)
  = ((byte_val b0 - 0xE0) * 4096 + (byte_val b1 - 0x80) * 64
     + (byte_val b2 - 0x80), 3%nat).
Proof.
  intros b0 b1 b2 t lo hi Hc H1 H2.
  destruct (first_leadClass _ _ _ _ Hc) as (Hf & Hs & Ha).
  assert (0xE0 <= byte_val b0 <= 0xEF /\ 0x80 <= lo /\ hi <= 0xBF)
    by (inversion Hc; lia).
  unfold utf8.DecodeRune. cbv zeta. rewrite Hf, Hs, Ha. cbn [fst snd].
  rewrite continuation_true by lia.
  settle_cmp. cbn [orb negb]. bits_to_arith.
  lor_to_add 12 4096. lor_to_add 6 64.
  f_equal. dlia.
Qed.

Lemma DecodeRune_4 : forall b0 b1 b2 b3 t lo hi,
  leadClass (byte_val b0) 4 lo hi ->
  lo <= byte_val b1 <= hi -> 0x80 <= byte_val b2 <= 0xBF ->
  0x80 <= byte_val b3 <= 0xBF ->
  utf8.DecodeRune (b0 :: b1 :: b2 :: b3 :: t)
  = ((byte_val b0 - 0xF0) * 262144 + (byte_val b1 - 0x80) * 4096
     + (byte_val b2 - 0x80) * 64 + (byte_val b3 - 0x80), 4%nat).
Proof.
  intros b0 b1 b2 b3 t lo hi Hc H1 H2 H3.
  destruct (first_leadClass _ _ _ _ Hc) as (Hf & Hs & Ha).
  assert (0xF0 <= byte_val b0 <= 0xF4 /\ 0x80 <= lo /\ hi <= 0xBF)
    by (inversion Hc; lia).
  unfold utf8.DecodeRune. cbv zeta. rewrite Hf, Hs, Ha. cbn [fst snd].
  rewrite !continuation_true by lia.
  settle_cmp. cbn [orb negb]. bits_to_arith.
  lor_to_add 18 262144. lor_to_add 12 4096. lor_to_add 6 64.
  f_equal. dlia.
Qed.

Lemma validRune_RuneError : validRune utf8.RuneError.
Proof.
  unfold validRune, utf8.RuneError, utf8.MaxRune, utf8.surrogateMin,
    utf8.surrogateMax. lia.
Qed.

(** Whatever the input, [DecodeRune] yields a scalar value and consumes at
    least one byte and no more than there are. *)
Lemma DecodeRune_valid : forall s,
  validRune (fst (utf8.DecodeRune s)) /\
  (snd (utf8.DecodeRune s) <= length s)%nat /\
  (s <> [] -> (1 <= snd (utf8.DecodeRune s))%nat).
Proof.
  assert (Herr : forall n, (1 <= n)%nat ->
            validRune (fst (utf8.RuneError, 1%nat)) /\
            (snd (utf8.RuneError, 1%nat) <= n)%nat /\
            (1 <= snd (utf8.RuneError, 1%nat))%nat).
  { intros n Hn. cbn [fst snd]. split; [apply validRune_RuneError | lia]. }
  intros [|b0 t].
  { simpl. split; [apply validRune_RuneError | split; [lia | congruence]]. }
  enough (validRune (fst (utf8.DecodeRune (b0 :: t))) /\
          (snd (utf8.DecodeRune (b0 :: t)) <= length (b0 :: t))%nat /\
          (1 <= snd (utf8.DecodeRune (b0 :: t)))%nat) by tauto.
  pose proof (byte_val_range b0) as Hr0.
  destruct (leadClass_cases _ Hr0) as [H | [H | (sz & lo & hi & Hc)]].
  - rewrite DecodeRune_1 by assumption. cbn [fst snd length].
    unfold validRune, utf8.MaxRune, utf8.surrogateMin. lia.
  - rewrite DecodeRune_neverValid by (apply Z.eqb_eq; exact H).
    apply Herr. simpl; lia.
  - destruct (first_leadClass _ _ _ _ Hc) as (Hf & Hs & Ha).
    assert (Hb : 0xC2 <= byte_val b0 <= 0xF4 /\ 0x80 <= lo /\ hi <= 0xBF)
      by (inversion Hc; lia).
    destruct t as [|b1 t1].
    { unfold utf8.DecodeRune. cbv zeta. rewrite Hf. apply Herr. simpl; lia. }
    destruct (Z.ltb_spec (byte_val b1) lo) as [H1 | H1].
    { rewrite (DecodeRune_bad_second b0 b1 t1 lo hi) by (tauto || lia).
      apply Herr. simpl; lia. }
    destruct (Z.ltb_spec hi (byte_val b1)) as [H1' | H1'].
    { rewrite (DecodeRune_bad_second b0 b1 t1 lo hi) by (tauto || lia).
      apply Herr. simpl; lia. }
    assert (Hsz : sz = 2 \/ sz = 3 \/ sz = 4) by (inversion Hc; lia).
    destruct Hsz as [Hsz | [Hsz | Hsz]]; rewrite Hsz in Hc, Hs; clear Hsz.
    + rewrite DecodeRune_2 by (inversion Hc; lia).
      cbn [fst snd length].
      unfold validRune, utf8.MaxRune, utf8.surrogateMin, utf8.surrogateMax.
      inversion Hc; lia.
    + destruct t1 as [|b2 t2].
      { unfold utf8.DecodeRune. cbv zeta. rewrite Hf, Hs, Ha. cbn [fst snd].
        settle_cmp. cbn [orb]. apply Herr. simpl; lia. }
      pose proof (byte_val_range b2) as Hr2.
      destruct (Z.ltb_spec (byte_val b2) 0x80) as [H2 | H2];
        [| destruct (Z.ltb_spec 0xBF (byte_val b2)) as [H2' | H2']].
      * unfold utf8.DecodeRune. cbv zeta. rewrite Hf, Hs, Ha. cbn [fst snd].
        rewrite continuation_false by lia.
        settle_cmp. cbn [orb negb]. apply Herr. simpl; lia.
      * unfold utf8.DecodeRune. cbv zeta. rewrite Hf, Hs, Ha. cbn [fst snd].
        rewrite continuation_false by lia.
        settle_cmp. cbn [orb negb]. apply Herr. simpl; lia.
      * rewrite (DecodeRune_3 b0 b1 b2 t2 lo hi) by (assumption || lia).
        cbn [fst snd length].
        unfold validRune, utf8.MaxRune, utf8.surrogateMin, utf8.surrogateMax.
        inversion Hc; lia.
    + destruct t1 as [|b2 t2].
      { unfold utf8.DecodeRune. cbv zeta. rewrite Hf, Hs, Ha. cbn [fst snd].
        settle_cmp. cbn [orb]. apply Herr. simpl; lia. }
      pose proof (byte_val_range b2) as Hr2.
      destruct (Z.ltb_spec (byte_val b2) 0x80) as [H2 | H2];
        [| destruct (Z.ltb_spec 0xBF (byte_val b2)) as [H2' | H2']].
      * unfold utf8.DecodeRune. cbv zeta. rewrite Hf, Hs, Ha. cbn [fst snd].
        rewrite continuation_false by lia.
        settle_cmp. cbn [orb negb]. apply Herr. simpl; lia.
      * unfold utf8.DecodeRune. cbv zeta. rewrite Hf, Hs, Ha. cbn [fst snd].
        rewrite continuation_false by lia.
        settle_cmp. cbn [orb negb]. apply Herr. simpl; lia.
      * destruct t2 as [|b3 t3].
        { unfold utf8.DecodeRune. cbv zeta. rewrite Hf, Hs, Ha. cbn [fst snd].
          rewrite continuation_true by lia.
          settle_cmp. cbn [orb negb]. apply Herr. simpl; lia. }
        pose proof (byte_val_range b3) as Hr3.
        destruct (Z.ltb_spec (byte_val b3) 0x80) as [H3 | H3];
          [| destruct (Z.ltb_spec 0xBF (byte_val b3)) as [H3' | H3']].
        -- unfold utf8.DecodeRune. cbv zeta. rewrite Hf, Hs, Ha.
           cbn [fst snd].
           rewrite (continuation_true (byte_val b2)) by lia.
           rewrite (continuation_false (byte_val b3)) by lia.
           settle_cmp. cbn [orb negb]. apply Herr. simpl; lia.
        -- unfold utf8.DecodeRune. cbv zeta. rewrite Hf, Hs, Ha.
           cbn [fst snd].
           rewrite (continuation_true (byte_val b2)) by lia.
           rewrite (continuation_false (byte_val b3)) by lia.
           settle_cmp. cbn [orb negb]. apply Herr. simpl; lia.
        -- rewrite (DecodeRune_4 b0 b1 b2 b3 t3 lo hi) by (assumption || lia).
           cbn [fst snd length].
           unfold validRune, utf8.MaxRune, utf8.surrogateMin,
             utf8.surrogateMax.
           inversion Hc; lia.
Qed.

Lemma rune_pair : forall (a b : Z) (n : nat), a = b -> (a, n) = (b, n).
Proof. intros; subst; reflexivity. Qed.

(** Decoding what [EncodeRune] wrote gives the rune back, whatever
    follows. *)
Lemma DecodeRune_EncodeRune : forall r rest,
  validRune r ->
  utf8.DecodeRune (utf8.EncodeRune r ++ rest)
  = (r, length (utf8.EncodeRune r)).
Proof.
  intros r rest [Hr Hs].
  unfold utf8.MaxRune, utf8.surrogateMin, utf8.surrogateMax in *.
  destruct (Z.ltb_spec r 0x80) as [H1 | H1].
  { rewrite EncodeRune_1 by lia. cbn [app length].
    rewrite DecodeRune_1; rewrite byte_val_byte_of by lia; [reflexivity | lia]. }
  destruct (Z.leb_spec r 0x7FF) as [H2 | H2].
  { rewrite EncodeRune_2 by lia. cbn [app length].
    rewrite DecodeRune_2; rewrite !byte_val_byte_of by dlia; try dlia.
    apply rune_pair; dlia. }
  destruct (Z.leb_spec r 0xFFFF) as [H3 | H3].
  { rewrite EncodeRune_3 by lia. cbn [app length].
    assert (Hc : exists lo hi,
              leadClass (0xE0 + r / 4096) 3 lo hi /\
              lo <= 0x80 + (r / 64) mod 64 <= hi).
    { destruct (Z.eq_dec (r / 4096) 0) as [E | E].
      - rewrite E. exists 0xA0, 0xBF. split; [apply leadE0 | dlia].
      - destruct (Z.eq_dec (r / 4096) 13) as [E' | E'].
        + rewrite E'. exists 0x80, 0x9F. split; [apply leadED | dlia].
        + exists 0x80, 0xBF. split; [apply lead3; dlia | dlia]. }
    destruct Hc as (lo & hi & Hc & Hlh).
    rewrite (DecodeRune_3 _ _ _ _ lo hi);
      rewrite !byte_val_byte_of by dlia; try assumption; try dlia.
    apply rune_pair; dlia. }
  rewrite EncodeRune_4 by lia. cbn [app length].
  assert (Hc : exists lo hi,
            leadClass (0xF0 + r / 262144) 4 lo hi /\
            lo <= 0x80 + (r / 4096) mod 64 <= hi).
  { destruct (Z.eq_dec (r / 262144) 0) as [E | E].
    - rewrite E. exists 0x90, 0xBF. split; [apply leadF0 | dlia].
    - destruct (Z.eq_dec (r / 262144) 4) as [E' | E'].
      + rewrite E'. exists 0x80, 0x8F. split; [apply leadF4 | dlia].
      + exists 0x80, 0xBF. split; [apply lead4; dlia | dlia]. }
  destruct Hc as (lo & hi & Hc & Hlh).
  rewrite (DecodeRune_4 _ _ _ _ _ lo hi);
    rewrite !byte_val_byte_of by dlia; try assumption; try dlia.
  apply rune_pair; dlia.
Qed.

(** ** Text as runes *)

Lemma EncodeRune_nonempty : forall r, utf8.EncodeRune r <> [].
Proof.
  intros r. unfold utf8.EncodeRune.
  repeat match goal with
  | |- context [if ?c then _ else _] => destruct c
  end; discriminate.
Qed.

Lemma encodeAll_app : forall a b, encodeAll (a ++ b) = encodeAll a ++ encodeAll b.
Proof. intros. unfold encodeAll. apply flat_map_app. Qed.

Lemma encodeAll_nil_inv : forall rs, encodeAll rs = [] -> rs = [].
Proof.
  intros [|r rs] H; [reflexivity |].
  unfold encodeAll in H. cbn [flat_map] in H.
  apply app_eq_nil in H. destruct H as [H _].
  now apply EncodeRune_nonempty in H.
Qed.

Lemma range_from_skip : forall pre rest,
  utf8.range_from (length pre) (pre ++ rest) = utf8.range rest.
Proof.
  induction pre as [|b pre IH]; intros rest; [reflexivity |].
  cbn [length app utf8.range_from]. apply IH.
Qed.

Lemma range_EncodeRune : forall r rest,
  validRune r -> utf8.range (utf8.EncodeRune r ++ rest) = r :: utf8.range rest.
Proof.
  intros r rest Hr.
  pose proof (DecodeRune_EncodeRune r rest Hr) as Hd.
  destruct (utf8.EncodeRune r) as [|b0 tl] eqn:E.
  { now apply EncodeRune_nonempty in E. }
  unfold utf8.range at 1. cbn [app utf8.range_from].
  cbn [app] in Hd. rewrite Hd. cbn [length pred].
  now rewrite range_from_skip.
Qed.

Lemma range_encodeAll : forall rs rest,
  Forall validRune rs ->
  utf8.range (encodeAll rs ++ rest) = rs ++ utf8.range rest.
Proof.
  induction rs as [|r rs IH]; intros rest H; [reflexivity |].
  inversion H; subst. unfold encodeAll. cbn [flat_map].
  rewrite <- app_assoc. rewrite range_EncodeRune by assumption.
  fold (encodeAll rs). rewrite IH by assumption. reflexivity.
Qed.

Lemma range_from_valid : forall s k, Forall validRune (utf8.range_from k s).
Proof.
  induction s as [|b s IH]; intros k; [constructor |].
  cbn [utf8.range_from]. destruct k as [|k]; [| apply IH].
  destruct (utf8.DecodeRune (b :: s)) as [r size] eqn:E.
  constructor; [| apply IH].
  pose proof (DecodeRune_valid (b :: s)) as [Hv _].
  now rewrite E in Hv.
Qed.

Lemma range_valid : forall s, Forall validRune (utf8.range s).
Proof. intros s. apply range_from_valid. Qed.

(** ** Cutting text into lines and words *)

Section Split.

Context {A : Type} (sep : A -> bool).

Lemma splitAt_noSep : forall l, noSep sep l = true -> splitAt sep l = [l].
Proof.
  induction l as [|c l IH]; intros H; [reflexivity |].
  simpl in H. apply andb_prop in H. destruct H as [Hc Hl].
  apply negb_true_iff in Hc. simpl. rewrite Hc, IH by assumption.
  reflexivity.
Qed.

Lemma splitAt_noSep_app : forall l rest,
  noSep sep l = true ->
  splitAt sep (l ++ rest)
  = match splitAt sep rest with
    | hd :: tl => (l ++ hd) :: tl
    | [] => [l]
    end.
Proof.
  induction l as [|c l IH]; intros rest H.
  - simpl. destruct (splitAt sep rest) eqn:E; [| reflexivity].
    destruct rest; simpl in E; [discriminate |].
    destruct (sep a); [discriminate |].
    destruct (splitAt sep rest); discriminate.
  - simpl in H. apply andb_prop in H. destruct H as [Hc Hl].
    apply negb_true_iff in Hc. cbn [app splitAt]. rewrite Hc.
    rewrite IH by assumption.
    destruct (splitAt sep rest); reflexivity.
Qed.

Lemma splitAt_line : forall l c rest,
  noSep sep l = true -> sep c = true ->
  splitAt sep (l ++ c :: rest) = l :: splitAt sep rest.
Proof.
  intros l c rest Hl Hc. rewrite splitAt_noSep_app by assumption.
  cbn [splitAt]. rewrite Hc. now rewrite app_nil_r.
Qed.

End Split.

Lemma joinLines_app : forall done cur x,
  joinLines done cur ++ x = joinLines done (cur ++ x).
Proof. intros. unfold joinLines. now rewrite app_assoc. Qed.

Lemma joinLines_break : forall done cur x,
  joinLines done cur ++ 0x0A :: x = joinLines (done ++ [cur]) x.
Proof.
  intros. unfold joinLines. rewrite flat_map_app. cbn [flat_map].
  rewrite app_nil_r, <- !app_assoc. reflexivity.
Qed.

Lemma joinLines_full_lines : forall q done cur fl,
  joinLines done cur ++ concat (repeat (0x0A :: fl) (S q))
  = joinLines (done ++ cur :: repeat fl q) fl.
Proof.
  induction q as [|q IH]; intros done cur fl.
  - cbn [repeat concat]. rewrite app_nil_r. apply joinLines_break.
  - change (repeat (10 :: fl) (S (S q)))
      with ((10 :: fl) :: repeat (10 :: fl) (S q)).
    cbn [concat]. change ((10 :: fl) ++ ?x) with (10 :: fl ++ x).
    rewrite joinLines_break, <- joinLines_app, IH.
    rewrite <- app_assoc. reflexivity.
Qed.

Lemma splitAt_joinLines : forall done cur,
  Forall (fun l => noSep lineBreak l = true) done ->
  noSep lineBreak cur = true ->
  splitAt lineBreak (joinLines done cur) = done ++ [cur].
Proof.
  induction done as [|l done IH]; intros cur Hd Hc.
  - apply splitAt_noSep; assumption.
  - inversion Hd; subst. unfold joinLines. cbn [flat_map].
    rewrite <- !app_assoc. cbn [app].
    rewrite splitAt_line by (assumption || reflexivity).
    fold (joinLines done cur). rewrite IH by assumption. reflexivity.
Qed.

Section Widths.

Variable RuneWidth : rune -> Z.

Lemma sumWidth_app : forall a b, sumWidth RuneWidth (a ++ b) = sumWidth RuneWidth a + sumWidth RuneWidth b.
Proof.
  induction a as [|c a IH]; intros b; simpl; [reflexivity |].
  rewrite IH. lia.
Qed.

Lemma printableWidth_noESC : forall l n,
  noESC l = true -> printableWidth RuneWidth false n l = n + sumWidth RuneWidth l.
Proof.
  induction l as [|c l IH]; intros n H; simpl; [lia |].
  simpl in H. apply andb_prop in H. destruct H as [Hc Hl].
  apply negb_true_iff in Hc. rewrite Hc. rewrite IH by assumption. lia.
Qed.

Lemma lineWidth_noESC : forall l, noESC l = true -> lineWidth RuneWidth l = sumWidth RuneWidth l.
Proof. intros l H. unfold lineWidth. now rewrite printableWidth_noESC. Qed.

Hypothesis RuneWidth_nonneg : forall c, 0 <= RuneWidth c.

Lemma sumWidth_nonneg : forall l, 0 <= sumWidth RuneWidth l.
Proof.
  induction l as [|c l IH]; simpl; [lia |].
  pose proof (RuneWidth_nonneg c). lia.
Qed.

Lemma sumWidth_repeat : forall c n,
  sumWidth RuneWidth (repeat c n) = Z.of_nat n * RuneWidth c.
Proof.
  induction n as [|n IH]; [reflexivity |].
  cbn [repeat sumWidth fold_right]. fold (sumWidth RuneWidth (repeat c n)).
  rewrite IH. lia.
Qed.

Lemma wideRun_app_r : forall limit l x, wideRun RuneWidth limit l -> wideRun RuneWidth limit (l ++ x).
Proof.
  intros limit l x (pre & w & post & E & Hw & Hl).
  exists pre, w, (post ++ x). subst l. rewrite <- !app_assoc. auto.
Qed.

Lemma wideRun_app_l : forall limit l x, wideRun RuneWidth limit l -> wideRun RuneWidth limit (x ++ l).
Proof.
  intros limit l x (pre & w & post & E & Hw & Hl).
  exists (x ++ pre), w, post. subst l. rewrite <- !app_assoc. auto.
Qed.

Lemma words_nonempty : forall l, words l <> [].
Proof.
  intros [|c l]; [discriminate |]. unfold words. simpl.
  destruct (unicode.IsSpace c); [discriminate |].
  destruct (splitAt unicode.IsSpace l); discriminate.
Qed.

Lemma wideWordS_cons : forall limit c l,
  wideWordS RuneWidth limit l = true -> wideWordS RuneWidth limit (c :: l) = true.
Proof.
  intros limit c l H. unfold wideWordS, words in *. cbn [splitAt].
  destruct (unicode.IsSpace c).
  - cbn [existsb]. rewrite H. apply orb_true_r.
  - destruct (splitAt unicode.IsSpace l) as [|w ws]; [discriminate |].
    cbn [existsb] in *. apply orb_true_iff in H. apply orb_true_iff.
    destruct H as [H | H]; [left | right; assumption].
    apply Z.leb_le in H. apply Z.leb_le. simpl.
    pose proof (RuneWidth_nonneg c). lia.
Qed.

Lemma wideRun_wideWordS : forall limit l,
  wideRun RuneWidth limit l -> wideWordS RuneWidth limit l = true.
Proof.
  intros limit l (pre & w & post & E & Hw & Hl). subst l.
  induction pre as [|c pre IH]; [| apply wideWordS_cons; exact IH].
  cbn [app]. unfold wideWordS, words.
  rewrite splitAt_noSep_app by assumption.
  destruct (splitAt unicode.IsSpace post) as [|hd tl]; cbn [existsb].
  - apply orb_true_iff. left. apply Z.leb_le. assumption.
  - apply orb_true_iff. left. apply Z.leb_le. rewrite sumWidth_app.
    pose proof (sumWidth_nonneg hd). lia.
Qed.

Lemma splitAt_forallb : forall (p sep : rune -> bool) l,
  forallb p l = true -> Forall (fun w => forallb p w = true) (splitAt sep l).
Proof.
  intros p sep. induction l as [|c l IH]; intros H.
  - repeat constructor.
  - simpl in H. apply andb_prop in H. destruct H as [Hc Hl].
    specialize (IH Hl). cbn [splitAt]. destruct (sep c).
    + constructor; [reflexivity | assumption].
    + destruct (splitAt sep l) as [|w ws].
      * repeat constructor. simpl. now rewrite Hc.
      * inversion IH; subst. constructor; [| assumption].
        simpl. rewrite Hc. assumption.
Qed.

Lemma holdsWideWord_noESC : forall limit l,
  noESC l = true -> holdsWideWord RuneWidth limit l = wideWordS RuneWidth limit l.
Proof.
  intros limit l H. unfold holdsWideWord, wideWordS.
  pose proof (splitAt_forallb _ unicode.IsSpace l H) as Hw.
  fold (words l) in Hw. induction Hw as [|w ws Hw _ IH]; [reflexivity |].
  cbn [existsb]. rewrite IH. rewrite lineWidth_noESC by exact Hw.
  reflexivity.
Qed.

(** A line without escape sequences fits when it is no wider than the
    limit or holds a wide run. *)
Lemma fits_intro : forall limit l,
  noESC l = true ->
  sumWidth RuneWidth l <= limit \/ wideRun RuneWidth limit l -> fits RuneWidth limit l = true.
Proof.
  intros limit l He [H | H]; unfold fits; apply orb_true_iff.
  - left. rewrite lineWidth_noESC by assumption. now apply Z.leb_le.
  - right. rewrite holdsWideWord_noESC by assumption.
    now apply wideRun_wideWordS.
Qed.

End Widths.

(** ** The invariant of the line-filling loop *)

Lemma encodeAll_spaces : forall n, encodeAll (repeat 0x20 n) = repeat x20 n.
Proof. induction n as [|n IH]; simpl; [reflexivity | now rewrite IH]. Qed.

Lemma encodeAll_break : forall l, encodeAll (0x0A :: l) = x0a :: encodeAll l.
Proof. reflexivity. Qed.

Lemma encodeAll_full_lines : forall n q,
  encodeAll (concat (repeat (0x0A :: repeat 0x20 n) q))
  = concat (repeat (x0a :: repeat x20 n) q).
Proof.
  induction q as [|q IH]; [reflexivity |].
  cbn [repeat concat]. rewrite encodeAll_app, IH.
  rewrite encodeAll_break, encodeAll_spaces. reflexivity.
Qed.

Lemma splitRun_runes : forall limit first q r,
  splitRun limit first q r = encodeAll (splitRunes limit first q r).
Proof.
  intros. unfold splitRun, splitRunes.
  rewrite !encodeAll_app, encodeAll_spaces, encodeAll_full_lines.
  destruct (0 <? r); [| reflexivity].
  rewrite encodeAll_break, encodeAll_spaces. reflexivity.
Qed.

Lemma joinLines_more_lines : forall q done cur fl x,
  joinLines done cur ++ concat (repeat (0x0A :: fl) q) ++ 0x0A :: x
  = joinLines (done ++ cur :: repeat fl q) x.
Proof.
  induction q as [|q IH]; intros done cur fl x.
  - cbn [repeat concat app]. apply joinLines_break.
  - cbn [repeat concat]. rewrite <- app_assoc.
    change ((10 :: fl) ++ ?y) with (10 :: fl ++ y).
    rewrite joinLines_break, <- joinLines_app, IH.
    rewrite <- app_assoc. reflexivity.
Qed.

(** After a run that does not fit, the output ends with a line break and a
    line of spaces. *)
Lemma splitRunes_shape : forall limit first rest,
  0 < limit -> 0 <= first -> 0 < rest ->
  exists k n,
    splitRunes limit first (rest / limit) (rest mod limit)
    = repeat 0x20 (Z.to_nat first)
      ++ concat (repeat (0x0A :: repeat 0x20 (Z.to_nat limit)) k)
      ++ 0x0A :: repeat 0x20 n.
Proof.
  intros limit first rest Hl Hf Hr. unfold splitRunes.
  destruct (Z.ltb_spec 0 (rest mod limit)) as [H | H].
  - exists (Z.to_nat (rest / limit)), (Z.to_nat (rest mod limit)). reflexivity.
  - assert (Hq : 1 <= rest / limit).
    { pose proof (Z.mod_pos_bound rest limit Hl).
      pose proof (Z.div_mod rest limit). nia. }
    exists (Z.to_nat (rest / limit - 1)), (Z.to_nat limit).
    replace (Z.to_nat (rest / limit)) with (S (Z.to_nat (rest / limit - 1)))
      by lia.
    rewrite app_nil_r.
    set (k := Z.to_nat (rest / limit - 1)).
    set (fl := 10 :: repeat 32 (Z.to_nat limit)).
    f_equal. change (repeat fl (S k)) with (fl :: repeat fl k).
    rewrite repeat_cons, concat_app. cbn [concat]. rewrite app_nil_r.
    reflexivity.
Qed.

Arguments lineBreak : simpl never.
Arguments unicode.IsSpace : simpl never.
Arguments inGroup : simpl never.

Lemma plainText_inputRunes : forall s,
  plainText s = true -> Forall inputRune (utf8.range s).
Proof.
  intros s H. unfold plainText in H. rewrite forallb_forall in H.
  pose proof (range_valid s) as Hv. rewrite Forall_forall in Hv.
  apply Forall_forall. intros c Hc.
  specialize (H c Hc). apply andb_prop in H. destruct H as [He Hb].
  apply negb_true_iff in He, Hb. apply Z.eqb_neq in He.
  split; [split; [apply Hv; assumption | assumption] | assumption].
Qed.

Section Filling.

Variable RuneWidth : rune -> Z.
Variable limit : Z.

Hypothesis limit_pos : 0 < limit.
Hypothesis RuneWidth_nonneg : forall c, 0 <= RuneWidth c.
Hypothesis space_width :
  forall c, unicode.IsSpace c = true -> RuneWidth c <= len (utf8.EncodeRune c).

Lemma textRune_noESC : forall l, Forall textRune l -> noESC l = true.
Proof.
  induction 1 as [|c l [_ Hc] _ IH]; [reflexivity |].
  simpl. rewrite IH. apply andb_true_iff. split; [| reflexivity].
  apply negb_true_iff. now apply Z.eqb_neq.
Qed.

Lemma textRune_valid : forall l, Forall textRune l -> Forall validRune l.
Proof. intros l H. eapply Forall_impl; [| exact H]. now intros c [Hv _]. Qed.

Lemma PrintableRuneWidth_text : forall l,
  Forall textRune l ->
  PrintableRuneWidth RuneWidth (encodeAll l) = sumWidth RuneWidth l.
Proof.
  intros l H. unfold PrintableRuneWidth.
  rewrite <- (app_nil_r (encodeAll l)).
  rewrite range_encodeAll by (apply textRune_valid; assumption).
  rewrite app_nil_r.
  rewrite printableWidth_noESC by (apply textRune_noESC; assumption). lia.
Qed.

Lemma spaces_width : forall sp,
  forallb unicode.IsSpace sp = true ->
  sumWidth RuneWidth sp <= len (encodeAll sp).
Proof.
  induction sp as [|c sp IH]; intros H; [unfold len; simpl; lia |].
  simpl in H. apply andb_prop in H. destruct H as [Hc Hs].
  unfold encodeAll. cbn [flat_map sumWidth fold_right].
  fold (encodeAll sp). fold (sumWidth RuneWidth sp).
  rewrite len_app. specialize (IH Hs). pose proof (space_width c Hc). lia.
Qed.

Lemma width_of_spaces : forall n,
  sumWidth RuneWidth (repeat 0x20 n) <= Z.of_nat n.
Proof.
  intros n. rewrite sumWidth_repeat.
  pose proof (space_width 0x20 eq_refl) as H.
  change (len (utf8.EncodeRune 32)) with 1 in H.
  pose proof (RuneWidth_nonneg 0x20). nia.
Qed.

Lemma columns_app : forall a b,
  columns RuneWidth (a ++ b) = columns RuneWidth a + columns RuneWidth b.
Proof.
  induction a as [|c a IH]; intros b; simpl; [reflexivity |].
  rewrite IH. lia.
Qed.

Lemma columns_spaces : forall sp,
  forallb unicode.IsSpace sp = true ->
  columns RuneWidth sp = len (encodeAll sp).
Proof.
  induction sp as [|c sp IH]; intros H; [reflexivity |].
  simpl in H. apply andb_prop in H. destruct H as [Hc Hs].
  unfold encodeAll. cbn [flat_map columns fold_right].
  fold (encodeAll sp). fold (columns RuneWidth sp).
  rewrite Hc, len_app, IH by assumption. reflexivity.
Qed.

Lemma columns_solid : forall wd,
  noSep unicode.IsSpace wd = true ->
  columns RuneWidth wd = sumWidth RuneWidth wd.
Proof.
  induction wd as [|c wd IH]; intros H; [reflexivity |].
  simpl in H. apply andb_prop in H. destruct H as [Hc Hs].
  apply negb_true_iff in Hc.
  cbn [columns sumWidth fold_right].
  fold (columns RuneWidth wd). fold (sumWidth RuneWidth wd).
  rewrite Hc, IH by assumption. reflexivity.
Qed.

Lemma sumWidth_le_columns : forall l,
  sumWidth RuneWidth l <= columns RuneWidth l.
Proof.
  induction l as [|c l IH]; [simpl; lia |].
  cbn [columns sumWidth fold_right].
  fold (columns RuneWidth l). fold (sumWidth RuneWidth l).
  destruct (unicode.IsSpace c) eqn:Hc; [| lia].
  pose proof (space_width c Hc). lia.
Qed.

Lemma columns_of_spaces : forall n,
  columns RuneWidth (repeat 0x20 n) = Z.of_nat n.
Proof.
  induction n as [|n IH]; [reflexivity |].
  cbn [repeat columns fold_right]. fold (columns RuneWidth (repeat 32 n)).
  rewrite IH. change (unicode.IsSpace 32) with true.
  change (len (utf8.EncodeRune 32)) with 1. lia.
Qed.

Lemma textRune_spaces : forall n, Forall textRune (repeat 0x20 n).
Proof.
  intros n. apply Forall_forall. intros c Hc. apply repeat_spec in Hc.
  subst c. split; [| discriminate].
  unfold validRune, utf8.MaxRune, utf8.surrogateMin, utf8.surrogateMax. lia.
Qed.

Lemma noBreak_spaces : forall n, noSep lineBreak (repeat 0x20 n) = true.
Proof. induction n; [reflexivity | simpl; assumption]. Qed.

Lemma noSep_app : forall (sep : rune -> bool) a b,
  noSep sep (a ++ b) = noSep sep a && noSep sep b.
Proof. intros. unfold noSep. apply forallb_app. Qed.

Lemma solid_noBreak : forall l,
  noSep unicode.IsSpace l = true -> noSep lineBreak l = true.
Proof.
  induction l as [|c l IH]; intros H; [reflexivity |].
  simpl in H. apply andb_prop in H. destruct H as [Hc Hl].
  simpl. rewrite IH by assumption. rewrite andb_true_r.
  apply negb_true_iff. apply negb_true_iff in Hc.
  unfold lineBreak. destruct (Z.eqb_spec c 10); [subst; discriminate | reflexivity].
Qed.

Lemma wideRun_word : forall pre wd,
  noSep unicode.IsSpace wd = true -> limit <= sumWidth RuneWidth wd ->
  wideRun RuneWidth limit (pre ++ wd).
Proof.
  intros pre wd Hs Hw. exists pre, wd, []. rewrite app_nil_r. auto.
Qed.

Lemma len_word_pos : forall c l, 0 < len (encodeAll (c :: l)).
Proof.
  intros c l. unfold encodeAll. cbn [flat_map]. rewrite len_app.
  pose proof (len_nonneg (flat_map utf8.EncodeRune l)).
  pose proof (EncodeRune_nonempty c) as Hc.
  destruct (utf8.EncodeRune c); [congruence |].
  unfold len in *. simpl length. lia.
Qed.

(** Flushing the pending word keeps the invariant. *)
Lemma addWord_Inv : forall w done cur sp wd w',
  Inv RuneWidth limit w done cur sp wd -> addWord RuneWidth w = Ok w' ->
  exists done' cur' sp', Inv RuneWidth limit w' done' cur' sp' [].
Proof.
  intros w done cur sp wd w' HI Hw.
  destruct HI as [[HL Hbp Hnl Hkn Hhard Hpres Hansi Hlast Hbuf Hword Hdt Hct
                   Hwt Hdnb Hcnb Hws Hdg] Hspace Hst Hsnb Hss Hlen Hcg Hroom].
  destruct wd as [|c0 wd0].
  { unfold addWord in Hw. rewrite Hword in Hw. simpl in Hw.
    inversion Hw; subst w'. exists done, cur, sp.
    constructor; auto. constructor; auto. }
  assert (Hpos : 0 < len (word w)) by (rewrite Hword; apply len_word_pos).
  assert (Hne : c0 :: wd0 <> []) by discriminate.
  remember (c0 :: wd0) as wd eqn:Ewd. clear Ewd c0 wd0.
  assert (HW : PrintableRuneWidth RuneWidth (word w) = sumWidth RuneWidth wd)
    by (rewrite Hword; apply PrintableRuneWidth_text; assumption).
  pose proof (sumWidth_nonneg RuneWidth RuneWidth_nonneg wd) as HW0.
  pose proof (spaces_width sp Hss) as HS. rewrite <- Hspace in HS.
  pose proof (len_nonneg (space w)) as HS0.
  unfold addWord in Hw. destruct (Z.ltb_spec 0 (len (word w))); [| lia].
  destruct (Z.le_gt_cases (len (space w)) (Limit w - lineLen w))
    as [Hfit | Hover].
  - (* the spaces fit *)
    rewrite addSpace_fits in Hw by assumption.
    cbv beta iota delta [bind] in Hw. inversion Hw; subst w'; clear Hw.
    exists done, (cur ++ sp ++ wd), [].
    destruct w; simpl in *; subst.
    constructor; [constructor |..]; simpl; auto.
    + rewrite <- !joinLines_app, !encodeAll_app, <- !app_assoc. reflexivity.
    + repeat (apply Forall_app; split); assumption.
    + rewrite !noSep_app, Hcnb, Hsnb. simpl.
      now apply (solid_noBreak wd).
    + lia.
    + destruct Hcg as [Hcg | Hcg].
      * left. now apply wideRun_app_r.
      * destruct Hroom as [Hroom | [Hroom | Hroom]]; [congruence | |].
        -- left. rewrite app_assoc. now apply wideRun_word.
        -- right. rewrite !columns_app, (columns_spaces sp Hss),
             (columns_solid wd Hws). lia.
  - (* the spaces do not fit *)
    destruct (Z.lt_ge_cases (Limit w) (lineLen w)) as [Hbig | Hsmall].
    { rewrite addSpace_panics in Hw by assumption. discriminate. }
    rewrite addSpace_overflow in Hw by lia.
    cbv beta iota delta [bind] in Hw. inversion Hw; subst w'; clear Hw.
    assert (Hwide : limit <= sumWidth RuneWidth wd).
    { destruct Hroom as [Hroom | [Hroom | Hroom]];
        [congruence | assumption | lia]. }
    destruct (splitRunes_shape (Limit w) (Limit w - lineLen w)
                (len (space w) - (Limit w - lineLen w)))
      as (k & n & Hshape); try lia.
    rewrite splitRun_runes, Hshape.
    set (fl := repeat 0x20 (Z.to_nat (Limit w))).
    set (first := repeat 0x20 (Z.to_nat (Limit w - lineLen w))).
    exists (done ++ (cur ++ first) :: repeat fl k),
           (repeat 0x20 n ++ wd), [].
    assert (Hfirst : goodLine RuneWidth limit (cur ++ first)).
    { destruct Hcg as [Hcg | Hcg]; [right; now apply wideRun_app_r | left].
      rewrite sumWidth_app. unfold first.
      pose proof (width_of_spaces (Z.to_nat (Limit w - lineLen w))).
      pose proof (sumWidth_le_columns cur). lia. }
    assert (Hfl : goodLine RuneWidth limit fl).
    { left. unfold fl. pose proof (width_of_spaces (Z.to_nat (Limit w))). lia. }
    destruct w; simpl in *; subst.
    constructor; [constructor |..]; simpl; auto.
    + rewrite <- joinLines_more_lines, <- !joinLines_app.
      rewrite !encodeAll_app, <- !app_assoc.
      rewrite !encodeAll_break, !encodeAll_app. reflexivity.
    + apply Forall_app. split; [assumption |].
      constructor.
      * apply Forall_app. split; [assumption | apply textRune_spaces].
      * apply Forall_forall. intros l Hl. apply repeat_spec in Hl. subst l.
        apply textRune_spaces.
    + apply Forall_app. split; [apply textRune_spaces | assumption].
    + apply Forall_app. split; [assumption |].
      constructor.
      * rewrite noSep_app, Hcnb. apply noBreak_spaces.
      * apply Forall_forall. intros l Hl. apply repeat_spec in Hl. subst l.
        apply noBreak_spaces.
    + rewrite noSep_app, noBreak_spaces. simpl.
      now apply (solid_noBreak wd).
    + apply Forall_app. split; [assumption |].
      constructor; [assumption |].
      apply Forall_forall. intros l Hl. apply repeat_spec in Hl. now subst l.
    + match goal with |- context [?a mod limit] =>
        pose proof (Z.mod_pos_bound a limit limit_pos) end. lia.
    + left. now apply wideRun_word.
Qed.

Lemma encodeAll_snoc : forall l c,
  encodeAll (l ++ [c]) = encodeAll l ++ utf8.EncodeRune c.
Proof.
  intros. rewrite encodeAll_app. unfold encodeAll at 2. cbn [flat_map].
  now rewrite app_nil_r.
Qed.

Lemma addNewLine_plain : forall w,
  PreserveSpaces w = false -> lastAnsi w = [] ->
  addNewLine w
  = Ok (set_wroteBegin false
         (set_space [] (set_lineLen 0 (buf_WriteRune 0x0A w)))).
Proof.
  intros w Hp Hl. unfold addNewLine. rewrite Hp.
  cbv beta iota delta [bind]. rewrite Hl. reflexivity.
Qed.

Lemma goodLine_cur : forall w done cur sp wd,
  Inv RuneWidth limit w done cur sp wd -> goodLine RuneWidth limit cur.
Proof.
  intros w done cur sp wd HI.
  destruct (inv_cur_good _ _ _ _ _ _ _ HI) as [H | H].
  - right. assumption.
  - left. pose proof (sumWidth_le_columns cur). lia.
Qed.

(** Ending the current line. *)
Lemma breakLine_Inv : forall w done cur wd,
  Shape RuneWidth limit w done cur wd -> goodLine RuneWidth limit cur ->
  wd = [] \/ limit <= sumWidth RuneWidth wd \/ sumWidth RuneWidth wd <= limit ->
  Inv RuneWidth limit (set_wroteBegin false
        (set_space [] (set_lineLen 0 (buf_WriteRune 0x0A w))))
      (done ++ [cur]) [] [] wd.
Proof.
  intros w done cur wd
    [HL Hbp Hnl Hkn Hhard Hpres Hansi Hlast Hbuf Hword Hdt Hct Hwt Hdnb Hcnb Hws Hdg]
    Hgood Hroom.
  destruct w; simpl in *; subst.
  constructor; [constructor |..]; simpl; auto.
  - rewrite <- joinLines_break, encodeAll_app. reflexivity.
  - apply Forall_app. split; [assumption | constructor; [assumption | constructor]].
  - apply Forall_app. split; [assumption | constructor; [assumption | constructor]].
  - apply Forall_app. split; [assumption | constructor; [assumption | constructor]].
  - lia.
  - right. simpl. lia.
Qed.

Lemma Shape_wroteBegin : forall w done cur wd b,
  Shape RuneWidth limit w done cur wd -> Shape RuneWidth limit (set_wroteBegin b w) done cur wd.
Proof. intros w done cur wd b []. destruct w; constructor; assumption. Qed.

Lemma Inv_wroteBegin : forall w done cur sp wd b,
  Inv RuneWidth limit w done cur sp wd -> Inv RuneWidth limit (set_wroteBegin b w) done cur sp wd.
Proof.
  intros w done cur sp wd b [].
  constructor; try (destruct w; assumption).
  now apply Shape_wroteBegin.
Qed.

Lemma lineBreak_newline : forall c,
  lineBreak c = inGroup defaultNewline c.
Proof.
  intros c. unfold lineBreak, defaultNewline, inGroup.
  rewrite Z.eqb_sym. destruct (10 =? c); reflexivity.
Qed.

Lemma textRune_break : textRune 0x0A.
Proof.
  split; [| discriminate].
  unfold validRune, utf8.MaxRune, utf8.surrogateMin, utf8.surrogateMax. lia.
Qed.

(** One rune of plain text keeps the invariant. *)
Lemma writeRune_Inv : forall w done cur sp wd c w',
  Inv RuneWidth limit w done cur sp wd -> inputRune c ->
  writeRune RuneWidth w c = Ok w' ->
  exists done' cur' sp' wd', Inv RuneWidth limit w' done' cur' sp' wd'.
Proof.
  intros w done cur sp wd c w' HI [[Hv He] Hb] Hw.
  unfold writeRune in Hw.
  rewrite restartAnsi_skip in Hw
    by (right; right; apply (sh_last _ _ _ _ _ _ (inv_shape _ _ _ _ _ _ _ HI))).
  cbv beta iota delta [bind] in Hw.
  apply (Inv_wroteBegin _ _ _ _ _ true) in HI.
  remember (set_wroteBegin true w) as w1 eqn:Ew1. clear Ew1 w.
  pose proof (inv_shape _ _ _ _ _ _ _ HI) as HS.
  replace (c =? ESC) with false in Hw by (symmetry; now apply Z.eqb_neq).
  rewrite (sh_ansi _ _ _ _ _ _ HS), (sh_nl _ _ _ _ _ _ HS), (sh_bp _ _ _ _ _ _ HS),
    (sh_hard _ _ _ _ _ _ HS), Hb in Hw.
  cbn [andb] in Hw.
  destruct (inGroup defaultNewline c) eqn:Hnl.
  - (* a line break in the input *)
    destruct (Z.eqb_spec (len (word w1)) 0) as [Hz | Hz].
    + assert (Hwd : wd = []).
      { apply encodeAll_nil_inv. rewrite <- (sh_word _ _ _ _ _ _ HS).
        apply len_zero_inv. lia. }
      subst wd.
      match type of Hw with
      | context [addWord RuneWidth ?w2] =>
        assert (Ha : addWord RuneWidth w2 = Ok w2)
      end.
      { unfold addWord.
        replace (word (set_space []
                   (if Limit w1 <? lineLen w1 + len (space w1)
                    then set_lineLen 0 w1 else buf_Write (space w1) w1)))
          with (word w1)
          by (destruct w1; simpl; destruct (_ <? _); reflexivity).
        rewrite (sh_word _ _ _ _ _ _ HS). reflexivity. }
      rewrite Ha in Hw. cbv beta iota delta [bind] in Hw.
      rewrite addNewLine_plain in Hw.
      2:{ destruct w1; simpl; destruct (_ <? _); simpl;
          apply (sh_pres _ _ _ _ _ _ HS). }
      2:{ destruct w1; simpl; destruct (_ <? _); simpl;
          apply (sh_last _ _ _ _ _ _ HS). }
      inversion Hw; subst w'; clear Hw Ha.
      pose proof (goodLine_cur _ _ _ _ _ HI) as Hgood.
      destruct HI as [_ Hspace Hst Hsnb Hss Hlen Hcg Hroom].
      pose proof (spaces_width sp Hss) as Hsw.
      destruct HS as [HL Hbp Hnl' Hkn Hhard Hpres Hansi Hlast Hbuf Hword Hdt Hct
                      Hwt Hdnb Hcnb Hws Hdg].
      destruct (Z.ltb_spec (Limit w1) (lineLen w1 + len (space w1)))
        as [Hdrop | Hkeep].
      * exists (done ++ [cur]), [], [], [].
        match goal with |- Inv RuneWidth limit ?x _ _ _ _ =>
          replace x with (set_wroteBegin false (set_space []
            (set_lineLen 0 (buf_WriteRune 0x0A w1))))
            by (destruct w1; reflexivity)
        end.
        apply breakLine_Inv; [constructor; assumption | assumption | now left].
      * exists (done ++ [cur ++ sp]), [], [], [].
        match goal with |- Inv RuneWidth limit ?x _ _ _ _ =>
          replace x with (set_wroteBegin false (set_space []
            (set_lineLen 0 (buf_WriteRune 0x0A (buf_Write (space w1) w1)))))
            by (destruct w1; reflexivity)
        end.
        apply breakLine_Inv; [| | now left].
        -- destruct w1; simpl in *; subst. constructor; simpl; auto.
           ++ rewrite <- joinLines_app, encodeAll_app. reflexivity.
           ++ apply Forall_app. split; assumption.
           ++ rewrite noSep_app, Hcnb, Hsnb. reflexivity.
        -- destruct Hcg as [Hcg | Hcg]; [right; now apply wideRun_app_r |].
           left. rewrite sumWidth_app. rewrite <- Hspace in Hsw.
           pose proof (sumWidth_le_columns cur). lia.
    + cbv beta iota in Hw.
      destruct (addWord RuneWidth w1) as [w2 | f] eqn:Ha; [| discriminate].
      destruct (addWord_Inv _ _ _ _ _ _ HI Ha) as (d2 & c2 & s2 & HI2).
      pose proof (inv_shape _ _ _ _ _ _ _ HI2) as HS2.
      rewrite addNewLine_plain in Hw
        by (apply (sh_pres _ _ _ _ _ _ HS2) || apply (sh_last _ _ _ _ _ _ HS2)).
      inversion Hw; subst w'; clear Hw.
      exists (d2 ++ [c2]), [], [], [].
      apply breakLine_Inv;
        [assumption | apply (goodLine_cur _ _ _ _ _ HI2) | now left].
  - destruct (unicode.IsSpace c) eqn:Hsp.
    + (* white space *)
      destruct (addWord RuneWidth w1) as [w2 | f] eqn:Ha; [| discriminate].
      inversion Hw; subst w'; clear Hw.
      destruct (addWord_Inv _ _ _ _ _ _ HI Ha) as (d2 & c2 & s2 & HI2).
      exists d2, c2, (s2 ++ [c]), [].
      destruct HI2 as [[HL Hbp Hnl' Hkn Hhard Hpres Hansi Hlast Hbuf Hword Hdt Hct
                        Hwt Hdnb Hcnb Hws Hdg] Hspace Hst Hsnb Hss Hlen Hcg Hroom].
      destruct w2; simpl in *; subst.
      constructor; [constructor |..]; simpl; auto.
      * now rewrite encodeAll_snoc.
      * apply Forall_app. split; [assumption |].
        constructor; [split; assumption | constructor].
      * rewrite noSep_app, Hsnb. simpl. rewrite lineBreak_newline, Hnl.
        reflexivity.
      * rewrite forallb_app, Hss. simpl. now rewrite Hsp.
    + (* the text of a word *)
      set (w2 := word_WriteRune c w1) in *.
      assert (HS2 : Shape RuneWidth limit w2 done cur (wd ++ [c])).
      { destruct HS as [HL Hbp Hnl' Hkn Hhard Hpres Hansi Hlast Hbuf Hword Hdt Hct
                        Hwt Hdnb Hcnb Hws Hdg].
        unfold w2. destruct w1; simpl in *; subst.
        constructor; simpl; auto.
        - now rewrite encodeAll_snoc.
        - apply Forall_app. split; [assumption |].
          constructor; [split; assumption | constructor].
        - rewrite noSep_app, Hws. simpl. now rewrite Hsp. }
      assert (HW : PrintableRuneWidth RuneWidth (word w2)
                   = sumWidth RuneWidth (wd ++ [c])).
      { rewrite (sh_word _ _ _ _ _ _ HS2). apply PrintableRuneWidth_text.
        apply (sh_wd_text _ _ _ _ _ _ HS2). }
      rewrite HW in Hw.
      replace (Limit w2) with limit in Hw
        by (symmetry; apply (sh_limit _ _ _ _ _ _ HS2)).
      replace (lineLen w2) with (lineLen w1) in Hw
        by (unfold w2; destruct w1; reflexivity).
      replace (space w2) with (space w1) in Hw
        by (unfold w2; destruct w1; reflexivity).
      destruct (Z.ltb_spec limit
                  (lineLen w1 + len (space w1)
                   + sumWidth RuneWidth (wd ++ [c]))) as [Hover | Hfit];
        [destruct (Z.ltb_spec (sumWidth RuneWidth (wd ++ [c])) limit)
           as [Hshort | Hlong] |];
        cbn [andb] in Hw.
      * (* the word moves to a new line *)
        rewrite addNewLine_plain in Hw
          by (apply (sh_pres _ _ _ _ _ _ HS2) || apply (sh_last _ _ _ _ _ _ HS2)).
        inversion Hw; subst w'; clear Hw.
        exists (done ++ [cur]), [], [], (wd ++ [c]).
        apply breakLine_Inv;
          [assumption | apply (goodLine_cur _ _ _ _ _ HI) | right; right; lia].
      * inversion Hw; subst w'; clear Hw.
        exists done, cur, sp, (wd ++ [c]).
        destruct HI as [_ Hspace Hst Hsnb Hss Hlen Hcg Hroom].
        constructor; try assumption;
          try (unfold w2; destruct w1; assumption).
        right; left. assumption.
      * inversion Hw; subst w'; clear Hw.
        exists done, cur, sp, (wd ++ [c]).
        destruct HI as [_ Hspace Hst Hsnb Hss Hlen Hcg Hroom].
        constructor; try assumption;
          try (unfold w2; destruct w1; assumption).
        right; right.
        replace (lineLen w2) with (lineLen w1)
          by (unfold w2; destruct w1; reflexivity).
        replace (space w2) with (space w1)
          by (unfold w2; destruct w1; reflexivity).
        assumption.
Qed.

Lemma writeRunes_Inv : forall s w done cur sp wd w',
  Inv RuneWidth limit w done cur sp wd -> Forall inputRune s ->
  writeRunes RuneWidth w s = Ok w' ->
  exists done' cur' sp' wd', Inv RuneWidth limit w' done' cur' sp' wd'.
Proof.
  induction s as [|c s IH]; intros w done cur sp wd w' HI Hs Hw.
  - inversion Hw; subst. now exists done, cur, sp, wd.
  - inversion Hs as [| ? ? Hc Hs']; subst. cbn [writeRunes] in Hw.
    destruct (writeRune RuneWidth w c) as [w1 | f] eqn:E1; [| discriminate].
    destruct (writeRune_Inv _ _ _ _ _ _ _ HI Hc E1)
      as (d1 & c1 & s1 & wd1 & HI1).
    apply (IH _ _ _ _ _ _ HI1 Hs' Hw).
Qed.

Lemma Close_Inv : forall w done cur sp wd w',
  Inv RuneWidth limit w done cur sp wd -> Close RuneWidth w = Ok w' ->
  exists done' cur' sp', Inv RuneWidth limit w' done' cur' sp' [].
Proof.
  intros w done cur sp wd w' HI Hw. unfold Close in Hw.
  rewrite (sh_pres _ _ _ _ _ _ (inv_shape _ _ _ _ _ _ _ HI)) in Hw.
  cbv beta iota delta [bind] in Hw.
  apply (addWord_Inv _ _ _ _ _ _ HI Hw).
Qed.

Lemma Inv_NewWriter : limit <> 0 -> Inv RuneWidth limit (NewWriter limit) [] [] [] [].
Proof.
  intros _. constructor; [constructor |..]; simpl;
    try reflexivity; try (apply Forall_nil); lia.
Qed.

(** What the invariant says about the lines of the output. *)
Lemma Inv_textLines : forall w done cur sp wd,
  Inv RuneWidth limit w done cur sp wd -> textLines (buf w) = done ++ [cur].
Proof.
  intros w done cur sp wd HI.
  destruct (inv_shape _ _ _ _ _ _ _ HI)
    as [HL Hbp Hnl Hkn Hhard Hpres Hansi Hlast Hbuf Hword Hdt Hct Hwt Hdnb
        Hcnb Hws Hdg].
  assert (Hvalid : Forall validRune (joinLines done cur)).
  { unfold joinLines. apply Forall_app. split.
    - apply Forall_flat_map. eapply Forall_impl; [| exact Hdt].
      intros l Hl. apply Forall_app. split.
      + now apply textRune_valid.
      + repeat constructor; apply textRune_break.
    - now apply textRune_valid. }
  unfold textLines. rewrite Hbuf.
  rewrite <- (app_nil_r (encodeAll _)), range_encodeAll by assumption.
  rewrite app_nil_r. now apply splitAt_joinLines.
Qed.

Lemma Inv_lines : forall w done cur sp wd,
  Inv RuneWidth limit w done cur sp wd ->
  forallb (fits RuneWidth limit) (textLines (buf w)) = true.
Proof.
  intros w done cur sp wd HI.
  pose proof (goodLine_cur _ _ _ _ _ HI) as Hgood.
  rewrite (Inv_textLines _ _ _ _ _ HI).
  destruct (inv_shape _ _ _ _ _ _ _ HI)
    as [HL Hbp Hnl Hkn Hhard Hpres Hansi Hlast Hbuf Hword Hdt Hct Hwt Hdnb
        Hcnb Hws Hdg].
  rewrite forallb_app. apply andb_true_iff. split.
  - apply forallb_forall. intros l Hl.
    rewrite Forall_forall in Hdt, Hdg.
    apply fits_intro;
      [assumption | apply textRune_noESC; now apply Hdt |].
    destruct (Hdg l Hl); [left | right]; assumption.
  - simpl. rewrite andb_true_r.
    apply fits_intro;
      [assumption | now apply textRune_noESC |].
    destruct Hgood; [left | right]; assumption.
Qed.

(** What the invariant says about [lineLen]. *)
Lemma Inv_lineLen : forall w done cur sp wd,
  Inv RuneWidth limit w done cur sp wd ->
  lineLen w = columns RuneWidth (currentLine (buf w)) \/
  holdsWideWord RuneWidth limit (currentLine (buf w)) = true.
Proof.
  intros w done cur sp wd HI.
  unfold currentLine. rewrite (Inv_textLines _ _ _ _ _ HI), last_last.
  destruct (inv_cur_good _ _ _ _ _ _ _ HI) as [H | [H _]];
    [right | left; exact H].
  rewrite holdsWideWord_noESC.
  - now apply wideRun_wideWordS.
  - apply textRune_noESC.
    apply (sh_cur_text _ _ _ _ _ _ (inv_shape _ _ _ _ _ _ _ HI)).
Qed.

(** [Write] in the middle of plain text runs the loop over the runes of
    its input. *)
Lemma Write_plain : forall w done cur sp wd b,
  Inv RuneWidth limit w done cur sp wd ->
  Write RuneWidth w b = writeRunes RuneWidth w (utf8.range b).
Proof.
  intros w done cur sp wd b HI.
  pose proof (inv_shape _ _ _ _ _ _ _ HI) as HS.
  unfold Write.
  rewrite (sh_limit _ _ _ _ _ _ HS), (sh_keep _ _ _ _ _ _ HS),
    (sh_hard _ _ _ _ _ _ HS).
  destruct (Z.eqb_spec limit 0); [lia | reflexivity].
Qed.

Lemma writeAll_Inv : forall chunks w done cur sp wd w',
  Inv RuneWidth limit w done cur sp wd ->
  Forall (fun b => plainText b = true) chunks ->
  writeAll RuneWidth w chunks = Ok w' ->
  exists done' cur' sp' wd', Inv RuneWidth limit w' done' cur' sp' wd'.
Proof.
  induction chunks as [|b chunks IH]; intros w done cur sp wd w' HI Hp Hw.
  - inversion Hw; subst. now exists done, cur, sp, wd.
  - inversion Hp as [| ? ? Hb Hp']; subst. cbn [writeAll] in Hw.
    rewrite (Write_plain _ _ _ _ _ b HI) in Hw.
    destruct (writeRunes RuneWidth w (utf8.range b)) as [w1 | f] eqn:E1;
      [| discriminate].
    destruct (writeRunes_Inv _ _ _ _ _ _ _ HI (plainText_inputRunes b Hb) E1)
      as (d1 & c1 & s1 & wd1 & HI1).
    apply (IH _ _ _ _ _ _ HI1 Hp' Hw).
Qed.

Lemma addWord_total : forall w,
  Room w -> exists w', addWord RuneWidth w = Ok w' /\ word w' = [].
Proof.
  intros w [H | H]; unfold addWord.
  - rewrite H. simpl. eexists; split; [reflexivity | assumption].
  - destruct (Z.ltb_spec 0 (len (word w))).
    + rewrite addSpace_fits by lia. cbv beta iota delta [bind].
      eexists; split; [reflexivity |]. destruct w; reflexivity.
    + eexists; split; [reflexivity |]. apply len_zero_inv. assumption.
Qed.

(** When no rune is as wide as the limit, one rune of plain text is
    processed without a panic and leaves room for the pending word. *)
Lemma writeRune_total : forall w done cur sp wd c,
  Inv RuneWidth limit w done cur sp wd -> Room w -> inputRune c -> RuneWidth c < limit ->
  exists w', writeRune RuneWidth w c = Ok w' /\ Room w'.
Proof.
  intros w done cur sp wd c HI HR [[Hv He] Hb] Hc.
  unfold writeRune.
  rewrite restartAnsi_skip
    by (right; right; apply (sh_last _ _ _ _ _ _ (inv_shape _ _ _ _ _ _ _ HI))).
  cbv beta iota delta [bind].
  apply (Inv_wroteBegin _ _ _ _ _ true) in HI.
  assert (HR1 : Room (set_wroteBegin true w)) by (destruct w; exact HR).
  clear HR.
  remember (set_wroteBegin true w) as w1 eqn:Ew1. clear Ew1 w.
  pose proof (inv_shape _ _ _ _ _ _ _ HI) as HS.
  replace (c =? ESC) with false by (symmetry; now apply Z.eqb_neq).
  rewrite (sh_ansi _ _ _ _ _ _ HS), (sh_nl _ _ _ _ _ _ HS), (sh_bp _ _ _ _ _ _ HS),
    (sh_hard _ _ _ _ _ _ HS), Hb.
  cbn [andb].
  destruct (inGroup defaultNewline c) eqn:Hnl.
  - destruct (Z.eqb_spec (len (word w1)) 0) as [Hz | Hz].
    + match goal with
      | |- context [addWord RuneWidth ?w2] =>
        assert (Hw2 : word w2 = [] /\ PreserveSpaces w2 = false
                      /\ lastAnsi w2 = [])
      end.
      { repeat split; destruct w1; simpl in *; destruct (_ <? _); simpl;
          [apply len_zero_inv; lia | apply len_zero_inv; lia
          | apply (sh_pres _ _ _ _ _ _ HS) | apply (sh_pres _ _ _ _ _ _ HS)
          | apply (sh_last _ _ _ _ _ _ HS) | apply (sh_last _ _ _ _ _ _ HS)]. }
      destruct Hw2 as (Hw & Hp & Hl).
      match goal with
      | |- context [addWord RuneWidth ?w2] =>
        replace (addWord RuneWidth w2) with (Ok w2)
          by (unfold addWord; rewrite Hw; reflexivity)
      end.
      rewrite addNewLine_plain by assumption.
      eexists; split; [reflexivity |]. left.
      destruct w1; simpl in *; destruct (_ <? _); simpl; assumption.
    + destruct (addWord_total w1 HR1) as (w2 & Ha & Hw2).
      rewrite Ha.
      destruct (addWord_Inv _ _ _ _ _ _ HI Ha) as (d2 & c2 & s2 & HI2).
      pose proof (inv_shape _ _ _ _ _ _ _ HI2) as HS2.
      rewrite addNewLine_plain
        by (apply (sh_pres _ _ _ _ _ _ HS2) || apply (sh_last _ _ _ _ _ _ HS2)).
      eexists; split; [reflexivity |]. left. destruct w2; assumption.
  - destruct (unicode.IsSpace c) eqn:Hsp.
    + destruct (addWord_total w1 HR1) as (w2 & Ha & Hw2).
      rewrite Ha. eexists; split; [reflexivity |]. left.
      destruct w2; assumption.
    + set (w2 := word_WriteRune c w1) in *.
      assert (HW : PrintableRuneWidth RuneWidth (word w2)
                   = sumWidth RuneWidth (wd ++ [c])).
      { unfold w2. replace (word (word_WriteRune c w1))
          with (encodeAll (wd ++ [c])).
        - apply PrintableRuneWidth_text. apply Forall_app. split.
          + apply (sh_wd_text _ _ _ _ _ _ HS).
          + constructor; [split; assumption | constructor].
        - rewrite encodeAll_snoc, <- (sh_word _ _ _ _ _ _ HS).
          destruct w1; reflexivity. }
      rewrite HW.
      replace (Limit w2) with limit
        by (symmetry; unfold w2; destruct w1; apply (sh_limit _ _ _ _ _ _ HS)).
      replace (lineLen w2) with (lineLen w1)
        by (unfold w2; destruct w1; reflexivity).
      replace (space w2) with (space w1)
        by (unfold w2; destruct w1; reflexivity).
      assert (Hlim : Limit w2 = limit)
        by (unfold w2; destruct w1; apply (sh_limit _ _ _ _ _ _ HS)).
      destruct (Z.ltb_spec limit
                  (lineLen w1 + len (space w1)
                   + sumWidth RuneWidth (wd ++ [c]))) as [Hover | Hfit];
        [destruct (Z.ltb_spec (sumWidth RuneWidth (wd ++ [c])) limit)
           as [Hshort | Hlong] |];
        cbn [andb].
      * rewrite addNewLine_plain
          by (unfold w2; destruct w1;
              first [apply (sh_pres _ _ _ _ _ _ HS) | apply (sh_last _ _ _ _ _ _ HS)]).
        eexists; split; [reflexivity |]. right.
        unfold w2. destruct w1; simpl in *. change (len []) with 0. lia.
      * eexists; split; [reflexivity |]. right. rewrite Hlim.
        replace (lineLen w2) with (lineLen w1)
          by (unfold w2; destruct w1; reflexivity).
        replace (space w2) with (space w1)
          by (unfold w2; destruct w1; reflexivity).
        destruct HR1 as [HR1 | HR1];
          [| rewrite (sh_limit _ _ _ _ _ _ HS) in HR1; exact HR1].
        assert (wd = []).
        { apply encodeAll_nil_inv. now rewrite <- (sh_word _ _ _ _ _ _ HS). }
        subst wd. simpl in Hlong. lia.
      * eexists; split; [reflexivity |]. right. rewrite Hlim.
        replace (lineLen w2) with (lineLen w1)
          by (unfold w2; destruct w1; reflexivity).
        replace (space w2) with (space w1)
          by (unfold w2; destruct w1; reflexivity).
        pose proof (sumWidth_nonneg RuneWidth RuneWidth_nonneg (wd ++ [c])).
        lia.
Qed.

Lemma writeRunes_total : forall s w done cur sp wd,
  Inv RuneWidth limit w done cur sp wd -> Room w -> Forall inputRune s ->
  (forall c, In c s -> RuneWidth c < limit) ->
  exists w' done' cur' sp' wd',
    writeRunes RuneWidth w s = Ok w' /\ Inv RuneWidth limit w' done' cur' sp' wd' /\ Room w'.
Proof.
  induction s as [|c s IH]; intros w done cur sp wd HI HR Hs Hn.
  - exists w, done, cur, sp, wd. auto.
  - inversion Hs as [| ? ? Hc Hs']; subst.
    destruct (writeRune_total _ _ _ _ _ c HI HR Hc) as (w1 & Hw1 & HR1).
    { apply Hn. now left. }
    destruct (writeRune_Inv _ _ _ _ _ _ _ HI Hc Hw1)
      as (d1 & c1 & s1 & wd1 & HI1).
    destruct (IH _ _ _ _ _ HI1 HR1 Hs') as (w' & d' & c' & s' & wd' & Hw' & H').
    { intros x Hx. apply Hn. now right. }
    exists w', d', c', s', wd'. split; [| exact H'].
    cbn [writeRunes]. rewrite Hw1. exact Hw'.
Qed.

Lemma writeAll_total : forall chunks w done cur sp wd,
  Inv RuneWidth limit w done cur sp wd -> Room w ->
  Forall (fun b => plainText b = true) chunks ->
  (forall b c, In b chunks -> In c (utf8.range b) -> RuneWidth c < limit) ->
  exists w' done' cur' sp' wd',
    writeAll RuneWidth w chunks = Ok w' /\
    Inv RuneWidth limit w' done' cur' sp' wd' /\ Room w'.
Proof.
  induction chunks as [|b chunks IH]; intros w done cur sp wd HI HR Hp Hn.
  - exists w, done, cur, sp, wd. auto.
  - inversion Hp as [| ? ? Hb Hp']; subst.
    destruct (writeRunes_total (utf8.range b) _ _ _ _ _ HI HR
                (plainText_inputRunes b Hb))
      as (w1 & d1 & c1 & s1 & wd1 & E1 & HI1 & HR1).
    { intros c Hc. apply (Hn b c); [now left | assumption]. }
    destruct (IH _ _ _ _ _ HI1 HR1 Hp')
      as (w' & d' & c' & s' & wd' & Hw' & H').
    { intros b' c Hb' Hc. apply (Hn b' c); [now right | assumption]. }
    exists w', d', c', s', wd'. split; [| exact H'].
    cbn [writeAll]. rewrite (Write_plain _ _ _ _ _ b HI), E1. exact Hw'.
Qed.

End Filling.

(** ** Sessions, widths and columns *)

Lemma narrowWidth_range : forall c, 0 <= narrowWidth c <= 1.
Proof.
  intros c. unfold narrowWidth.
  destruct ((c <? 32) || (127 <=? c) && (c <=? 159) || (c =? 173)); lia.
Qed.

Lemma narrowWidth_space : forall c,
  unicode.IsSpace c = true -> narrowWidth c <= len (utf8.EncodeRune c).
Proof.
  intros c _. pose proof (narrowWidth_range c).
  pose proof (EncodeRune_nonempty c).
  destruct (utf8.EncodeRune c); [congruence |].
  unfold len. simpl length. lia.
Qed.

Lemma String_session : forall RuneWidth s limit,
  String RuneWidth s limit = session RuneWidth (NewWriter limit) [s].
Proof.
  intros rw s limit. unfold String, Bytes, session. cbn [writeAll].
  destruct (Write rw (NewWriter limit) s); reflexivity.
Qed.

(** The column count of [lineLen] is the printable width when the white
    space of the line takes as many columns as bytes, as the space
    character does. *)
Lemma columns_lineWidth : forall RuneWidth l,
  noESC l = true ->
  (forall c, In c l -> unicode.IsSpace c = true ->
             RuneWidth c = len (utf8.EncodeRune c)) ->
  columns RuneWidth l = lineWidth RuneWidth l.
Proof.
  intros rw l He Hs. rewrite lineWidth_noESC by assumption. clear He.
  induction l as [|c l IH]; [reflexivity |].
  cbn [columns sumWidth fold_right].
  fold (columns rw l). fold (sumWidth rw l).
  rewrite IH by (intros x Hx; apply Hs; now right).
  destruct (unicode.IsSpace c) eqn:Hc; [| reflexivity].
  rewrite (Hs c) by (assumption || now left). reflexivity.
Qed.

(** * Further properties of the package *)

(** ** The output only grows *)

Lemma advances_refl : forall w, advances w w.
Proof.
  intros w. split; [repeat split | exists []; now rewrite app_nil_r].
Qed.

Lemma advances_trans : forall a b c,
  advances a b -> advances b c -> advances a c.
Proof.
  intros a b c [S1 [x Hx]] [S2 [y Hy]].
  unfold sameSettings in *.
  destruct S1 as (?&?&?&?&?&?&?), S2 as (?&?&?&?&?&?&?).
  split; [repeat split; congruence |].
  exists (x ++ y). rewrite Hy, Hx, app_assoc. reflexivity.
Qed.

(** A step that keeps the settings and writes [x] to the output. *)
Lemma advances_intro : forall w w' x,
  sameSettings w w' -> buf w' = buf w ++ x -> advances w w'.
Proof. intros w w' x S H. split; [exact S | exists x; exact H]. Qed.

Ltac step_advances x :=
  match goal with
  | |- advances ?w _ =>
    apply (advances_intro _ _ x);
    [ destruct w; repeat split
    | destruct w; simpl; rewrite ?app_nil_r, <- ?app_assoc; reflexivity ]
  end.

Lemma spaceLines_appends : forall fuel limit b n b' r,
  spaceLines fuel limit b n = Ok (b', r) -> exists x, b' = b ++ x.
Proof.
  induction fuel as [|fuel IH]; intros limit b n b' r H; simpl in H.
  - destruct (limit <=? n); [discriminate |].
    inversion H; subst. exists []. now rewrite app_nil_r.
  - destruct (limit <=? n).
    + destruct (strings.Repeat " " limit) as [sp|] eqn:E; simpl in H;
        [| discriminate].
      apply IH in H. destruct H as [x Hx]. exists ((x0a :: sp) ++ x).
      rewrite Hx, app_assoc. reflexivity.
    + inversion H; subst. exists []. now rewrite app_nil_r.
Qed.

Lemma addSpace_advances : forall w w',
  addSpace w = Ok w' -> advances w w'.
Proof.
  intros w w' H. unfold addSpace in H.
  destruct (len (space w) <=? Limit w - lineLen w).
  - inversion H; subst. step_advances (space w).
  - destruct (strings.Repeat " " (Limit w - lineLen w)) as [r|] eqn:E;
      simpl in H; [| discriminate].
    match type of H with context [spaceLines ?f ?l ?b ?n] =>
      destruct (spaceLines f l b n) as [[b' k]|] eqn:E2 end;
      simpl in H; [| discriminate].
    apply spaceLines_appends in E2. destruct E2 as [x Hx].
    simpl in Hx.
    destruct (0 <? k).
    + destruct (strings.Repeat " " k) as [r2|] eqn:E3; simpl in H;
        [| discriminate].
      inversion H; subst.
      apply (advances_intro _ _ (r ++ x ++ x0a :: r2)).
      * destruct w; repeat split.
      * destruct w; simpl in *. rewrite <- !app_assoc. reflexivity.
    + simpl in H. inversion H; subst.
      apply (advances_intro _ _ (r ++ x)).
      * destruct w; repeat split.
      * destruct w; simpl in *. rewrite <- !app_assoc. reflexivity.
Qed.

Section Advancing.

Variable RuneWidth : rune -> Z.

Lemma addWord_advances : forall w w',
  addWord RuneWidth w = Ok w' -> advances w w'.
Proof.
  intros w w' H. unfold addWord in H.
  destruct (0 <? len (word w)).
  - destruct (addSpace w) as [w1|] eqn:E; simpl in H; [| discriminate].
    apply addSpace_advances in E. inversion H; subst.
    eapply advances_trans; [exact E |].
    step_advances (word w1).
  - inversion H; subst. apply advances_refl.
Qed.

Lemma addNewLine_advances : forall w w',
  addNewLine w = Ok w' -> advances w w'.
Proof.
  intros w w' H. unfold addNewLine in H.
  assert (E : exists w1, (if PreserveSpaces w then addSpace w else Ok w) = Ok w1
                         /\ advances w w1).
  { destruct (PreserveSpaces w).
    - destruct (addSpace w) as [w1|] eqn:E; [| discriminate].
      exists w1. split; [reflexivity | now apply addSpace_advances].
    - exists w. split; [reflexivity | apply advances_refl]. }
  destruct E as (w1 & E & A). rewrite E in H. simpl in H.
  inversion H; subst. eapply advances_trans; [exact A |].
  destruct (negb (len (lastAnsi w1) =? 0)).
  - step_advances ((x1b :: bs "[0m") ++ utf8.EncodeRune 0x0A).
  - step_advances (utf8.EncodeRune 0x0A).
Qed.

Lemma restartAnsi_advances : forall w w',
  restartAnsi RuneWidth w = Ok w' -> advances w w'.
Proof.
  intros w w' H. unfold restartAnsi in H.
  destruct (negb (wroteBegin w) && negb (ansi w)
            && negb (len (lastAnsi w) =? 0)).
  - apply addWord_advances in H.
    eapply advances_trans; [| exact H]. step_advances (lastAnsi w).
  - inversion H; subst. apply advances_refl.
Qed.

Lemma ansiRune_advances : forall w c, advances w (ansiRune w c).
Proof.
  intros w c. apply (advances_intro _ _ []).
  - unfold ansiRune.
    destruct w; repeat split;
      repeat match goal with
             | |- context [if ?b then _ else _] => destruct b
             end; reflexivity.
  - unfold ansiRune.
    destruct w; rewrite app_nil_r;
      repeat match goal with
             | |- context [if ?b then _ else _] => destruct b
             end; reflexivity.
Qed.

End Advancing.

Section Advancing2.

Variable RuneWidth : rune -> Z.

Lemma writeRune_advances : forall w c w',
  writeRune RuneWidth w c = Ok w' -> advances w w'.
Proof.
  intros w c w' H. unfold writeRune in H.
  destruct (restartAnsi RuneWidth w) as [w1|] eqn:E;
    cbv beta iota zeta delta [bind] in H; [| discriminate].
  apply restartAnsi_advances in E.
  eapply advances_trans; [exact E |]. clear E w.
  assert (B : advances w1 (set_wroteBegin true w1)) by step_advances (@nil byte).
  eapply advances_trans; [exact B |].
  set (w := set_wroteBegin true w1) in *. clearbody w. clear B w1.
  destruct (c =? ESC).
  { inversion H; subst. step_advances (@nil byte). }
  destruct (ansi w).
  { inversion H; subst. apply ansiRune_advances. }
  destruct (inGroup (Newline w) c).
  { match type of H with context [addWord RuneWidth ?w1] =>
      assert (A : advances w w1); [| set (v := w1) in *; clearbody v] end.
    { destruct (len (word w) =? 0); [| apply advances_refl].
      destruct (Limit w <? lineLen w + len (space w)).
      - step_advances (@nil byte).
      - step_advances (space w). }
    destruct (addWord RuneWidth v) as [w2|] eqn:E; simpl in H;
      [| discriminate].
    apply addWord_advances in E. apply addNewLine_advances in H.
    eapply advances_trans; [exact A |].
    eapply advances_trans; eassumption. }
  destruct (unicode.IsSpace c).
  { destruct (addWord RuneWidth w) as [w2|] eqn:E; simpl in H;
      [| discriminate].
    apply addWord_advances in E. inversion H; subst.
    eapply advances_trans; [exact E |]. step_advances (@nil byte). }
  destruct (inGroup (Breakpoints w) c).
  { destruct (addSpace w) as [w2|] eqn:E; simpl in H; [| discriminate].
    destruct (addWord RuneWidth w2) as [w3|] eqn:E2; simpl in H;
      [| discriminate].
    apply addSpace_advances in E. apply addWord_advances in E2.
    inversion H; subst.
    eapply advances_trans; [exact E |].
    eapply advances_trans; [exact E2 |].
    step_advances (utf8.EncodeRune c). }
  match type of H with (if ?b then _ else _) = _ => destruct b end.
  { apply addWord_advances in H.
    eapply advances_trans; [| exact H]. step_advances (@nil byte). }
  match type of H with (if ?b then _ else _) = _ => destruct b end.
  { apply addNewLine_advances in H.
    eapply advances_trans; [| exact H]. step_advances (@nil byte). }
  inversion H; subst. step_advances (@nil byte).
Qed.

Lemma writeRunes_advances : forall s w w',
  writeRunes RuneWidth w s = Ok w' -> advances w w'.
Proof.
  induction s as [|c s IH]; intros w w' H; simpl in H.
  - inversion H; subst. apply advances_refl.
  - destruct (writeRune RuneWidth w c) as [w1|] eqn:E; simpl in H;
      [| discriminate].
    apply writeRune_advances in E. apply IH in H.
    eapply advances_trans; eassumption.
Qed.

Lemma Write_advances : forall w b w',
  Write RuneWidth w b = Ok w' -> advances w w'.
Proof.
  intros w b w' H. unfold Write in H.
  destruct (Limit w =? 0).
  - inversion H; subst. step_advances b.
  - apply writeRunes_advances in H. exact H.
Qed.

Lemma Close_advances : forall w w',
  Close RuneWidth w = Ok w' -> advances w w'.
Proof.
  intros w w' H. unfold Close in H.
  destruct (PreserveSpaces w).
  - destruct (addSpace w) as [w1|] eqn:E; simpl in H; [| discriminate].
    apply addSpace_advances in E. apply addWord_advances in H.
    eapply advances_trans; eassumption.
  - simpl in H. apply addWord_advances in H. exact H.
Qed.

Lemma writeAll_advances : forall chunks w w',
  writeAll RuneWidth w chunks = Ok w' -> advances w w'.
Proof.
  induction chunks as [|b chunks IH]; intros w w' H; simpl in H.
  - inversion H; subst. apply advances_refl.
  - destruct (Write RuneWidth w b) as [w1|] eqn:E; simpl in H;
      [| discriminate].
    apply Write_advances in E. apply IH in H.
    eapply advances_trans; eassumption.
Qed.

(** After [addWord] nothing is pending in [word]. *)
Lemma addWord_empties : forall w w',
  addWord RuneWidth w = Ok w' -> word w' = [].
Proof.
  intros w w' H. unfold addWord in H.
  destruct (Z.ltb_spec 0 (len (word w))).
  - destruct (addSpace w) as [w1|]; simpl in H; [| discriminate].
    inversion H; subst. destruct w1; reflexivity.
  - inversion H; subst. apply len_zero_inv. assumption.
Qed.

Lemma addSpace_empties : forall w w',
  addSpace w = Ok w' -> space w' = [].
Proof.
  intros w w' H. unfold addSpace in H.
  destruct (len (space w) <=? Limit w - lineLen w).
  - inversion H; subst. destruct w; reflexivity.
  - destruct (strings.Repeat " " (Limit w - lineLen w)) as [r|];
      simpl in H; [| discriminate].
    match type of H with context [spaceLines ?f ?l ?b ?n] =>
      destruct (spaceLines f l b n) as [[b' k]|] end;
      simpl in H; [| discriminate].
    destruct (0 <? k).
    + destruct (strings.Repeat " " k) as [r2|]; simpl in H; [| discriminate].
      inversion H; subst. destruct w; reflexivity.
    + simpl in H. inversion H; subst. destruct w; reflexivity.
Qed.

(** [addSpace] with nothing pending, on a line within the limit. *)
Lemma addSpace_nothing : forall w,
  space w = [] -> lineLen w <= Limit w -> addSpace w = Ok w.
Proof.
  intros w Hs Hl. unfold addSpace. rewrite Hs.
  change (len []) with 0.
  destruct (Z.leb_spec 0 (Limit w - lineLen w)); [| lia].
  destruct w; simpl in *; subst. unfold set_space, buf_Write, set_lineLen; simpl.
  rewrite app_nil_r, Z.add_0_r. reflexivity.
Qed.

Lemma addWord_nothing : forall w, word w = [] -> addWord RuneWidth w = Ok w.
Proof. intros w H. unfold addWord. rewrite H. reflexivity. Qed.

End Advancing2.

(** X1. Output that was written stays: [Write] and [Close] only append to the
    output buffer, and neither changes a setting. *)
Theorem output_only_grows :
  forall (RuneWidth : rune -> Z) (w w' : WordWrap),
    (exists b, Write RuneWidth w b = Ok w') \/ Close RuneWidth w = Ok w' ->
    (exists x, WordWrap_Bytes w' = WordWrap_Bytes w ++ x) /\
    sameSettings w w'.
Proof.
  intros rw w w' [[b H] | H].
  - apply Write_advances in H. destruct H as [S A]. split; assumption.
  - apply Close_advances in H. destruct H as [S A]. split; assumption.
Qed.

Lemma output_only_grows_witness :
  match Write narrowWidth (buf_Write (bs "x") (NewWriter 3)) (bs "ab cd ef") with
  | Ok w' => (exists x, WordWrap_Bytes w' = bs "x" ++ x) /\ Limit w' = 3
  | Fail _ => False
  end.
Proof.
  destruct (Write narrowWidth (buf_Write (bs "x") (NewWriter 3)) (bs "ab cd ef"))
    as [w'|f] eqn:E.
  - destruct (output_only_grows narrowWidth
                (buf_Write (bs "x") (NewWriter 3)) w') as [A S].
    + left. exists (bs "ab cd ef"). exact E.
    + split; [exact A | apply S].
  - vm_compute in E. discriminate.
Defined.

(** X2. Calling [Close] a second time changes nothing, unless [PreserveSpaces]
    is set and the line has grown beyond the limit: then the second call
    panics. *)
Theorem Close_twice :
  forall (RuneWidth : rune -> Z) (w w' : WordWrap),
    Close RuneWidth w = Ok w' ->
    (PreserveSpaces w = false \/ lineLen w' <= Limit w' ->
     Close RuneWidth w' = Ok w') /\
    (PreserveSpaces w = true -> Limit w' < lineLen w' ->
     Close RuneWidth w' = Fail NegativeRepeat).
Proof.
  intros rw w w' H.
  pose proof (Close_advances rw w w' H) as [S _].
  destruct S as (_ & _ & _ & _ & _ & _ & Sp).
  split.
  - intros Hc. unfold Close in H.
    assert (Hw : word w' = []).
    { destruct (PreserveSpaces w).
      - destruct (addSpace w) as [w1|]; simpl in H; [| discriminate].
        eapply addWord_empties; eassumption.
      - simpl in H. eapply addWord_empties; eassumption. }
    unfold Close. rewrite Sp.
    destruct (PreserveSpaces w) eqn:P.
    + destruct Hc as [Hc | Hc]; [discriminate |].
      destruct (addSpace w) as [w1|] eqn:E; simpl in H; [| discriminate].
      assert (Hs : space w' = []).
      { apply addSpace_empties in E.
        unfold addWord in H. destruct (0 <? len (word w1)).
        - destruct (addSpace w1) as [w2|] eqn:E2; simpl in H; [| discriminate].
          apply addSpace_empties in E2. inversion H; subst.
          destruct w2; simpl in *; assumption.
        - inversion H; subst. assumption. }
      rewrite addSpace_nothing by assumption. simpl.
      apply addWord_nothing; assumption.
    + simpl. apply addWord_nothing; assumption.
  - intros P Hl. unfold Close. rewrite Sp, P.
    rewrite addSpace_panics by assumption. reflexivity.
Qed.

Lemma Close_twice_witness :
  match Write narrowWidth (NewWriter 5) (bs "ab cdefgh") with
  | Ok w =>
    match Close narrowWidth w with
    | Ok w' => Close narrowWidth w' = Ok w'
    | Fail _ => False
    end
  | Fail _ => False
  end /\
  match Close narrowWidth (word_Write (bs "abc") (set_PreserveSpaces true (NewWriter 2))) with
  | Ok w' => Close narrowWidth w' = Fail NegativeRepeat
  | Fail _ => False
  end.
Proof.
  split.
  - destruct (Write narrowWidth (NewWriter 5) (bs "ab cdefgh")) as [w|f] eqn:E;
      [| vm_compute in E; discriminate].
    destruct (Close narrowWidth w) as [w'|f] eqn:E2.
    + apply (Close_twice narrowWidth w w' E2). left.
      pose proof (Write_advances narrowWidth _ _ _ E) as [S _].
      apply S.
    + vm_compute in E. inversion E; subst. vm_compute in E2. discriminate.
  - destruct (Close narrowWidth
                (word_Write (bs "abc") (set_PreserveSpaces true (NewWriter 2))))
      as [w'|f] eqn:E.
    + apply (Close_twice narrowWidth _ w' E); [reflexivity |].
      vm_compute in E. inversion E; subst. vm_compute. reflexivity.
    + vm_compute in E. discriminate.
Defined.

(** ** Membership, and the shorthand with limit 0 *)

(** X3. [inGroup] is membership. *)
Theorem inGroup_In : forall (a : list rune) (c : rune),
  inGroup a c = true <-> In c a.
Proof.
  induction a as [|v a IH]; intros c; unfold inGroup; fold inGroup.
  - split; [discriminate | intros []].
  - destruct (Z.eqb_spec v c) as [E | N]; simpl.
    + split; [intros _; left; exact E | reflexivity].
    + rewrite IH. split; [intros H; right; exact H |].
      intros [H | H]; [contradiction | exact H].
Qed.

(** X4. With [limit = 0] the shorthand [HardWrap] returns its input as it is:
    not even the tabs are replaced. *)
Theorem HardWrap_limit_zero :
  forall (RuneWidth : rune -> Z) (s tabReplace : bytes),
    wordwrap.HardWrap RuneWidth s 0 tabReplace = Ok s.
Proof.
  intros rw s t. unfold wordwrap.HardWrap.
  rewrite Write_limit_zero by reflexivity.
  cbv beta iota zeta delta [bind].
  rewrite Close_nothing_pending by reflexivity. reflexivity.
Qed.

(** ** Writing in pieces *)

Section Pieces.

Variable RuneWidth : rune -> Z.

Lemma validUTF8_range_app : forall a b,
  validUTF8 a -> utf8.range (a ++ b) = utf8.range a ++ utf8.range b.
Proof.
  intros a b H. unfold validUTF8 in H. rewrite <- H at 1.
  apply range_encodeAll. apply range_valid.
Qed.

Lemma validUTF8_app : forall a b,
  validUTF8 a -> validUTF8 b -> validUTF8 (a ++ b).
Proof.
  intros a b Ha Hb. unfold validUTF8.
  rewrite validUTF8_range_app by assumption.
  rewrite encodeAll_app. unfold validUTF8 in *. now rewrite Ha, Hb.
Qed.

Lemma validUTF8_concat : forall chunks,
  Forall validUTF8 chunks -> validUTF8 (concat chunks).
Proof.
  induction 1 as [|a chunks Ha _ IH]; [reflexivity |].
  simpl. apply validUTF8_app; assumption.
Qed.

Lemma Write_app : forall w a b,
  KeepNewlines w = true -> HardWrap w = false -> validUTF8 a ->
  Write RuneWidth w (a ++ b)
  = (w' <- Write RuneWidth w a ;; Write RuneWidth w' b).
Proof.
  intros w a b Hk Hh Ha. unfold Write at 1 2. rewrite Hk, Hh.
  destruct (Z.eqb_spec (Limit w) 0) as [E | N].
  - simpl. unfold Write. destruct w; simpl in *. subst. simpl.
    unfold buf_Write; simpl. rewrite app_assoc. reflexivity.
  - cbv beta iota zeta. simpl negb. cbv beta iota.
    rewrite validUTF8_range_app by assumption.
    rewrite writeRunes_app.
    destruct (writeRunes RuneWidth w (utf8.range a)) as [w1|] eqn:E;
      [| reflexivity].
    cbv beta iota delta [bind].
    pose proof (writeRunes_advances RuneWidth _ _ _ E) as [S _].
    destruct S as (SL & _ & _ & SK & SH & _ & _).
    unfold Write. rewrite SL, SK, SH, Hk, Hh.
    destruct (Z.eqb_spec (Limit w) 0); [contradiction | reflexivity].
Qed.

Lemma Write_nothing : forall w, Write RuneWidth w [] = Ok w.
Proof.
  intros w. unfold Write.
  destruct (Limit w =? 0).
  - unfold buf_Write. rewrite app_nil_r. destruct w; reflexivity.
  - destruct (KeepNewlines w), (HardWrap w); reflexivity.
Qed.

Lemma writeAll_concat : forall chunks w,
  KeepNewlines w = true -> HardWrap w = false ->
  Forall validUTF8 chunks ->
  writeAll RuneWidth w chunks = Write RuneWidth w (concat chunks).
Proof.
  induction chunks as [|a chunks IH]; intros w Hk Hh Hv.
  - simpl. now rewrite Write_nothing.
  - inversion Hv; subst. simpl. rewrite Write_app by assumption.
    destruct (Write RuneWidth w a) as [w1|] eqn:E; [| reflexivity].
    cbv beta iota delta [bind].
    pose proof (Write_advances RuneWidth _ _ _ E) as [S _].
    destruct S as (_ & _ & _ & SK & SH & _ & _).
    apply IH; [congruence | congruence | assumption].
Qed.

End Pieces.

(** X5. Writing valid UTF-8 in pieces is writing it at once: with
    [KeepNewlines] set and [HardWrap] not set, a series of [Write] calls
    leaves the writer as one call with the concatenation does, so the
    result after [Close] is the same. *)
Theorem written_in_pieces :
  forall (RuneWidth : rune -> Z) (w : WordWrap) (chunks : list bytes),
    KeepNewlines w = true -> HardWrap w = false ->
    Forall validUTF8 chunks ->
    writeAll RuneWidth w chunks = Write RuneWidth w (concat chunks) /\
    session RuneWidth w chunks = session RuneWidth w [concat chunks].
Proof.
  intros rw w chunks Hk Hh Hv.
  assert (H : writeAll rw w chunks = Write rw w (concat chunks))
    by (apply writeAll_concat; assumption).
  split; [exact H |].
  unfold session. rewrite H. simpl.
  destruct (Write rw w (concat chunks)); reflexivity.
Qed.

Lemma written_in_pieces_witness :
  session narrowWidth (NewWriter 4) [bs "ab c"; [xc3; xa9]; bs "d  ef"]
  = session narrowWidth (NewWriter 4) [bs "ab c" ++ [xc3; xa9] ++ bs "d  ef"].
Proof.
  apply (written_in_pieces narrowWidth (NewWriter 4)
           [bs "ab c"; [xc3; xa9]; bs "d  ef"]);
    [reflexivity | reflexivity |].
  repeat constructor.
Defined.

(** ** A negative limit *)

Section NegativeLimit.

Variable RuneWidth : rune -> Z.

Lemma addSpace_negative : forall w,
  negativeLimit w -> addSpace w = Fail NegativeRepeat.
Proof.
  intros w (HL & Hl & _). unfold addSpace. rewrite Hl.
  pose proof (len_nonneg (space w)).
  destruct (Z.leb_spec (len (space w)) (Limit w - 0)); [lia |].
  rewrite Repeat_negative by lia. reflexivity.
Qed.

Lemma addWord_negative : forall w,
  negativeLimit w -> word w <> [] -> addWord RuneWidth w = Fail NegativeRepeat.
Proof.
  intros w N Hw. unfold addWord.
  destruct (Z.ltb_spec 0 (len (word w))) as [H | H].
  - rewrite addSpace_negative by assumption. reflexivity.
  - apply len_zero_inv in H. contradiction.
Qed.

Lemma word_WriteRune_nonempty : forall w c, word (word_WriteRune c w) <> [].
Proof.
  intros w c H. destruct w; simpl in H.
  apply app_eq_nil in H. destruct H as [_ H].
  now apply EncodeRune_nonempty in H.
Qed.

(** One rune: the call panics, or the writer stays as it was with the
    rune pending if it is visible. *)
Lemma writeRune_negative : forall w c,
  negativeLimit w -> c <> ESC ->
  writeRune RuneWidth w c = Fail NegativeRepeat \/
  exists w', writeRune RuneWidth w c = Ok w' /\ negativeLimit w' /\
             (word w <> [] \/ unicode.IsSpace c = false -> word w' <> []).
Proof.
  intros w c N Hc.
  destruct N as (HL & Hl & Hb & Hn & Hh & Hp & Ha & Hla).
  unfold writeRune.
  rewrite restartAnsi_skip by (right; right; assumption).
  cbv beta iota zeta delta [bind].
  replace (c =? ESC) with false by (symmetry; apply Z.eqb_neq; exact Hc).
  assert (N : negativeLimit (set_wroteBegin true w))
    by (destruct w; repeat split; assumption).
  assert (Hw : word (set_wroteBegin true w) = word w) by (destruct w; reflexivity).
  rewrite <- Hw. revert N. clear Hw.
  generalize (set_wroteBegin true w). intros v N.
  destruct N as (VL & Vl & Vb & Vn & Vh & Vp & Va & Vla).
  rewrite Va, Vn, Vb, Vh. cbv beta iota.
  destruct (inGroup defaultNewline c) eqn:Enl.
  { assert (Hsp : unicode.IsSpace c = true).
    { unfold defaultNewline, inGroup in Enl.
      destruct (Z.eqb_spec 10 c); [subst; reflexivity | discriminate]. }
    destruct (Z.eqb_spec (len (word v)) 0) as [E | E].
    - right. pose proof (len_nonneg (space v)).
      destruct (Z.ltb_spec (Limit v) (lineLen v + len (space v))); [| lia].
      assert (Ew : word v = []) by (apply len_zero_inv; lia).
      rewrite addWord_nothing by (destruct v; exact Ew).
      cbv beta iota delta [bind]. unfold addNewLine.
      replace (PreserveSpaces (set_space [] (set_lineLen 0 v))) with false
        by (destruct v; simpl in *; congruence).
      cbv beta iota zeta delta [bind].
      replace (len (lastAnsi (set_space [] (set_lineLen 0 v))) =? 0) with true
        by (destruct v; simpl in *; subst; reflexivity).
      simpl negb. cbv beta iota.
      eexists. split; [reflexivity |].
      split; [destruct v; simpl in *; repeat split; assumption |].
      intros [Hx | Hx]; [contradiction | congruence].
    - left. rewrite addWord_negative; [reflexivity | repeat split; assumption |].
      intros E0. rewrite E0 in E. now apply E. }
  destruct (unicode.IsSpace c) eqn:Esp.
  { destruct (word v) as [|b0 wd] eqn:Ew.
    - right. rewrite addWord_nothing by assumption. simpl.
      eexists. split; [reflexivity |].
      split; [destruct v; simpl in *; repeat split; assumption |].
      intros [Hx | Hx]; [now elim Hx | congruence].
    - left. rewrite addWord_negative; [reflexivity | repeat split; assumption |].
      rewrite Ew. discriminate. }
  destruct (inGroup defaultBreakpoints c).
  { left. rewrite addSpace_negative by (repeat split; assumption).
    reflexivity. }
  simpl andb. cbv beta iota.
  right.
  match goal with |- context [if ?b then _ else _] => destruct b end.
  - unfold addNewLine.
    replace (PreserveSpaces (word_WriteRune c v)) with false
      by (destruct v; simpl in *; congruence).
    cbv beta iota zeta delta [bind].
    replace (len (lastAnsi (word_WriteRune c v)) =? 0) with true
      by (destruct v; simpl in *; subst; reflexivity).
    simpl negb. cbv beta iota.
    eexists. split; [reflexivity |]. split.
    + destruct v; simpl in *; repeat split; assumption.
    + intros _. pose proof (word_WriteRune_nonempty v c) as Hne.
      destruct v; simpl in *. exact Hne.
  - eexists. split; [reflexivity |]. split.
    + destruct v; simpl in *; repeat split; assumption.
    + intros _. apply word_WriteRune_nonempty.
Qed.

Lemma writeRunes_negative : forall rs w,
  negativeLimit w -> noESC rs = true ->
  writeRunes RuneWidth w rs = Fail NegativeRepeat \/
  exists w', writeRunes RuneWidth w rs = Ok w' /\ negativeLimit w' /\
             (word w <> [] \/ visible rs <> [] -> word w' <> []).
Proof.
  induction rs as [|c rs IH]; intros w N Hrs.
  - right. exists w. split; [reflexivity |]. split; [assumption |].
    intros [H | H]; [assumption | now elim H].
  - simpl in Hrs. apply andb_prop in Hrs. destruct Hrs as [Hc Hrs].
    apply negb_true_iff, Z.eqb_neq in Hc.
    simpl writeRunes.
    destruct (writeRune_negative w c N Hc) as [F | (w1 & E & N1 & W1)].
    + left. rewrite F. reflexivity.
    + rewrite E. cbv beta iota delta [bind].
      destruct (IH w1 N1 Hrs) as [F | (w2 & E2 & N2 & W2)].
      * left. exact F.
      * right. exists w2. split; [exact E2 |]. split; [exact N2 |].
        intros H. apply W2.
        unfold visible in H. simpl filter in H.
        destruct (unicode.IsSpace c) eqn:Esp; simpl in H.
        -- destruct H as [H | H]; [left; apply W1; left; exact H |].
           right. exact H.
        -- left. apply W1. right. reflexivity.
Qed.

End NegativeLimit.

(** X6. A negative limit is not rejected and does not disable wrapping: text
    without escape sequences that holds a visible character makes [Bytes]
    (and [String]) panic, since flushing the first word asks
    [strings.Repeat] for a negative number of spaces. *)
Theorem negative_limit_panics :
  forall (RuneWidth : rune -> Z) (s : bytes) (limit : Z),
    limit < 0 ->
    noESC (utf8.range s) = true ->
    visible (utf8.range s) <> [] ->
    Bytes RuneWidth s limit = Fail NegativeRepeat /\
    String RuneWidth s limit = Fail NegativeRepeat.
Proof.
  intros rw s limit Hl He Hv.
  assert (H : Bytes rw s limit = Fail NegativeRepeat).
  { rewrite Bytes_wrapping by lia.
    assert (N : negativeLimit (NewWriter limit))
      by (repeat split; assumption).
    destruct (writeRunes_negative rw _ _ N He) as [F | (w' & E & N' & W')].
    - rewrite F. reflexivity.
    - rewrite E. cbv beta iota delta [bind].
      unfold Close.
      replace (PreserveSpaces w') with false
        by (symmetry; apply N').
      cbv beta iota delta [bind].
      rewrite addWord_negative; [reflexivity | assumption |].
      apply W'. right. assumption. }
  split; [exact H | exact H].
Qed.

Lemma negative_limit_panics_witness :
  Bytes narrowWidth (bs "  a") (-1) = Fail NegativeRepeat /\
  String narrowWidth (bs "  a") (-1) = Fail NegativeRepeat.
Proof.
  apply (negative_limit_panics narrowWidth (bs "  a") (-1));
    [lia | reflexivity | discriminate].
Defined.

(** ** Escape sequences that are copied *)

Section Sequences.

Variable RuneWidth : rune -> Z.

Lemma seqState_start : forall w,
  ansi w = false -> leadingZero w = false ->
  wroteBegin w = true \/ lastAnsi w = [] ->
  writeRune RuneWidth w ESC = Ok (seqState w [ESC] true true).
Proof.
  intros w Ha Hz Hb. rewrite writeRune_ESC by tauto.
  destruct w; simpl in *; subst. unfold seqState; simpl.
  rewrite ?app_nil_r. reflexivity.
Qed.

Lemma seqState_step : forall w seq na c,
  c <> ESC -> IsTerminator c = false -> (c =? 0x30) && na = false ->
  writeRune RuneWidth (seqState w seq na true) c
  = Ok (seqState w (seq ++ [c]) (inGroup [0x5B; 0x3B] c) true).
Proof.
  intros w seq na c Hc Ht Hz.
  rewrite writeRune_ansi by (reflexivity || assumption).
  unfold ansiRune.
  replace (newArgument (set_wroteBegin true (seqState w seq na true)))
    with na by reflexivity.
  rewrite Hz.
  assert (E : encodeAll (seq ++ [c]) = encodeAll seq ++ utf8.EncodeRune c).
  { rewrite encodeAll_app. unfold encodeAll at 2. simpl.
    now rewrite app_nil_r. }
  destruct (inGroup [49; 50; 51; 52; 53; 54; 55; 56; 57] c);
    destruct (inGroup [0x5B; 0x3B] c); cbn -[inGroup utf8.EncodeRune encodeAll];
    rewrite ?Ht; unfold seqState;
    cbn -[inGroup utf8.EncodeRune encodeAll]; rewrite ?Ht;
    cbn -[inGroup utf8.EncodeRune encodeAll];
    rewrite E, !app_assoc; reflexivity.
Qed.

Lemma seqState_body : forall body w seq na,
  plainArgs na body = true ->
  writeRunes RuneWidth (seqState w seq na true) body
  = Ok (seqState w (seq ++ body) (endsArgument na body) true).
Proof.
  induction body as [|c body IH]; intros w seq na H.
  - simpl. rewrite app_nil_r. reflexivity.
  - simpl in H.
    repeat (apply andb_prop in H; destruct H as [H ?]).
    apply negb_true_iff in H. apply Z.eqb_neq in H.
    simpl writeRunes.
    rewrite seqState_step; try assumption;
      try (apply negb_true_iff; assumption).
    cbv beta iota delta [bind]. rewrite IH by assumption.
    rewrite <- app_assoc. reflexivity.
Qed.

Lemma terminator_not_separator : forall t,
  IsTerminator t = true ->
  t <> ESC /\ (t =? 0x30) = false /\ inGroup [0x5B; 0x3B] t = false /\
  inGroup [49; 50; 51; 52; 53; 54; 55; 56; 57] t = false.
Proof.
  intros t H. unfold IsTerminator in H.
  assert (R : 0x40 <= t <= 0x5a \/ 0x61 <= t <= 0x7a) by lia.
  unfold ESC, inGroup.
  repeat match goal with
         | |- context [?a =? ?b] => destruct (Z.eqb_spec a b); try lia
         end.
Qed.

Lemma seqState_end : forall w seq na t,
  IsTerminator t = true ->
  writeRune RuneWidth (seqState w seq na true) t
  = Ok (seqState w (seq ++ [t]) false false).
Proof.
  intros w seq na t Ht.
  destruct (terminator_not_separator t Ht) as (He & Hz & Hs & Hd).
  rewrite writeRune_ansi by (reflexivity || assumption).
  unfold ansiRune. rewrite Hz, Hs, Hd.
  cbn -[inGroup utf8.EncodeRune encodeAll]. rewrite Ht.
  assert (E : encodeAll (seq ++ [t]) = encodeAll seq ++ utf8.EncodeRune t).
  { rewrite encodeAll_app. unfold encodeAll at 2. simpl.
    now rewrite app_nil_r. }
  unfold seqState. cbn -[inGroup utf8.EncodeRune encodeAll].
  rewrite E, !app_assoc. reflexivity.
Qed.

Lemma sequence_verbatim : forall w body t,
  ansi w = false -> leadingZero w = false ->
  wroteBegin w = true \/ lastAnsi w = [] ->
  plainArgs true body = true -> IsTerminator t = true ->
  writeRunes RuneWidth w (ESC :: body ++ [t])
  = Ok (seqState w (ESC :: body ++ [t]) false false).
Proof.
  intros w body t Ha Hz Hb Hp Ht.
  simpl writeRunes. rewrite seqState_start by assumption.
  cbv beta iota delta [bind]. rewrite writeRunes_app.
  rewrite seqState_body by assumption.
  cbv beta iota delta [bind]. simpl writeRunes.
  rewrite seqState_end by assumption. reflexivity.
Qed.

(** Zeros withheld, then the terminator: the sequence ends in a single
    zero and the active style is dropped. *)
Lemma seqState_reset : forall w seq k t,
  IsTerminator t = true ->
  writeRunes RuneWidth (seqState w seq true true) (repeat 0x30 (S k) ++ [t])
  = Ok (resetState w (seq ++ [0x30; t])).
Proof.
  intros w seq k t Ht.
  destruct (terminator_not_separator t Ht) as (He & Hz & Hs & Hd).
  rewrite writeRunes_app.
  change (repeat 48 (S k)) with (48 :: repeat 48 k).
  rewrite leading_zeros_withheld by reflexivity.
  cbv beta iota delta [bind]. simpl writeRunes.
  rewrite writeRune_ansi by (reflexivity || assumption).
  unfold ansiRune. rewrite Hz, Hs, Hd.
  cbn -[inGroup utf8.EncodeRune encodeAll]. rewrite Ht.
  assert (E : encodeAll (seq ++ [0x30; t])
              = (encodeAll seq ++ utf8.EncodeRune 0x30) ++ utf8.EncodeRune t).
  { rewrite encodeAll_app. unfold encodeAll at 2. cbn [flat_map].
    now rewrite app_nil_r, app_assoc. }
  unfold resetState. cbn -[inGroup utf8.EncodeRune encodeAll].
  rewrite E, !app_assoc. reflexivity.
Qed.

End Sequences.

(** X7. An escape sequence in which no argument begins with a zero is copied
    as it is: its runes are added to the pending word and to the active
    style, and the parser is outside a sequence again.  [String] returns
    such a sequence unchanged. *)
Theorem escape_sequence_kept :
  forall (RuneWidth : rune -> Z) (w : WordWrap) (body : list rune) (t : rune),
    ansi w = false -> leadingZero w = false ->
    wroteBegin w = true \/ lastAnsi w = [] ->
    plainArgs true body = true -> IsTerminator t = true ->
    writeRunes RuneWidth w (ESC :: body ++ [t])
    = Ok (seqState w (ESC :: body ++ [t]) false false) /\
    (forall limit, 0 < limit -> Forall validRune body ->
       String RuneWidth (encodeAll (ESC :: body ++ [t])) limit
       = Ok (encodeAll (ESC :: body ++ [t]))).
Proof.
  intros rw w body t Ha Hz Hb Hp Ht.
  split; [apply sequence_verbatim; assumption |].
  intros limit Hl Hv. unfold String. rewrite Bytes_wrapping by lia.
  assert (Hvs : Forall validRune (ESC :: body ++ [t])).
  { constructor.
    - unfold validRune, ESC, utf8.MaxRune, utf8.surrogateMin,
        utf8.surrogateMax. lia.
    - apply Forall_app. split; [assumption |].
      constructor; [| constructor].
      unfold IsTerminator in Ht.
      unfold validRune, utf8.MaxRune, utf8.surrogateMin, utf8.surrogateMax.
      lia. }
  rewrite <- (app_nil_r (encodeAll _)) at 1.
  rewrite range_encodeAll by assumption.
  change (utf8.range []) with (@nil rune). rewrite app_nil_r.
  rewrite sequence_verbatim by (reflexivity || assumption || (right; reflexivity)).
  cbv beta iota delta [bind].
  match goal with |- context [Close rw ?v] =>
    destruct (Close_fits rw v) as (w' & Hc & Hbuf) end.
  - simpl. unfold len. simpl. lia.
  - rewrite Hc. cbv beta iota delta [bind]. rewrite Hbuf. simpl.
    destruct (0 <? len _); reflexivity.
Qed.

Lemma escape_sequence_kept_witness :
  writeRunes narrowWidth (NewWriter 5) [0x1B; 0x5B; 0x31; 0x3B; 0x33; 0x30; 0x6D]
  = Ok (seqState (NewWriter 5) [0x1B; 0x5B; 0x31; 0x3B; 0x33; 0x30; 0x6D]
          false false) /\
  String narrowWidth (esc "[1;30m") 5 = Ok (esc "[1;30m").
Proof.
  destruct (escape_sequence_kept narrowWidth (NewWriter 5)
              [0x5B; 0x31; 0x3B; 0x33; 0x30] 0x6D)
    as [H1 H2]; try reflexivity; [right; reflexivity |].
  split; [exact H1 |].
  apply (H2 5); [lia |].
  repeat constructor;
    unfold utf8.MaxRune, utf8.surrogateMin, utf8.surrogateMax; lia.
Defined.

(** X8. A zero argument at the end of a sequence resets the style: however
    many zeros are written, the sequence ends in a single zero, and no
    style is active afterwards. *)
Theorem zero_argument_resets_style :
  forall (RuneWidth : rune -> Z) (w : WordWrap) (body : list rune)
         (k : nat) (t : rune),
    ansi w = false -> leadingZero w = false ->
    wroteBegin w = true \/ lastAnsi w = [] ->
    plainArgs true body = true -> endsArgument true body = true ->
    IsTerminator t = true ->
    writeRunes RuneWidth w (ESC :: body ++ repeat 0x30 (S k) ++ [t])
    = Ok (resetState w (ESC :: body ++ [0x30; t])).
Proof.
  intros rw w body k t Ha Hz Hb Hp Hn Ht.
  simpl writeRunes. rewrite seqState_start by assumption.
  cbv beta iota delta [bind]. rewrite writeRunes_app.
  rewrite seqState_body by assumption. rewrite Hn.
  cbv beta iota delta [bind].
  change (48 :: repeat 48 k ++ [t]) with (repeat 48 (S k) ++ [t]).
  rewrite seqState_reset by assumption. reflexivity.
Qed.

Lemma zero_argument_resets_style_witness :
  writeRunes narrowWidth (set_lastAnsi (esc "[31m") (set_wroteBegin true (NewWriter 5)))
    [0x1B; 0x5B; 0x31; 0x3B; 0x30; 0x30; 0x6D]
  = Ok (resetState
          (set_lastAnsi (esc "[31m") (set_wroteBegin true (NewWriter 5)))
          [0x1B; 0x5B; 0x31; 0x3B; 0x30; 0x6D]).
Proof.
  apply (zero_argument_resets_style narrowWidth
           (set_lastAnsi (esc "[31m") (set_wroteBegin true (NewWriter 5)))
           [0x5B; 0x31; 0x3B] 1 0x6D); try reflexivity.
  left. reflexivity.
Defined.

(** ** Wrapping changes white space only *)

Lemma visible_app : forall a b, visible (a ++ b) = visible a ++ visible b.
Proof. intros. apply filter_app. Qed.

Lemma blank_valid : forall X, forallb blank X = true -> Forall validRune X.
Proof.
  induction X as [|c X IH]; intros H; [constructor |].
  simpl in H. apply andb_prop in H. destruct H as [Hc HX].
  constructor; [| now apply IH].
  unfold blank in Hc.
  unfold validRune, utf8.MaxRune, utf8.surrogateMin, utf8.surrogateMax.
  destruct (Z.eqb_spec c 32); destruct (Z.eqb_spec c 10);
    try discriminate; subst; lia.
Qed.

Lemma blank_invisible : forall X, forallb blank X = true -> visible X = [].
Proof.
  induction X as [|c X IH]; intros H; [reflexivity |].
  simpl in H. apply andb_prop in H. destruct H as [Hc HX].
  unfold visible. simpl filter. fold (visible X). rewrite IH by assumption.
  unfold blank in Hc.
  destruct (Z.eqb_spec c 32); destruct (Z.eqb_spec c 10);
    try discriminate; subst; reflexivity.
Qed.

Lemma blank_spaces : forall n, forallb blank (repeat 0x20 n) = true.
Proof. induction n; simpl; [reflexivity | assumption]. Qed.

Lemma blank_app : forall a b : list rune,
  forallb blank a = true -> forallb blank b = true ->
  forallb blank (a ++ b) = true.
Proof. intros a b Ha Hb. rewrite forallb_app, Ha, Hb. reflexivity. Qed.

Lemma blank_line : forall n, forallb blank (0x0A :: repeat 0x20 n) = true.
Proof. intros n. cbn [forallb]. rewrite blank_spaces. reflexivity. Qed.

Lemma Repeat_runes : forall n r,
  strings.Repeat " " n = Ok r ->
  r = encodeAll (repeat 0x20 (Z.to_nat n)).
Proof.
  intros n r H. unfold strings.Repeat in H.
  destruct (n <? 0); [discriminate |]. inversion H; subst.
  now rewrite encodeAll_spaces.
Qed.

Lemma spaceLines_blank : forall fuel limit b n b' r,
  spaceLines fuel limit b n = Ok (b', r) ->
  exists X, b' = b ++ encodeAll X /\ forallb blank X = true.
Proof.
  induction fuel as [|fuel IH]; intros limit b n b' r H; simpl in H.
  - destruct (limit <=? n); [discriminate |].
    inversion H; subst. exists []. split; [now rewrite app_nil_r | reflexivity].
  - destruct (limit <=? n).
    + destruct (strings.Repeat " " limit) as [sp|] eqn:E; simpl in H;
        [| discriminate].
      apply Repeat_runes in E. apply IH in H. destruct H as (X & HX & HB).
      exists ((0x0A :: repeat 0x20 (Z.to_nat limit)) ++ X). split.
      * rewrite HX, encodeAll_app, encodeAll_break, <- E, <- app_assoc.
        reflexivity.
      * apply blank_app; [apply blank_line | exact HB].
    + inversion H; subst. exists [].
      split; [now rewrite app_nil_r | reflexivity].
Qed.

Lemma Forall_valid_app : forall a b : list rune,
  Forall validRune a -> Forall validRune b -> Forall validRune (a ++ b).
Proof. intros. apply Forall_app. split; assumption. Qed.

Lemma addSpace_Kept : forall w B S W w',
  Kept w B S W -> addSpace w = Ok w' ->
  exists X, Kept w' (B ++ X) [] W /\ visible X = [].
Proof.
  intros w B S W w' K H. destruct K. unfold addSpace in H.
  destruct (len (space w) <=? Limit w - lineLen w).
  - inversion H; subst. exists S. split; [| assumption].
    constructor; try (destruct w; simpl in *; assumption);
      try reflexivity; try constructor.
    + destruct w; simpl in *. rewrite encodeAll_app. congruence.
    + apply Forall_valid_app; assumption.
  - destruct (strings.Repeat " " (Limit w - lineLen w)) as [r|] eqn:E;
      simpl in H; [| discriminate].
    apply Repeat_runes in E.
    match type of H with context [spaceLines ?f ?l ?b ?n] =>
      destruct (spaceLines f l b n) as [[b' k]|] eqn:E2 end;
      simpl in H; [| discriminate].
    apply spaceLines_blank in E2. destruct E2 as (X & HX & HB).
    simpl in HX.
    set (F := repeat 0x20 (Z.to_nat (Limit w - lineLen w))) in *.
    assert (HF : forallb blank F = true) by apply blank_spaces.
    destruct (0 <? k).
    + destruct (strings.Repeat " " k) as [r2|] eqn:E3; simpl in H;
        [| discriminate].
      apply Repeat_runes in E3. inversion H; subst.
      exists (F ++ X ++ 0x0A :: repeat 0x20 (Z.to_nat k)).
      assert (HA : forallb blank (F ++ X ++ 0x0A :: repeat 0x20 (Z.to_nat k))
                   = true).
      { apply blank_app; [exact HF |].
        apply blank_app; [exact HB | apply blank_line]. }
      split; [| now apply blank_invisible].
      constructor; try (destruct w; simpl in *; assumption);
        try reflexivity; try constructor.
      * destruct w; simpl in *.
        rewrite !encodeAll_app, encodeAll_break, <- !app_assoc.
        congruence.
      * apply Forall_valid_app; [assumption | now apply blank_valid].
    + simpl in H. inversion H; subst.
      exists (F ++ X).
      assert (HA : forallb blank (F ++ X) = true)
        by (apply blank_app; assumption).
      split; [| now apply blank_invisible].
      constructor; try (destruct w; simpl in *; assumption);
        try reflexivity; try constructor.
      * destruct w; simpl in *.
        rewrite !encodeAll_app, <- !app_assoc. congruence.
      * apply Forall_valid_app; [assumption | now apply blank_valid].
Qed.

Lemma Kept_fields : forall w v B S W,
  Kept w B S W ->
  buf v = buf w -> space v = space w -> word v = word w ->
  ansi v = ansi w -> lastAnsi v = lastAnsi w -> Newline v = Newline w ->
  Kept v B S W.
Proof.
  intros w v B S W K Hb Hs Hw Ha Hl Hn. destruct K.
  constructor; try assumption; congruence.
Qed.

Lemma visible_one : forall c,
  visible [c] = if unicode.IsSpace c then [] else [c].
Proof. intros c. unfold visible. simpl. destruct (unicode.IsSpace c); reflexivity. Qed.

Lemma encodeAll_one : forall c, encodeAll [c] = utf8.EncodeRune c.
Proof. intros. unfold encodeAll. simpl. apply app_nil_r. Qed.

Section Keeping.

Variable RuneWidth : rune -> Z.

Lemma addWord_Kept : forall w B S W w',
  Kept w B S W -> addWord RuneWidth w = Ok w' ->
  exists B' S', Kept w' B' S' [] /\ visible B' = visible B ++ visible W.
Proof.
  intros w B S W w' K H. unfold addWord in H.
  destruct (Z.ltb_spec 0 (len (word w))).
  - destruct (addSpace w) as [w1|] eqn:E; simpl in H; [| discriminate].
    destruct (addSpace_Kept _ _ _ _ _ K E) as (X & K1 & HX).
    inversion H; subst. exists ((B ++ X) ++ W), [].
    split.
    + destruct K1. constructor; try (destruct w1; simpl in *; assumption);
        try reflexivity; try constructor.
      * destruct w1; simpl in *. rewrite encodeAll_app. congruence.
      * apply Forall_valid_app; assumption.
    + rewrite !visible_app, HX, app_nil_r. reflexivity.
  - inversion H; subst. exists B, S.
    assert (EW : W = []).
    { apply encodeAll_nil_inv. rewrite <- (kept_word _ _ _ _ K).
      apply len_zero_inv. assumption. }
    subst W. split; [exact K | simpl; now rewrite app_nil_r].
Qed.

Lemma addNewLine_Kept : forall w B S W w',
  Kept w B S W -> addNewLine w = Ok w' ->
  exists B', Kept w' B' [] W /\ visible B' = visible B.
Proof.
  intros w B S W w' K H. unfold addNewLine in H.
  assert (E : exists w1 B1 S1,
             (if PreserveSpaces w then addSpace w else Ok w) = Ok w1 /\
             Kept w1 B1 S1 W /\ visible B1 = visible B).
  { destruct (PreserveSpaces w).
    - destruct (addSpace w) as [w1|] eqn:E; [| discriminate].
      destruct (addSpace_Kept _ _ _ _ _ K E) as (X & K1 & HX).
      exists w1, (B ++ X), []. split; [reflexivity |]. split; [exact K1 |].
      rewrite visible_app, HX, app_nil_r. reflexivity.
    - exists w, B, S. split; [reflexivity |]. split; [exact K | reflexivity]. }
  destruct E as (w1 & B1 & S1 & E & K1 & V1). rewrite E in H.
  cbv beta iota zeta delta [bind] in H.
  replace (len (lastAnsi w1) =? 0) with true in H
    by (rewrite (kept_last _ _ _ _ K1); reflexivity).
  simpl negb in H. cbv beta iota in H. inversion H; subst.
  exists (B1 ++ [0x0A]). split.
  - destruct K1. constructor; try (destruct w1; simpl in *; assumption);
      try reflexivity; try constructor.
    + destruct w1; simpl in *. rewrite encodeAll_app, encodeAll_one. congruence.
    + apply Forall_valid_app; [assumption |].
      constructor; [| constructor].
      unfold validRune, utf8.MaxRune, utf8.surrogateMin, utf8.surrogateMax. lia.
  - rewrite visible_app, V1. change (visible [10]) with (@nil rune).
    now rewrite app_nil_r.
Qed.

Lemma inGroup_spaces : forall a c,
  forallb unicode.IsSpace a = true -> inGroup a c = true ->
  unicode.IsSpace c = true.
Proof.
  induction a as [|v a IH]; intros c Ha Hc; unfold inGroup in Hc;
    fold inGroup in Hc; [discriminate |].
  simpl in Ha. apply andb_prop in Ha. destruct Ha as [Hv Ha].
  destruct (Z.eqb_spec v c); [subst; assumption | now apply IH].
Qed.

Lemma writeRune_Kept : forall w B S W c w',
  Kept w B S W -> validRune c -> c <> ESC ->
  writeRune RuneWidth w c = Ok w' ->
  exists B' S' W',
    Kept w' B' S' W' /\
    visible B' ++ visible W' = visible B ++ visible W ++ visible [c].
Proof.
  intros w B S W c w' K Hv Hc H. unfold writeRune in H.
  rewrite restartAnsi_skip in H by (right; right; apply (kept_last _ _ _ _ K)).
  cbv beta iota zeta delta [bind] in H.
  replace (c =? ESC) with false in H by (symmetry; apply Z.eqb_neq; exact Hc).
  assert (K0 : Kept (set_wroteBegin true w) B S W)
    by (apply (Kept_fields w); [assumption | destruct w; reflexivity ..]).
  revert K0 H. generalize (set_wroteBegin true w). clear K w.
  intros w K H.
  rewrite (kept_ansi _ _ _ _ K) in H. cbv beta iota in H.
  destruct (inGroup (Newline w) c) eqn:Enl.
  { assert (Hsp : unicode.IsSpace c = true)
      by (eapply inGroup_spaces; [apply (kept_nl _ _ _ _ K) | exact Enl]).
    rewrite visible_one, Hsp, !app_nil_r.
    match type of H with context [addWord RuneWidth ?w1] =>
      assert (A : exists B1 S1, Kept w1 B1 S1 W /\ visible B1 = visible B);
      [| set (v := w1) in *; clearbody v] end.
    { destruct (len (word w) =? 0).
      - destruct (Limit w <? lineLen w + len (space w)).
        + exists B, []. split; [| reflexivity].
          destruct K. constructor;
            try (destruct w; simpl in *; assumption); try reflexivity;
            try constructor.
        + exists (B ++ S), []. split;
            [| rewrite visible_app, (kept_blank _ _ _ _ K), app_nil_r;
               reflexivity].
          destruct K. constructor;
            try (destruct w; simpl in *; assumption); try reflexivity;
            try constructor.
          * destruct w; simpl in *. rewrite encodeAll_app. congruence.
          * apply Forall_valid_app; assumption.
      - exists B, S. split; [exact K | reflexivity]. }
    destruct A as (B1 & S1 & K1 & V1).
    destruct (addWord RuneWidth v) as [w2|] eqn:E; [| discriminate].
    destruct (addWord_Kept _ _ _ _ _ K1 E) as (B2 & S2 & K2 & V2).
    destruct (addNewLine_Kept _ _ _ _ _ K2 H) as (B3 & K3 & V3).
    exists B3, [], []. split; [exact K3 |].
    rewrite V3, V2, V1. simpl. now rewrite app_nil_r. }
  destruct (unicode.IsSpace c) eqn:Esp.
  { rewrite visible_one, Esp, !app_nil_r.
    destruct (addWord RuneWidth w) as [w2|] eqn:E; [| discriminate].
    destruct (addWord_Kept _ _ _ _ _ K E) as (B2 & S2 & K2 & V2).
    inversion H; subst.
    exists B2, (S2 ++ [c]), []. split; [| simpl; now rewrite app_nil_r].
    destruct K2. constructor; try (destruct w2; simpl in *; assumption);
      try reflexivity; try constructor.
    - destruct w2; simpl in *. rewrite encodeAll_app, encodeAll_one. congruence.
    - apply Forall_valid_app; [assumption | constructor; [assumption | constructor]].
    - rewrite visible_app, visible_one, Esp, app_nil_r. assumption. }
  rewrite visible_one, Esp.
  destruct (inGroup (Breakpoints w) c).
  { destruct (addSpace w) as [w2|] eqn:E; [| discriminate].
    destruct (addSpace_Kept _ _ _ _ _ K E) as (X & K2 & HX).
    destruct (addWord RuneWidth w2) as [w3|] eqn:E2; [| discriminate].
    destruct (addWord_Kept _ _ _ _ _ K2 E2) as (B3 & S3 & K3 & V3).
    inversion H; subst.
    exists (B3 ++ [c]), S3, []. split.
    - destruct K3. constructor; try (destruct w3; simpl in *; assumption);
        try reflexivity; try constructor.
      + destruct w3; simpl in *. rewrite encodeAll_app, encodeAll_one. congruence.
      + apply Forall_valid_app; [assumption | constructor; [assumption | constructor]].
    - rewrite visible_app, visible_one, Esp, V3, visible_app, HX.
      rewrite !app_nil_r, <- app_assoc. reflexivity. }
  assert (KW : Kept (word_WriteRune c w) B S (W ++ [c])).
  { destruct K. constructor; try (destruct w; simpl in *; assumption).
    - destruct w; simpl in *. rewrite encodeAll_app, encodeAll_one. congruence.
    - apply Forall_valid_app; [assumption | constructor; [assumption | constructor]]. }
  assert (VW : visible (W ++ [c]) = visible W ++ [c])
    by (rewrite visible_app, visible_one, Esp; reflexivity).
  match type of H with (if ?b then _ else _) = _ => destruct b end.
  { destruct (addWord_Kept _ _ _ _ _ KW H) as (B2 & S2 & K2 & V2).
    exists B2, S2, []. split; [exact K2 |].
    rewrite V2, VW, app_nil_r. reflexivity. }
  match type of H with (if ?b then _ else _) = _ => destruct b end.
  { destruct (addNewLine_Kept _ _ _ _ _ KW H) as (B2 & K2 & V2).
    exists B2, [], (W ++ [c]). split; [exact K2 |].
    rewrite V2, VW. reflexivity. }
  inversion H; subst. exists B, S, (W ++ [c]). split; [exact KW |].
  rewrite VW. reflexivity.
Qed.

End Keeping.

Section Keeping2.

Variable RuneWidth : rune -> Z.

Lemma writeRunes_Kept : forall rs w B S W w',
  Kept w B S W -> Forall validRune rs -> noESC rs = true ->
  writeRunes RuneWidth w rs = Ok w' ->
  exists B' S' W',
    Kept w' B' S' W' /\
    visible B' ++ visible W' = visible B ++ visible W ++ visible rs.
Proof.
  induction rs as [|c rs IH]; intros w B S W w' K Hv He H.
  - simpl in H. inversion H; subst. exists B, S, W.
    split; [exact K | simpl; now rewrite app_nil_r].
  - inversion Hv as [|? ? Hvc Hvrs]; subst. simpl in He. apply andb_prop in He.
    destruct He as [Hc He]. apply negb_true_iff, Z.eqb_neq in Hc.
    simpl in H.
    destruct (writeRune RuneWidth w c) as [w1|] eqn:E; simpl in H;
      [| discriminate].
    destruct (writeRune_Kept _ _ _ _ _ _ _ K Hvc Hc E)
      as (B1 & S1 & W1 & K1 & V1).
    destruct (IH _ _ _ _ _ K1 Hvrs He H)
      as (B2 & S2 & W2 & K2 & V2).
    exists B2, S2, W2. split; [exact K2 |].
    rewrite V2, app_assoc, V1.
    change (c :: rs) with ([c] ++ rs). rewrite (visible_app [c] rs).
    rewrite <- !app_assoc. reflexivity.
Qed.

Lemma noESC_app : forall a b, noESC (a ++ b) = noESC a && noESC b.
Proof. intros. apply forallb_app. Qed.

Lemma Write_tabsReplaced : forall w b,
  Limit w <> 0 -> KeepNewlines w = true ->
  Write RuneWidth w b = writeRunes RuneWidth w (utf8.range (tabsReplaced w b)).
Proof.
  intros w b HL Hk. unfold Write, tabsReplaced. rewrite Hk.
  destruct (Z.eqb_spec (Limit w) 0); [contradiction | reflexivity].
Qed.

Lemma writeAll_Kept : forall chunks h t w B S W w',
  Kept w B S W -> Limit w <> 0 -> KeepNewlines w = true ->
  HardWrap w = h -> TabReplace w = t ->
  forallb (fun b => noESC (utf8.range
                             (if h then strings.Replace b x09 t else b)))
          chunks = true ->
  writeAll RuneWidth w chunks = Ok w' ->
  exists B' S' W',
    Kept w' B' S' W' /\
    visible B' ++ visible W'
    = visible B ++ visible W
      ++ visible (flat_map
                    (fun b => utf8.range
                                (if h then strings.Replace b x09 t else b))
                    chunks).
Proof.
  induction chunks as [|b chunks IH]; intros h t w B S W w' K HL Hk Hh Ht He H.
  - simpl in H. inversion H; subst. exists B, S, W.
    split; [exact K | simpl; now rewrite app_nil_r].
  - simpl in He. apply andb_prop in He. destruct He as [Hb He].
    simpl in H.
    destruct (Write RuneWidth w b) as [w1|] eqn:E; simpl in H;
      [| discriminate].
    pose proof (Write_advances RuneWidth _ _ _ E) as [St _].
    destruct St as (SL & _ & _ & SK & SH & ST & _).
    rewrite Write_tabsReplaced in E by assumption.
    unfold tabsReplaced in E. rewrite Hh, Ht in E.
    destruct (writeRunes_Kept _ _ _ _ _ _ K (range_valid _) Hb E)
      as (B1 & S1 & W1 & K1 & V1).
    destruct (IH h t w1 B1 S1 W1 w' K1) as (B2 & S2 & W2 & K2 & V2);
      try congruence; try assumption.
    exists B2, S2, W2. split; [exact K2 |].
    rewrite V2, app_assoc, V1. cbn [flat_map]. rewrite visible_app.
    rewrite <- !app_assoc. reflexivity.
Qed.

Lemma Close_Kept : forall w B S W w',
  Kept w B S W -> Close RuneWidth w = Ok w' ->
  exists B' S', Kept w' B' S' [] /\ visible B' = visible B ++ visible W.
Proof.
  intros w B S W w' K H. unfold Close in H.
  destruct (PreserveSpaces w).
  - destruct (addSpace w) as [w1|] eqn:E; simpl in H; [| discriminate].
    destruct (addSpace_Kept _ _ _ _ _ K E) as (X & K1 & HX).
    destruct (addWord_Kept _ _ _ _ _ _ K1 H) as (B2 & S2 & K2 & V2).
    exists B2, S2. split; [exact K2 |].
    rewrite V2, visible_app, HX, app_nil_r. reflexivity.
  - simpl in H. eapply addWord_Kept; eassumption.
Qed.

Lemma Kept_fresh : forall w,
  fresh w -> forallb unicode.IsSpace (Newline w) = true -> Kept w [] [] [].
Proof.
  intros w (Hb & Hs & Hw & _ & Ha & _ & Hl & _) Hn.
  constructor; try assumption; try constructor; reflexivity.
Qed.

End Keeping2.

(** X9. Wrapping changes white space only.  With [KeepNewlines] set, whatever
    the limit, the breakpoints, [PreserveSpaces] and [HardWrap] are, and as
    long as every character of [Newline] is white space: when the input
    (after the replacement of tabs, if [HardWrap] is set) holds no escape
    sequence, the visible characters of the result are those of the input,
    in the same order. *)
Theorem visible_text_kept :
  forall (RuneWidth : rune -> Z) (w : WordWrap) (chunks : list bytes)
         (out : bytes),
    fresh w -> Limit w <> 0 -> KeepNewlines w = true ->
    forallb unicode.IsSpace (Newline w) = true ->
    forallb (fun b => noESC (utf8.range (tabsReplaced w b))) chunks = true ->
    session RuneWidth w chunks = Ok out ->
    visible (utf8.range out)
    = visible (flat_map (fun b => utf8.range (tabsReplaced w b)) chunks).
Proof.
  intros rw w chunks out Hf HL Hk Hn He H.
  unfold session in H.
  destruct (writeAll rw w chunks) as [w1|] eqn:E; simpl in H; [| discriminate].
  destruct (Close rw w1) as [w2|] eqn:E2; simpl in H; [| discriminate].
  inversion H; subst. clear H.
  destruct (writeAll_Kept rw _ _ _ _ _ _ _ _ (Kept_fresh w Hf Hn) HL Hk
              eq_refl eq_refl He E)
    as (B1 & S1 & W1 & K1 & V1).
  destruct (Close_Kept rw _ _ _ _ _ K1 E2) as (B2 & S2 & K2 & V2).
  unfold WordWrap_Bytes. rewrite (kept_buf _ _ _ _ K2).
  rewrite <- (app_nil_r (encodeAll B2)).
  rewrite range_encodeAll by apply (kept_B _ _ _ _ K2).
  change (utf8.range []) with (@nil rune). rewrite app_nil_r.
  rewrite V2, V1. reflexivity.
Qed.

Lemma visible_text_kept_witness :
  match session narrowWidth slashWriter
          [bs "ab  c-d e/f" ++ [x0d]; [xff] ++ bs "gh   ij"] with
  | Ok out =>
    visible (utf8.range out)
    = visible (utf8.range (bs "ab  c-d e/f" ++ [x0d])
               ++ utf8.range ([xff] ++ bs "gh   ij"))
  | Fail _ => False
  end /\
  match session narrowWidth
          (set_TabReplace (bs "  ") (set_HardWrap true (NewWriter 3)))
          [bs "abcde" ++ [x09] ++ bs "fg"] with
  | Ok out => visible (utf8.range out) = utf8.range (bs "abcdefg")
  | Fail _ => False
  end.
Proof.
  split.
  - destruct (session narrowWidth slashWriter
                [bs "ab  c-d e/f" ++ [x0d]; [xff] ++ bs "gh   ij"])
      as [out|f] eqn:E.
    + rewrite (visible_text_kept narrowWidth slashWriter
                 [bs "ab  c-d e/f" ++ [x0d]; [xff] ++ bs "gh   ij"] out);
        [ cbn [flat_map]; rewrite app_nil_r; reflexivity
        | repeat split | discriminate | reflexivity
        | vm_compute; reflexivity | vm_compute; reflexivity | exact E ].
    + vm_compute in E. discriminate.
  - destruct (session narrowWidth
                (set_TabReplace (bs "  ") (set_HardWrap true (NewWriter 3)))
                [bs "abcde" ++ [x09] ++ bs "fg"])
      as [out|f] eqn:E.
    + rewrite (visible_text_kept narrowWidth
                 (set_TabReplace (bs "  ") (set_HardWrap true (NewWriter 3)))
                 [bs "abcde" ++ [x09] ++ bs "fg"] out);
        [ vm_compute; reflexivity
        | repeat split | discriminate | reflexivity
        | vm_compute; reflexivity | vm_compute; reflexivity | exact E ].
    + vm_compute in E. discriminate.
Defined.

(** ** Text that fits *)

Lemma trailingBlank_snoc : forall seen c,
  trailingBlank (seen ++ [c]) = unicode.IsSpace c && negb (lineBreak c).
Proof. intros. unfold trailingBlank. rewrite last_last. reflexivity. Qed.

Section Fitting.

Variable RuneWidth : rune -> Z.
Variable limit : Z.

Hypothesis RuneWidth_nonneg : forall c, 0 <= RuneWidth c.

Lemma column_nonneg : forall c, 0 <= column RuneWidth c.
Proof.
  intros c. unfold column.
  destruct (unicode.IsSpace c); [apply len_nonneg | apply RuneWidth_nonneg].
Qed.

Lemma roomFor_le : forall rest n,
  roomFor RuneWidth limit n rest = true -> n <= limit.
Proof.
  induction rest as [|c rest IH]; intros n H; simpl in H.
  - now apply Z.leb_le.
  - destruct (lineBreak c).
    + apply andb_prop in H. destruct H as [H _]. now apply Z.leb_le.
    + apply IH in H. pose proof (column_nonneg c). lia.
Qed.

Lemma roomFor_lines : forall rs n,
  (forall l ls, splitAt lineBreak rs = l :: ls ->
     n + columns RuneWidth l <= limit /\
     Forall (fun l => columns RuneWidth l <= limit) ls) ->
  roomFor RuneWidth limit n rs = true.
Proof.
  induction rs as [|c rs IH]; intros n H.
  - simpl. apply Z.leb_le. destruct (H [] [] eq_refl) as [H1 _].
    simpl in H1. lia.
  - cbn [roomFor]. cbn [splitAt] in H. destruct (lineBreak c).
    + destruct (H [] (splitAt lineBreak rs) eq_refl) as [H1 H2].
      simpl in H1. apply andb_true_intro. split; [apply Z.leb_le; lia |].
      apply IH. intros l ls E. rewrite E in H2. inversion H2; subst.
      split; [lia | assumption].
    + apply IH. intros l ls E. rewrite E in H.
      destruct (H (c :: l) ls eq_refl) as [H1 H2].
      split; [| assumption].
      change (columns RuneWidth (c :: l))
        with (column RuneWidth c + columns RuneWidth l) in H1. lia.
Qed.

Lemma Fit_NewWriter : Fit RuneWidth limit (NewWriter limit) [] [] 0.
Proof.
  constructor; try reflexivity; try constructor; try (simpl; lia).
  intros H. now elim H.
Qed.

End Fitting.

Section Fitting2.

Variable RuneWidth : rune -> Z.
Variable limit : Z.

Hypothesis RuneWidth_nonneg : forall c, 0 <= RuneWidth c.

(** Flushing a pending word when the pending spaces fit. *)
Lemma addWord_flush : forall w,
  0 < len (word w) -> len (space w) <= Limit w - lineLen w ->
  addWord RuneWidth w
  = Ok (set_word []
         (buf_Write (word w)
           (set_lineLen (lineLen w + len (space w)
                         + PrintableRuneWidth RuneWidth (word w))
             (set_space [] (buf_Write (space w) w))))).
Proof.
  intros w Hw Hs. unfold addWord.
  destruct (Z.ltb_spec 0 (len (word w))); [| lia].
  rewrite addSpace_fits by assumption.
  destruct w; reflexivity.
Qed.

Lemma addNewLine_plain_default : forall w,
  PreserveSpaces w = false -> lastAnsi w = [] ->
  addNewLine w
  = Ok (set_wroteBegin false
         (set_space [] (set_lineLen 0 (buf_WriteRune 0x0A w)))).
Proof.
  intros w Hp Hl. unfold addNewLine. rewrite Hp.
  cbv beta iota zeta delta [bind]. rewrite Hl. reflexivity.
Qed.

Lemma sumWidth_snoc : forall W c,
  sumWidth RuneWidth (W ++ [c]) = sumWidth RuneWidth W + RuneWidth c.
Proof. intros. rewrite sumWidth_app. simpl. lia. Qed.

Lemma word_empty_runes : forall W, encodeAll W = [] -> sumWidth RuneWidth W = 0.
Proof. intros W H. apply encodeAll_nil_inv in H. subst. reflexivity. Qed.

Lemma newline_is_break : forall c,
  inGroup defaultNewline c = lineBreak c.
Proof.
  intros c. unfold defaultNewline, inGroup, lineBreak.
  destruct (Z.eqb_spec 10 c); destruct (Z.eqb_spec c 10); try reflexivity; lia.
Qed.

Lemma break_is_space : forall c, lineBreak c = true -> unicode.IsSpace c = true.
Proof.
  intros c H. unfold lineBreak in H. apply Z.eqb_eq in H. subst. reflexivity.
Qed.

Ltac fit_fields w :=
  destruct w; simpl in *; subst; try reflexivity; try assumption.

Lemma writeRune_Fit : forall w seen W n c,
  Fit RuneWidth limit w seen W n -> textRune c ->
  (if lineBreak c then n else n + column RuneWidth c) <= limit ->
  exists w' W',
    writeRune RuneWidth w c = Ok w' /\
    Fit RuneWidth limit w' (seen ++ [c]) W'
      (if lineBreak c then 0 else n + column RuneWidth c).
Proof.
  intros w seen W n c F [Hv Hc] Hn.
  pose proof (column_nonneg RuneWidth RuneWidth_nonneg c) as Hcol.
  unfold writeRune.
  rewrite restartAnsi_skip by (right; right; apply (fit_last _ _ _ _ _ _ F)).
  cbv beta iota zeta delta [bind].
  replace (c =? ESC) with false by (symmetry; apply Z.eqb_neq; exact Hc).
  assert (F0 : Fit RuneWidth limit (set_wroteBegin true w) seen W n)
    by (destruct F; constructor; fit_fields w).
  revert F0. generalize (set_wroteBegin true w). clear F w. intros w F.
  assert (HW : 0 <= sumWidth RuneWidth W) by (apply sumWidth_nonneg; assumption).
  pose proof (len_nonneg (space w)) as HS.
  destruct F as [FL Fbp Fnl Fh Fp Fa Fla Fout Fw Ft Flen Froom Fbl].
  rewrite Fa, Fnl, Fbp, Fh. cbv beta iota.
  rewrite newline_is_break.
  assert (Eenc : encodeAll (seen ++ [c]) = encodeAll seen ++ utf8.EncodeRune c)
    by (rewrite encodeAll_app, encodeAll_one; reflexivity).
  destruct (lineBreak c) eqn:Ebr.
  { (* a line break *)
    assert (c = 10) by (unfold lineBreak in Ebr; now apply Z.eqb_eq in Ebr).
    subst c.
    destruct (Z.eqb_spec (len (word w)) 0) as [E0 | E0].
    - assert (Ew : word w = []) by (apply len_zero_inv; lia).
      destruct (Z.ltb_spec (Limit w) (lineLen w + len (space w))); [lia |].
      rewrite addWord_nothing by (destruct w; exact Ew).
      cbv beta iota delta [bind].
      rewrite addNewLine_plain_default by (destruct w; assumption).
      eexists. exists []. split; [reflexivity |].
      constructor; try (fit_fields w); try constructor; try lia.
      + rewrite Eenc, <- Fout, Ew, !app_nil_r, <- !app_assoc. reflexivity.
      + intros H0. now elim H0.
    - assert (Hpos : 0 < len (word w)) by (pose proof (len_nonneg (word w)); lia).
      rewrite addWord_flush by lia.
      cbv beta iota delta [bind].
      rewrite addNewLine_plain_default by (destruct w; assumption).
      eexists. exists []. split; [reflexivity |].
      constructor; try (fit_fields w); try constructor; try lia.
      + rewrite Eenc, <- Fout, !app_nil_r, <- !app_assoc. reflexivity.
      + intros H0. now elim H0. }
  destruct (unicode.IsSpace c) eqn:Esp.
  { (* white space *)
    unfold column in *. rewrite Esp in *.
    destruct (Z.ltb_spec 0 (len (word w))) as [Hpos | Hnone].
    - rewrite addWord_flush by lia.
      cbv beta iota delta [bind].
      eexists. exists []. split; [reflexivity |].
      constructor; try (fit_fields w); try constructor;
        rewrite ?PrintableRuneWidth_text by assumption; try lia.
      + rewrite Eenc, <- Fout, !app_nil_r, <- !app_assoc. reflexivity.
      + intros _ _. rewrite trailingBlank_snoc, Esp, Ebr. reflexivity.
    - assert (Ew : word w = []) by (apply len_zero_inv; lia).
      rewrite addWord_nothing by exact Ew.
      cbv beta iota delta [bind].
      eexists. exists W. split; [reflexivity |].
      constructor; try (fit_fields w); rewrite ?len_app; try lia.
      + rewrite Eenc, <- Fout, Ew, !app_nil_r, <- !app_assoc. reflexivity.
      + intros _ _. rewrite trailingBlank_snoc, Esp, Ebr. reflexivity. }
  unfold column in *. rewrite Esp in *.
  destruct (inGroup defaultBreakpoints c) eqn:Ebp.
  { (* a breakpoint *)
    rewrite addSpace_fits by lia. cbv beta iota delta [bind].
    destruct (Z.ltb_spec 0 (len (word w))) as [Hpos | Hnone].
    - rewrite addWord_flush
        by (destruct w; simpl in *; change (len []) with 0; lia).
      cbv beta iota delta [bind].
      eexists. exists []. split; [reflexivity |].
      constructor; try (fit_fields w); try constructor;
        rewrite ?PrintableRuneWidth_text by assumption;
        change (len []) with 0; try lia.
      + rewrite Eenc, <- Fout, !app_nil_r, <- !app_assoc. reflexivity.
      + intros H0. now elim H0.
    - assert (Ew : word w = []) by (apply len_zero_inv; lia).
      rewrite addWord_nothing by (destruct w; exact Ew).
      cbv beta iota delta [bind].
      eexists. exists W. split; [reflexivity |].
      constructor; try (fit_fields w).
      + rewrite Eenc, <- Fout, Ew, !app_nil_r, <- !app_assoc. reflexivity.
      + lia.
      + change (len []) with 0. pose proof (RuneWidth_nonneg c). lia.
      + intros H0. now elim H0. }
  (* the text of a word *)
  simpl andb. cbv beta iota.
  assert (FtW : Forall textRune (W ++ [c])).
  { apply Forall_app. split; [assumption |].
    constructor; [split; assumption | constructor]. }
  assert (EW : word w ++ utf8.EncodeRune c = encodeAll (W ++ [c])).
  { rewrite encodeAll_app, encodeAll_one. congruence. }
  rewrite EW, PrintableRuneWidth_text by assumption.
  rewrite sumWidth_snoc, FL.
  destruct (Z.ltb_spec limit
              (lineLen w + len (space w) + (sumWidth RuneWidth W + RuneWidth c)));
    [lia |].
  simpl andb. cbv beta iota.
  eexists. exists (W ++ [c]). split; [reflexivity |].
  constructor; try (fit_fields w); try assumption.
  - rewrite Eenc, <- Fout, <- !app_assoc. reflexivity.
  - rewrite sumWidth_snoc. lia.
  - intros _ H0. exfalso. apply app_eq_nil in H0. destruct H0 as [_ H0].
    now apply EncodeRune_nonempty in H0.
Qed.

End Fitting2.

Section Fitting3.

Variable RuneWidth : rune -> Z.
Variable limit : Z.

Hypothesis RuneWidth_nonneg : forall c, 0 <= RuneWidth c.

Lemma writeRunes_Fit : forall rest w seen W n,
  Fit RuneWidth limit w seen W n -> Forall textRune rest ->
  roomFor RuneWidth limit n rest = true ->
  exists w' W' n',
    writeRunes RuneWidth w rest = Ok w' /\
    Fit RuneWidth limit w' (seen ++ rest) W' n' /\ n' <= limit.
Proof.
  induction rest as [|c rest IH]; intros w seen W n F Ht Hr.
  - exists w, W, n. rewrite app_nil_r. split; [reflexivity |].
    split; [exact F |]. simpl in Hr. now apply Z.leb_le.
  - inversion Ht as [|? ? Hc Hrest]; subst.
    cbn [roomFor] in Hr.
    assert (Hn : (if lineBreak c then n else n + column RuneWidth c) <= limit).
    { destruct (lineBreak c).
      - apply andb_prop in Hr. destruct Hr as [Hr _]. now apply Z.leb_le.
      - eapply roomFor_le; eassumption. }
    destruct (writeRune_Fit RuneWidth limit RuneWidth_nonneg _ _ _ _ _ F Hc Hn)
      as (w1 & W1 & E & F1).
    assert (Hr1 : roomFor RuneWidth limit
                    (if lineBreak c then 0 else n + column RuneWidth c) rest
                  = true).
    { destruct (lineBreak c); [| exact Hr].
      apply andb_prop in Hr. now destruct Hr. }
    destruct (IH _ _ _ _ F1 Hrest Hr1) as (w2 & W2 & n2 & E2 & F2 & Hn2).
    exists w2, W2, n2. split.
    + simpl. rewrite E. exact E2.
    + split; [| exact Hn2]. rewrite <- app_assoc in F2. exact F2.
Qed.

Lemma Close_Fit : forall w seen W n,
  Fit RuneWidth limit w seen W n -> n <= limit ->
  trailingBlank seen = false ->
  exists w', Close RuneWidth w = Ok w' /\ buf w' = encodeAll seen.
Proof.
  intros w seen W n F Hn Hb.
  destruct F as [FL Fbp Fnl Fh Fp Fa Fla Fout Fw Ft Flen Froom Fbl].
  assert (HW : 0 <= sumWidth RuneWidth W) by (apply sumWidth_nonneg; assumption).
  destruct (Close_fits RuneWidth w) as (w' & E & Hbuf); [lia |].
  exists w'. split; [exact E |]. rewrite Hbuf, Fp, <- Fout. simpl orb.
  destruct (Z.ltb_spec 0 (len (word w))) as [Hpos | Hnone]; [reflexivity |].
  assert (Ew : word w = []) by (apply len_zero_inv; lia).
  destruct (space w) as [|b sp] eqn:Es; [reflexivity |].
  rewrite Fbl in Hb; [discriminate | discriminate | exact Ew].
Qed.

End Fitting3.

(** [String] on text whose lines fit. *)
Lemma String_fitting :
  forall (RuneWidth : rune -> Z) (limit : Z) (rs : list rune),
    0 < limit ->
    (forall c, 0 <= RuneWidth c) ->
    Forall textRune rs ->
    Forall (fun l => columns RuneWidth l <= limit) (splitAt lineBreak rs) ->
    trailingBlank rs = false ->
    String RuneWidth (encodeAll rs) limit = Ok (encodeAll rs).
Proof.
  intros rw limit rs Hl Hw Ht Hfit Hb.
  unfold String. rewrite Bytes_wrapping by lia.
  rewrite <- (app_nil_r (encodeAll rs)) at 1.
  rewrite range_encodeAll by (apply textRune_valid; assumption).
  change (utf8.range []) with (@nil rune). rewrite app_nil_r.
  assert (Hr : roomFor rw limit 0 rs = true).
  { apply roomFor_lines. intros l ls E. rewrite E in Hfit.
    inversion Hfit; subst. split; [lia | assumption]. }
  destruct (writeRunes_Fit rw limit Hw rs _ [] [] 0
              (Fit_NewWriter rw limit) Ht Hr)
    as (w1 & W1 & n1 & E1 & F1 & Hn1).
  rewrite E1. cbv beta iota delta [bind].
  destruct (Close_Fit rw limit Hw _ _ _ _ F1 Hn1 Hb) as (w2 & E2 & Hbuf).
  rewrite E2. cbv beta iota delta [bind]. rewrite Hbuf. reflexivity.
Qed.

(** X10. Text that fits is left as it is.  When no line of the text has more
    columns than the limit (white space counted by its bytes) and the text
    does not end in white space other than a line break, [String] returns
    the text unchanged: no line break is added and no space is dropped. *)
Theorem fitting_text_unchanged :
  forall (RuneWidth : rune -> Z) (limit : Z) (rs : list rune),
    0 < limit ->
    (forall c, 0 <= RuneWidth c) ->
    Forall textRune rs ->
    Forall (fun l => columns RuneWidth l <= limit) (splitAt lineBreak rs) ->
    trailingBlank rs = false ->
    String RuneWidth (encodeAll rs) limit = Ok (encodeAll rs).
Proof.
  intros rw limit rs Hl Hw Ht Hfit Hb.
  apply String_fitting; assumption.
Qed.

Lemma fitting_text_unchanged_witness :
  String narrowWidth (bs "ab cd" ++ [x0a] ++ bs "  ef-gh" ++ [x0a]) 7
  = Ok (bs "ab cd" ++ [x0a] ++ bs "  ef-gh" ++ [x0a]).
Proof.
  apply (fitting_text_unchanged narrowWidth 7
           [0x61; 0x62; 0x20; 0x63; 0x64; 0x0A;
            0x20; 0x20; 0x65; 0x66; 0x2D; 0x67; 0x68; 0x0A]).
  - lia.
  - intros c. apply narrowWidth_range.
  - repeat constructor;
      unfold utf8.MaxRune, utf8.surrogateMin, utf8.surrogateMax;
      try lia; discriminate.
  - vm_compute. repeat constructor; discriminate.
  - vm_compute. reflexivity.
Defined.

(** ** Hard wrapping *)

Lemma textLines_joinLines : forall b done cur,
  b = encodeAll (joinLines done cur) ->
  Forall (Forall textRune) done -> Forall textRune cur ->
  Forall (fun l => noSep lineBreak l = true) done ->
  noSep lineBreak cur = true ->
  textLines b = done ++ [cur].
Proof.
  intros b done cur Hb Hdt Hct Hdnb Hcnb.
  assert (Hvalid : Forall validRune (joinLines done cur)).
  { unfold joinLines. apply Forall_app. split.
    - apply Forall_flat_map. eapply Forall_impl; [| exact Hdt].
      intros l Hl. apply Forall_app. split.
      + now apply textRune_valid.
      + repeat constructor; apply textRune_break.
    - now apply textRune_valid. }
  unfold textLines. rewrite Hb.
  rewrite <- (app_nil_r (encodeAll _)), range_encodeAll by assumption.
  rewrite app_nil_r. now apply splitAt_joinLines.
Qed.

Section HardWrapping.

Variable RuneWidth : rune -> Z.
Variable limit : Z.

Hypothesis limit_two : 2 <= limit.
Hypothesis RuneWidth_nonneg : forall c, 0 <= RuneWidth c.

Lemma Hard_NewWriter : forall tab,
  Hard RuneWidth limit
    (set_TabReplace tab (set_HardWrap true (NewWriter limit))) [] [] [] [].
Proof.
  intros tab. constructor; try reflexivity; try (simpl; lia);
    try (constructor; fail).
Qed.

(** The line that is being filled ends and an empty one begins. *)
Lemma Hard_break : forall w done cur sp wd cur' wd',
  Hard RuneWidth limit w done cur sp wd ->
  forall v,
  Limit v = Limit w -> Breakpoints v = Breakpoints w ->
  Newline v = Newline w -> HardWrap v = HardWrap w ->
  PreserveSpaces v = PreserveSpaces w -> ansi v = ansi w ->
  lastAnsi v = lastAnsi w ->
  buf v = encodeAll (joinLines (done ++ [cur']) []) ->
  space v = [] -> word v = encodeAll wd' -> lineLen v = 0 ->
  Forall textRune cur' -> noSep lineBreak cur' = true ->
  columns RuneWidth cur' <= limit ->
  Forall textRune wd' -> noSep unicode.IsSpace wd' = true ->
  (wd' = [] \/ sumWidth RuneWidth wd' < limit) ->
  Hard RuneWidth limit v (done ++ [cur']) [] [] wd'.
Proof.
  intros w done cur sp wd cur' wd' H v.
  destruct H as [FL Fbp Fnl Fh Fp Fa Fla Fbuf Fsp Fw Fdt Fct Fst Fwt Fdnb
                  Fcnb Fsnb Fss Fws Fdf Flen Fcf Froom]. intros.
  constructor; try congruence; try assumption;
    try reflexivity; try lia; try (constructor; fail).
  - apply Forall_app. split; [assumption | repeat constructor; assumption].
  - apply Forall_app. split; [assumption | repeat constructor; assumption].
  - apply Forall_app. split; [assumption | repeat constructor; assumption].
  - match goal with H : _ \/ _ |- _ => destruct H as [H | H] end;
      [left; assumption | right].
    match goal with H : space v = [] |- _ => rewrite H end.
    change (len []) with 0. lia.
Qed.

Lemma Hard_columns : forall w done cur sp wd,
  Hard RuneWidth limit w done cur sp wd ->
  columns RuneWidth (cur ++ sp ++ wd)
  = lineLen w + len (space w) + sumWidth RuneWidth wd /\
  columns RuneWidth (cur ++ sp) = lineLen w + len (space w) /\
  PrintableRuneWidth RuneWidth (word w) = sumWidth RuneWidth wd /\
  0 <= sumWidth RuneWidth wd /\ 0 <= len (space w).
Proof.
  intros w done cur sp wd H.
  destruct H as [FL Fbp Fnl Fh Fp Fa Fla Fbuf Fsp Fw Fdt Fct Fst Fwt Fdnb
                  Fcnb Fsnb Fss Fws Fdf Flen Fcf Froom].
  rewrite !columns_app, (columns_spaces RuneWidth sp),
    (columns_solid RuneWidth wd) by assumption.
  rewrite Fw, PrintableRuneWidth_text by assumption.
  rewrite Flen, Fsp.
  repeat split; try lia; [now apply sumWidth_nonneg | apply len_nonneg].
Qed.

(** The state after the pending spaces and the pending word were written
    to the current line. *)
Lemma Hard_flush : forall w done cur sp wd,
  Hard RuneWidth limit w done cur sp wd ->
  lineLen w + len (space w) + sumWidth RuneWidth wd <= limit ->
  Hard RuneWidth limit
    (set_word []
       (buf_Write (word w)
          (set_lineLen (lineLen w + len (space w)
                        + PrintableRuneWidth RuneWidth (word w))
             (set_space [] (buf_Write (space w) w)))))
    done (cur ++ sp ++ wd) [] [].
Proof.
  intros w done cur sp wd H Hfit.
  destruct (Hard_columns _ _ _ _ _ H) as (C1 & C2 & C3 & C4 & C5).
  destruct H as [FL Fbp Fnl Fh Fp Fa Fla Fbuf Fsp Fw Fdt Fct Fst Fwt Fdnb
                  Fcnb Fsnb Fss Fws Fdf Flen Fcf Froom].
  constructor; try (destruct w; simpl in *; congruence);
    try (constructor; fail); try reflexivity.
  - destruct w; simpl in *. subst.
    rewrite <- !joinLines_app, !encodeAll_app, <- !app_assoc. reflexivity.
  - repeat (apply Forall_app; split); assumption.
  - rewrite !noSep_app, Fcnb, Fsnb.
    rewrite solid_noBreak by assumption. reflexivity.
  - change (0 <= lineLen w + len (space w)
                 + PrintableRuneWidth RuneWidth (word w) <= limit). lia.
  - left. reflexivity.
Qed.

End HardWrapping.

Section HardWrapping2.

Variable RuneWidth : rune -> Z.
Variable limit : Z.

Hypothesis limit_two : 2 <= limit.
Hypothesis RuneWidth_nonneg : forall c, 0 <= RuneWidth c.

Lemma Hard_wroteBegin : forall w done cur sp wd b,
  Hard RuneWidth limit w done cur sp wd ->
  Hard RuneWidth limit (set_wroteBegin b w) done cur sp wd.
Proof. intros w done cur sp wd b H. destruct H; constructor; destruct w; assumption. Qed.

(** A word rune joins the pending word. *)
Lemma Hard_word : forall w done cur sp wd c,
  Hard RuneWidth limit w done cur sp wd ->
  textRune c -> unicode.IsSpace c = false ->
  lineLen w + len (space w) + sumWidth RuneWidth (wd ++ [c]) < limit ->
  Hard RuneWidth limit (word_WriteRune c w) done cur sp (wd ++ [c]).
Proof.
  intros w done cur sp wd c H Hc Hs Hr.
  destruct H as [FL Fbp Fnl Fh Fp Fa Fla Fbuf Fsp Fw Fdt Fct Fst Fwt Fdnb
                  Fcnb Fsnb Fss Fws Fdf Flen Fcf Froom].
  constructor; try (destruct w; simpl in *; congruence);
    try (destruct w; simpl in *; assumption).
  - destruct w; simpl in *. rewrite encodeAll_app, encodeAll_one. congruence.
  - apply Forall_app. split; [assumption | repeat constructor; apply Hc].
  - rewrite noSep_app, Fws. simpl. rewrite Hs. reflexivity.
  - right. destruct w; simpl in *. exact Hr.
Qed.

(** A white-space rune joins the pending spaces when no word is pending. *)
Lemma Hard_space : forall w done cur sp c,
  Hard RuneWidth limit w done cur sp [] ->
  textRune c -> unicode.IsSpace c = true -> lineBreak c = false ->
  Hard RuneWidth limit (space_WriteRune c w) done cur (sp ++ [c]) [].
Proof.
  intros w done cur sp c H Hc Hs Hb.
  destruct H as [FL Fbp Fnl Fh Fp Fa Fla Fbuf Fsp Fw Fdt Fct Fst Fwt Fdnb
                  Fcnb Fsnb Fss Fws Fdf Flen Fcf Froom].
  constructor; try (destruct w; simpl in *; congruence);
    try (destruct w; simpl in *; assumption).
  - destruct w; simpl in *. rewrite encodeAll_app, encodeAll_one. congruence.
  - apply Forall_app. split; [assumption | repeat constructor; apply Hc].
  - rewrite noSep_app, Fsnb. simpl. rewrite Hb. reflexivity.
  - rewrite forallb_app, Fss. simpl. rewrite Hs. reflexivity.
  - left. reflexivity.
Qed.

Lemma writeRune_Hard : forall w done cur sp wd c,
  Hard RuneWidth limit w done cur sp wd -> narrowRune RuneWidth c ->
  exists w' done' cur' sp' wd',
    writeRune RuneWidth w c = Ok w' /\
    Hard RuneWidth limit w' done' cur' sp' wd'.
Proof.
  intros w done cur sp wd c H [[Hv Hc] [Hbp Hw1]].
  unfold writeRune.
  rewrite restartAnsi_skip by (right; right; apply (hd_last _ _ _ _ _ _ _ H)).
  cbv beta iota zeta delta [bind].
  replace (c =? ESC) with false by (symmetry; apply Z.eqb_neq; exact Hc).
  apply (Hard_wroteBegin _ _ _ _ _ true) in H.
  revert H. generalize (set_wroteBegin true w). clear w. intros w H.
  destruct (Hard_columns _ _ RuneWidth_nonneg _ _ _ _ _ H)
    as (C1 & C2 & C3 & C4 & C5).
  pose proof H as H'.
  destruct H' as [FL Fbp Fnl Fh Fp Fa Fla Fbuf Fsp Fw Fdt Fct Fst Fwt Fdnb
                  Fcnb Fsnb Fss Fws Fdf Flen Fcf Froom].
  rewrite Fa, Fnl, Fbp, Fh. cbv beta iota.
  rewrite newline_is_break.
  destruct (lineBreak c) eqn:Ebr.
  { (* a line break *)
    assert (c = 10) by (unfold lineBreak in Ebr; now apply Z.eqb_eq in Ebr).
    subst c.
    destruct (Z.eqb_spec (len (word w)) 0) as [E0 | E0].
    - assert (Ew : word w = []) by (apply len_zero_inv; lia).
      assert (Ewd : wd = []) by (apply encodeAll_nil_inv; congruence).
      subst wd.
      destruct (Z.ltb_spec (Limit w) (lineLen w + len (space w))).
      + rewrite addWord_nothing by (destruct w; exact Ew).
        cbv beta iota delta [bind].
        rewrite addNewLine_plain_default by (destruct w; assumption).
        eexists. exists (done ++ [cur]), [], [], []. split; [reflexivity |].
        eapply Hard_break with (w := w); try eassumption;
          try (destruct w; reflexivity); try (left; reflexivity).
        * destruct w; simpl in *. subst.
          rewrite <- joinLines_break, encodeAll_app, encodeAll_one, ?app_nil_r.
          reflexivity.
        * lia.
      + rewrite addWord_nothing by (destruct w; exact Ew).
        cbv beta iota delta [bind].
        rewrite addNewLine_plain_default by (destruct w; assumption).
        eexists. exists (done ++ [cur ++ sp]), [], [], [].
        split; [reflexivity |].
        eapply Hard_break with (w := w); try eassumption;
          try (destruct w; reflexivity); try (left; reflexivity).
        * destruct w; simpl in *. subst.
          rewrite <- joinLines_break, <- joinLines_app, !encodeAll_app,
            encodeAll_one, ?app_nil_r.
          reflexivity.
        * apply Forall_app; split; assumption.
        * rewrite noSep_app, Fcnb, Fsnb. reflexivity.
        * lia.
    - assert (Hpos : 0 < len (word w)) by (pose proof (len_nonneg (word w)); lia).
      assert (Hroom : lineLen w + len (space w) + sumWidth RuneWidth wd < limit).
      { destruct Froom as [Froom | Froom]; [| exact Froom].
        subst wd. rewrite Fw in E0. now elim E0. }
      rewrite addWord_flush by lia.
      cbv beta iota delta [bind].
      assert (HF := Hard_flush _ _ RuneWidth_nonneg _ _ _ _ _ H
                      (Z.lt_le_incl _ _ Hroom)).
      rewrite addNewLine_plain_default
        by (first [apply (hd_pres _ _ _ _ _ _ _ HF)
                  | apply (hd_last _ _ _ _ _ _ _ HF)]).
      eexists. exists (done ++ [cur ++ sp ++ wd]), [], [], [].
      split; [reflexivity |].
      eapply Hard_break with (w := w); try eassumption;
        try (destruct w; reflexivity); try (left; reflexivity).
      * destruct w; simpl in *. subst.
        rewrite <- joinLines_break, <- !joinLines_app, !encodeAll_app,
          encodeAll_one, ?app_nil_r, <- ?app_assoc.
        reflexivity.
      * repeat (apply Forall_app; split); assumption.
      * rewrite !noSep_app, Fcnb, Fsnb.
        rewrite solid_noBreak by assumption. reflexivity.
      * lia. }
  destruct (unicode.IsSpace c) eqn:Esp.
  { (* white space *)
    destruct (Z.ltb_spec 0 (len (word w))) as [Hpos | Hnone].
    - assert (Hroom : lineLen w + len (space w) + sumWidth RuneWidth wd < limit).
      { destruct Froom as [Froom | Froom]; [| exact Froom].
        subst wd. rewrite Fw in Hpos. unfold len in Hpos. simpl in Hpos. lia. }
      rewrite addWord_flush by lia.
      cbv beta iota delta [bind].
      assert (HF := Hard_flush _ _ RuneWidth_nonneg _ _ _ _ _ H
                      (Z.lt_le_incl _ _ Hroom)).
      eexists. exists done, (cur ++ sp ++ wd), ([] ++ [c]), [].
      split; [reflexivity |].
      apply Hard_space; try assumption. split; assumption.
    - assert (Ew : word w = []) by (apply len_zero_inv; lia).
      assert (Ewd : wd = []) by (apply encodeAll_nil_inv; congruence).
      subst wd.
      rewrite addWord_nothing by exact Ew.
      cbv beta iota delta [bind].
      eexists. exists done, cur, (sp ++ [c]), [].
      split; [reflexivity |].
      apply Hard_space; try assumption. split; assumption. }
  rewrite Hbp. specialize (Hw1 eq_refl).
  assert (FtW : Forall textRune (wd ++ [c])).
  { apply Forall_app. split; [assumption |].
    constructor; [split; assumption | constructor]. }
  assert (EW : word w ++ utf8.EncodeRune c = encodeAll (wd ++ [c])).
  { rewrite encodeAll_app, encodeAll_one. congruence. }
  rewrite C3, Hw1, FL. simpl andb.
  destruct (Z.eqb_spec (lineLen w + sumWidth RuneWidth wd + 1 + len (space w))
                       limit) as [Ehard | Ehard].
  { (* the word ends at the limit *)
    assert (HW : Hard RuneWidth limit
                   (set_word []
                      (buf_Write (word (word_WriteRune c w))
                         (set_lineLen
                            (lineLen (word_WriteRune c w)
                             + len (space (word_WriteRune c w))
                             + PrintableRuneWidth RuneWidth
                                 (word (word_WriteRune c w)))
                            (set_space []
                               (buf_Write (space (word_WriteRune c w))
                                  (word_WriteRune c w))))))
                   done (cur ++ sp ++ wd ++ [c]) [] []).
    { clear H.
      constructor; try (destruct w; simpl in *; congruence);
        try (constructor; fail); try reflexivity.
      - destruct w; simpl in *. subst.
        rewrite <- !joinLines_app, !encodeAll_app, encodeAll_one,
          <- !app_assoc. reflexivity.
      - apply Forall_app; split; [assumption |].
        apply Forall_app; split; [assumption | exact FtW].
      - rewrite !noSep_app, Fcnb, Fsnb.
        rewrite solid_noBreak by assumption.
        simpl. rewrite Ebr. reflexivity.
      - change (lineLen w + len (space w)
                + PrintableRuneWidth RuneWidth (word w ++ utf8.EncodeRune c)
                = columns RuneWidth (cur ++ sp ++ wd ++ [c])).
        rewrite EW, PrintableRuneWidth_text by assumption.
        rewrite !columns_app, (columns_spaces RuneWidth sp),
          (columns_solid RuneWidth wd) by assumption.
        rewrite sumWidth_snoc. simpl columns. rewrite Esp.
        rewrite Flen, Fsp. lia.
      - change (0 <= lineLen w + len (space w)
                + PrintableRuneWidth RuneWidth (word w ++ utf8.EncodeRune c)
                <= limit).
        rewrite EW, PrintableRuneWidth_text by assumption.
        rewrite sumWidth_snoc. lia.
      - left. reflexivity. }
    rewrite addWord_flush.
    - eexists. exists done, (cur ++ sp ++ wd ++ [c]), [], [].
      split; [reflexivity | exact HW].
    - change (0 < len (word w ++ utf8.EncodeRune c)). rewrite len_app.
      pose proof (len_nonneg (word w)).
      pose proof (EncodeRune_nonempty c).
      destruct (utf8.EncodeRune c); [congruence |].
      unfold len at 2. simpl length. lia.
    - destruct w; simpl in *. lia. }
  (* the word goes on *)
  rewrite EW, PrintableRuneWidth_text by assumption.
  rewrite sumWidth_snoc, Hw1.
  replace (Limit (word_WriteRune c w)) with limit
    by (destruct w; simpl in *; congruence).
  replace (lineLen (word_WriteRune c w)) with (lineLen w)
    by (destruct w; reflexivity).
  replace (space (word_WriteRune c w)) with (space w)
    by (destruct w; reflexivity).
  rewrite ?FL.
  destruct (Z.ltb_spec limit
              (lineLen w + len (space w) + (sumWidth RuneWidth wd + 1)))
    as [Hover | Hfits];
    destruct (Z.ltb_spec (sumWidth RuneWidth wd + 1) limit)
      as [Hshort | Hlong]; simpl andb; cbv beta iota.
  - (* a break before the word *)
    rewrite addNewLine_plain_default by (destruct w; assumption).
    eexists. exists (done ++ [cur]), [], [], (wd ++ [c]).
    split; [reflexivity |].
    eapply Hard_break with (w := w); try eassumption;
      try (destruct w; reflexivity).
    + destruct w; simpl in *. subst.
      rewrite <- joinLines_break, encodeAll_app, encodeAll_one, ?app_nil_r.
      reflexivity.
    + lia.
    + rewrite noSep_app, Fws. simpl. rewrite Esp. reflexivity.
    + right. rewrite sumWidth_snoc, Hw1. lia.
  - exfalso. destruct Froom as [Froom | Froom]; [| lia].
    subst wd. simpl in Hlong. lia.
  - eexists. exists done, cur, sp, (wd ++ [c]). split; [reflexivity |].
    apply Hard_word; try assumption; [split; assumption |].
    rewrite sumWidth_snoc, Hw1. lia.
  - exfalso. destruct Froom as [Froom | Froom]; [| lia].
    subst wd. simpl in Hlong. lia.
Qed.

End HardWrapping2.

Section HardWrapping3.

Variable RuneWidth : rune -> Z.
Variable limit : Z.

Hypothesis limit_two : 2 <= limit.
Hypothesis RuneWidth_nonneg : forall c, 0 <= RuneWidth c.
Hypothesis space_width :
  forall c, unicode.IsSpace c = true -> RuneWidth c <= len (utf8.EncodeRune c).

Lemma writeRunes_Hard : forall rs w done cur sp wd,
  Hard RuneWidth limit w done cur sp wd ->
  Forall (narrowRune RuneWidth) rs ->
  exists w' done' cur' sp' wd',
    writeRunes RuneWidth w rs = Ok w' /\
    Hard RuneWidth limit w' done' cur' sp' wd'.
Proof.
  induction rs as [|c rs IH]; intros w done cur sp wd H Hrs.
  - exists w, done, cur, sp, wd. split; [reflexivity | exact H].
  - inversion Hrs as [|? ? Hc Hrest]; subst.
    destruct (writeRune_Hard RuneWidth limit limit_two RuneWidth_nonneg
                _ _ _ _ _ _ H Hc)
      as (w1 & d1 & c1 & s1 & wd1 & E & H1).
    destruct (IH _ _ _ _ _ H1 Hrest) as (w2 & d2 & c2 & s2 & wd2 & E2 & H2).
    exists w2, d2, c2, s2, wd2. split; [| exact H2].
    simpl. rewrite E. exact E2.
Qed.

Lemma Close_Hard : forall w done cur sp wd,
  Hard RuneWidth limit w done cur sp wd ->
  exists w' cur',
    Close RuneWidth w = Ok w' /\ Hard RuneWidth limit w' done cur' [] [] \/
    Close RuneWidth w = Ok w /\ wd = [].
Proof.
  intros w done cur sp wd H.
  destruct (Hard_columns _ _ RuneWidth_nonneg _ _ _ _ _ H)
    as (C1 & C2 & C3 & C4 & C5).
  unfold Close. rewrite (hd_pres _ _ _ _ _ _ _ H).
  cbv beta iota delta [bind].
  destruct (Z.ltb_spec 0 (len (word w))) as [Hpos | Hnone].
  - assert (Hroom : lineLen w + len (space w) + sumWidth RuneWidth wd < limit).
    { destruct (hd_room _ _ _ _ _ _ _ H) as [Froom | Froom]; [| exact Froom].
      subst wd. rewrite (hd_word _ _ _ _ _ _ _ H) in Hpos.
      unfold len in Hpos. simpl in Hpos. lia. }
    pose proof (hd_limit _ _ _ _ _ _ _ H) as FL.
    rewrite addWord_flush by lia.
    eexists. exists (cur ++ sp ++ wd). left. split; [reflexivity |].
    apply (Hard_flush _ _ RuneWidth_nonneg _ _ _ _ _ H). lia.
  - exists w, cur. right.
    assert (Ew : word w = []) by (apply len_zero_inv; lia).
    split; [apply addWord_nothing; exact Ew |].
    apply encodeAll_nil_inv. rewrite <- (hd_word _ _ _ _ _ _ _ H). exact Ew.
Qed.

Lemma Hard_lines : forall w done cur sp wd,
  Hard RuneWidth limit w done cur sp wd ->
  forallb (fun l => lineWidth RuneWidth l <=? limit) (textLines (buf w)) = true.
Proof.
  intros w done cur sp wd H.
  destruct H as [FL Fbp Fnl Fh Fp Fa Fla Fbuf Fsp Fw Fdt Fct Fst Fwt Fdnb
                 Fcnb Fsnb Fss Fws Fdf Flen Fcf Froom].
  rewrite (textLines_joinLines _ done cur) by assumption.
  assert (L : forall l, Forall textRune l -> columns RuneWidth l <= limit ->
              (lineWidth RuneWidth l <=? limit) = true).
  { intros l Ht Hl. apply Z.leb_le.
    rewrite lineWidth_noESC by (apply textRune_noESC; assumption).
    pose proof (sumWidth_le_columns RuneWidth space_width l). lia. }
  rewrite forallb_app. apply andb_true_intro. split.
  - apply forallb_forall. intros l Hl.
    rewrite Forall_forall in Fdt, Fdf. apply L; auto.
  - simpl. rewrite andb_true_r. apply L; [assumption | lia].
Qed.

End HardWrapping3.

(** X11. Hard wrapping keeps every line within the limit.  For a limit of at
    least 2 and text (after the replacement of tabs) without escape
    sequences and breakpoint characters whose visible characters are one
    column wide, the shorthand [HardWrap] returns a result, and no line of
    it is wider than the limit, however long the words are. *)
Theorem hard_wrap_within_limit :
  forall (RuneWidth : rune -> Z) (s : bytes) (limit : Z) (tabReplace : bytes),
    2 <= limit ->
    (forall c, 0 <= RuneWidth c) ->
    (forall c, unicode.IsSpace c = true ->
               RuneWidth c <= len (utf8.EncodeRune c)) ->
    plainText (strings.Replace s x09 tabReplace) = true ->
    (forall c, In c (utf8.range (strings.Replace s x09 tabReplace)) ->
               unicode.IsSpace c = false -> RuneWidth c = 1) ->
    exists out,
      wordwrap.HardWrap RuneWidth s limit tabReplace = Ok out /\
      forallb (fun l => lineWidth RuneWidth l <=? limit) (textLines out) = true.
Proof.
  intros rw s limit tab Hl Hn Hs Hp Hw.
  assert (Hrs : Forall (narrowRune rw)
                  (utf8.range (strings.Replace s x09 tab))).
  { pose proof (plainText_inputRunes _ Hp) as Hi.
    rewrite Forall_forall in *. intros c Hc.
    destruct (Hi c Hc) as [Ht Hb].
    split; [exact Ht |]. split; [exact Hb |]. now apply Hw. }
  unfold wordwrap.HardWrap. cbv zeta.
  set (w0 := set_TabReplace tab (set_HardWrap true (NewWriter limit))).
  assert (EW : Write rw w0 s
               = writeRunes rw w0 (utf8.range (strings.Replace s x09 tab))).
  { unfold Write. unfold w0 at 1 2 3. simpl Limit.
    destruct (Z.eqb_spec limit 0); [lia | reflexivity]. }
  rewrite EW.
  destruct (writeRunes_Hard rw limit Hl Hn _ _ _ _ _ _
              (Hard_NewWriter rw limit Hl tab) Hrs)
    as (w1 & d1 & c1 & s1 & wd1 & E1 & H1).
  fold w0 in E1. rewrite E1. cbv beta iota delta [bind].
  destruct (Close_Hard rw limit Hn _ _ _ _ _ H1)
    as (w2 & c2 & [[E2 H2] | [E2 _]]).
  - rewrite E2. cbv beta iota delta [bind]. eexists. split; [reflexivity |].
    eapply Hard_lines; eassumption.
  - rewrite E2. cbv beta iota delta [bind]. eexists. split; [reflexivity |].
    eapply Hard_lines; eassumption.
Qed.

Lemma hard_wrap_within_limit_witness :
  exists out,
    wordwrap.HardWrap narrowWidth (bs "abcdefgh i" ++ [x09] ++ bs "jk") 3 (bs "  ")
    = Ok out /\
    forallb (fun l => lineWidth narrowWidth l <=? 3) (textLines out) = true.
Proof.
  apply (hard_wrap_within_limit narrowWidth
           (bs "abcdefgh i" ++ [x09] ++ bs "jk") 3 (bs "  ")).
  - lia.
  - intros c. apply narrowWidth_range.
  - apply narrowWidth_space.
  - vm_compute. reflexivity.
  - intros c Hin Hsp. vm_compute in Hin.
    repeat (destruct Hin as [Hin | Hin]; [subst c; reflexivity |]).
    destruct Hin.
Defined.

Lemma hard_wrap_example :
  wordwrap.HardWrap narrowWidth (bs "abcdefgh i" ++ [x09] ++ bs "jk") 3 (bs "  ")
  = Ok (bs "abc" ++ [x0a] ++ bs "def" ++ [x0a] ++ bs "gh" ++ [x0a]
        ++ bs "i" ++ [x0a] ++ bs "jk").
Proof. vm_compute. reflexivity. Qed.

(** With a limit of 1 nothing is broken: a rune that is as wide as the
    limit never starts a new line. *)
Lemma hard_wrap_limit_one :
  wordwrap.HardWrap narrowWidth (bs "abc") 1 [] = Ok (bs "abc").
Proof. vm_compute. reflexivity. Qed.

(** ** Chunks of white space *)

Lemma chunks_range : forall s k,
  map fst (utf8.chunks_from k s) = utf8.range_from k s.
Proof.
  induction s as [|b s IH]; intros k; [reflexivity |].
  cbn [utf8.chunks_from utf8.range_from].
  destruct k as [|k]; [| apply IH].
  destruct (utf8.DecodeRune (b :: s)) as [r size].
  cbn [map fst]. rewrite IH. reflexivity.
Qed.

Lemma dropSpaces_all : forall l,
  forallb unicode.IsSpace (map fst l) = true -> strings.dropSpaces l = [].
Proof.
  induction l as [|[r c] l IH]; intros H; [reflexivity |].
  simpl in H. apply andb_prop in H. destruct H as [Hr Hl].
  cbn [strings.dropSpaces]. rewrite Hr. now apply IH.
Qed.

Lemma TrimSpace_blank : forall s,
  forallb unicode.IsSpace (utf8.range s) = true -> strings.TrimSpace s = [].
Proof.
  intros s H. unfold strings.TrimSpace.
  rewrite (dropSpaces_all (utf8.chunks s))
    by (unfold utf8.chunks; rewrite chunks_range; exact H).
  reflexivity.
Qed.

(** X12. With [KeepNewlines] off every [Write] trims its own input: a chunk of
    white space only is dropped altogether, so it does not even separate
    the words written before and after it. *)
Theorem blank_chunk_ignored :
  forall (RuneWidth : rune -> Z) (w : WordWrap) (b : bytes),
    Limit w <> 0 -> KeepNewlines w = false ->
    forallb unicode.IsSpace (utf8.range b) = true ->
    Write RuneWidth w b = Ok w.
Proof.
  intros rw w b HL Hk Hb. unfold Write. rewrite Hk.
  destruct (Z.eqb_spec (Limit w) 0); [contradiction |].
  simpl negb. cbv beta iota zeta.
  rewrite TrimSpace_blank by assumption.
  destruct (HardWrap w); reflexivity.
Qed.

Lemma blank_chunk_ignored_witness :
  Write narrowWidth (word_Write (bs "a") (set_KeepNewlines false (NewWriter 9)))
    (bs "  " ++ [x0a; x09])
  = Ok (word_Write (bs "a") (set_KeepNewlines false (NewWriter 9))) /\
  session narrowWidth (set_KeepNewlines false (NewWriter 9))
    [bs "a"; bs " "; bs "b"] = Ok (bs "ab").
Proof.
  split.
  - apply (blank_chunk_ignored narrowWidth
             (word_Write (bs "a") (set_KeepNewlines false (NewWriter 9)))
             (bs "  " ++ [x0a; x09]));
      [discriminate | reflexivity | reflexivity].
  - vm_compute. reflexivity.
Defined.

(** ** When flushing the spaces fails *)

(** X13. Flushing the pending spaces fails exactly when the line has grown
    beyond the limit.  With a positive limit, [addSpace] returns if and
    only if [lineLen] is at most [Limit]; it then leaves [lineLen] within
    the limit and no spaces pending. *)
Theorem addSpace_succeeds_iff :
  forall w : WordWrap,
    0 < Limit w -> 0 <= lineLen w ->
    ((exists w', addSpace w = Ok w') <-> lineLen w <= Limit w) /\
    (forall w', addSpace w = Ok w' ->
       0 <= lineLen w' <= Limit w' /\ space w' = [] /\ word w' = word w).
Proof.
  intros w HL Hl.
  pose proof (len_nonneg (space w)) as HS.
  split; [split |].
  - intros [w' E]. destruct (Z.le_gt_cases (lineLen w) (Limit w)) as [H | H];
      [exact H |].
    rewrite addSpace_panics in E by lia. discriminate.
  - intros H.
    destruct (Z.le_gt_cases (len (space w)) (Limit w - lineLen w)) as [F | F].
    + eexists. apply addSpace_fits. exact F.
    + eexists. apply addSpace_overflow; lia.
  - intros w' E.
    destruct (Z.le_gt_cases (lineLen w) (Limit w)) as [H | H];
      [| rewrite addSpace_panics in E by lia; discriminate].
    destruct (Z.le_gt_cases (len (space w)) (Limit w - lineLen w)) as [F | F].
    + rewrite addSpace_fits in E by exact F. inversion E; subst.
      destruct w; simpl in *. repeat split; try lia.
    + rewrite addSpace_overflow in E by lia. inversion E; subst.
      pose proof (Z.mod_pos_bound
                    (len (space w) - (Limit w - lineLen w)) (Limit w) HL).
      destruct w; simpl in *. repeat split; try lia.
Qed.

Lemma addSpace_succeeds_iff_witness :
  (exists w', addSpace twelveSpaces = Ok w') /\
  addSpace (set_lineLen 6 twelveSpaces) = Fail NegativeRepeat.
Proof.
  destruct (addSpace_succeeds_iff twelveSpaces) as [[_ H] _];
    [reflexivity | discriminate |].
  split; [apply H; discriminate | vm_compute; reflexivity].
Defined.

(** ** Wrapping twice *)

Lemma trailingBlank_break : forall done x,
  trailingBlank (joinLines (done ++ [x]) []) = false.
Proof.
  intros done x. rewrite <- joinLines_break.
  unfold trailingBlank. rewrite last_last. reflexivity.
Qed.

Lemma trailingBlank_word : forall done pre wd,
  noSep unicode.IsSpace wd = true -> wd <> [] ->
  trailingBlank (joinLines done (pre ++ wd)) = false.
Proof.
  intros done pre wd Hs Hne.
  destruct (exists_last Hne) as (wd' & c & E). subst wd.
  rewrite noSep_app in Hs. apply andb_prop in Hs. destruct Hs as [_ Hc].
  simpl in Hc. rewrite andb_true_r in Hc. apply negb_true_iff in Hc.
  rewrite app_assoc, <- joinLines_app.
  unfold trailingBlank. rewrite last_last, Hc. reflexivity.
Qed.

Section Rewrapping.

Variable RuneWidth : rune -> Z.
Variable limit : Z.

Hypothesis limit_pos : 0 < limit.
Hypothesis RuneWidth_nonneg : forall c, 0 <= RuneWidth c.

Lemma narrowWords_words : forall rs n,
  (forall w ws, splitAt unicode.IsSpace rs = w :: ws ->
     n + sumWidth RuneWidth w < limit /\
     Forall (fun w => sumWidth RuneWidth w < limit) ws) ->
  narrowWords RuneWidth limit n rs = true.
Proof.
  induction rs as [|c rs IH]; intros n H; [reflexivity |].
  cbn [narrowWords]. cbn [splitAt] in H.
  destruct (unicode.IsSpace c).
  - destruct (H [] (splitAt unicode.IsSpace rs) eq_refl) as [_ H2].
    apply IH. intros w ws E. rewrite E in H2. inversion H2; subst.
    split; [lia | assumption].
  - destruct (splitAt unicode.IsSpace rs) as [|w ws] eqn:E.
    + destruct (H [c] [] eq_refl) as [H1 _]. simpl in H1.
      apply andb_true_intro. split; [apply Z.ltb_lt; lia |].
      apply IH. intros w ws E'. discriminate.
    + destruct (H (c :: w) ws eq_refl) as [H1 H2].
      cbn [sumWidth fold_right] in H1. fold (sumWidth RuneWidth w) in H1.
      pose proof (sumWidth_nonneg RuneWidth RuneWidth_nonneg w).
      apply andb_true_intro. split; [apply Z.ltb_lt; lia |].
      apply IH. intros w' ws' E'. inversion E'; subst.
      split; [lia | assumption].
Qed.

Lemma Soft_NewWriter : Soft RuneWidth limit (NewWriter limit) [] [] [] [].
Proof.
  constructor; try reflexivity; try (simpl; lia); try (constructor; fail).
Qed.

(** The line that is being filled ends and an empty one begins. *)
Lemma Soft_break : forall w done cur sp wd cur' wd',
  Soft RuneWidth limit w done cur sp wd ->
  forall v,
  Limit v = Limit w -> Breakpoints v = Breakpoints w ->
  Newline v = Newline w -> HardWrap v = HardWrap w ->
  PreserveSpaces v = PreserveSpaces w -> ansi v = ansi w ->
  lastAnsi v = lastAnsi w ->
  buf v = encodeAll (joinLines (done ++ [cur']) []) ->
  space v = [] -> word v = encodeAll wd' -> lineLen v = 0 ->
  Forall textRune cur' -> noSep lineBreak cur' = true ->
  columns RuneWidth cur' <= limit ->
  Forall textRune wd' -> noSep unicode.IsSpace wd' = true ->
  (wd' = [] \/ sumWidth RuneWidth wd' <= limit) ->
  Soft RuneWidth limit v (done ++ [cur']) [] [] wd'.
Proof.
  intros w done cur sp wd cur' wd' H v.
  destruct H as [FL Fbp Fnl Fh Fp Fa Fla Fbuf Fsp Fw Fdt Fct Fst Fwt Fdnb
                 Fcnb Fsnb Fss Fws Fdf Flen Fcf Froom Ftail].
  intros.
  constructor; try congruence; try assumption;
    try reflexivity; try lia; try (constructor; fail).
  - apply Forall_app. split; [assumption | repeat constructor; assumption].
  - apply Forall_app. split; [assumption | repeat constructor; assumption].
  - apply Forall_app. split; [assumption | repeat constructor; assumption].
  - match goal with H : _ \/ _ |- _ => destruct H as [H | H] end;
      [left; assumption | right].
    match goal with H : space v = [] |- _ => rewrite H end.
    change (len []) with 0. lia.
  - apply trailingBlank_break.
Qed.

Lemma Soft_columns : forall w done cur sp wd,
  Soft RuneWidth limit w done cur sp wd ->
  columns RuneWidth (cur ++ sp ++ wd)
  = lineLen w + len (space w) + sumWidth RuneWidth wd /\
  columns RuneWidth (cur ++ sp) = lineLen w + len (space w) /\
  PrintableRuneWidth RuneWidth (word w) = sumWidth RuneWidth wd /\
  0 <= sumWidth RuneWidth wd /\ 0 <= len (space w).
Proof.
  intros w done cur sp wd H.
  destruct H as [FL Fbp Fnl Fh Fp Fa Fla Fbuf Fsp Fw Fdt Fct Fst Fwt Fdnb
                 Fcnb Fsnb Fss Fws Fdf Flen Fcf Froom Ftail].
  rewrite !columns_app, (columns_spaces RuneWidth sp),
    (columns_solid RuneWidth wd) by assumption.
  rewrite Fw, PrintableRuneWidth_text by assumption.
  rewrite Flen, Fsp.
  repeat split; try lia; [now apply sumWidth_nonneg | apply len_nonneg].
Qed.

(** The state after the pending spaces and the pending word were written
    to the current line. *)
Lemma Soft_flush : forall w done cur sp wd,
  Soft RuneWidth limit w done cur sp wd -> wd <> [] ->
  Soft RuneWidth limit
    (set_word []
       (buf_Write (word w)
          (set_lineLen (lineLen w + len (space w)
                        + PrintableRuneWidth RuneWidth (word w))
             (set_space [] (buf_Write (space w) w)))))
    done (cur ++ sp ++ wd) [] [].
Proof.
  intros w done cur sp wd H Hne.
  destruct (Soft_columns _ _ _ _ _ H) as (C1 & C2 & C3 & C4 & C5).
  destruct H as [FL Fbp Fnl Fh Fp Fa Fla Fbuf Fsp Fw Fdt Fct Fst Fwt Fdnb
                 Fcnb Fsnb Fss Fws Fdf Flen Fcf Froom Ftail].
  assert (Hfit : lineLen w + len (space w) + sumWidth RuneWidth wd <= limit)
    by (destruct Froom; [contradiction | assumption]).
  constructor; try (destruct w; simpl in *; congruence);
    try (constructor; fail); try reflexivity.
  - destruct w; simpl in *. subst.
    rewrite <- !joinLines_app, !encodeAll_app, <- !app_assoc. reflexivity.
  - repeat (apply Forall_app; split); assumption.
  - rewrite !noSep_app, Fcnb, Fsnb.
    rewrite solid_noBreak by assumption. reflexivity.
  - change (0 <= lineLen w + len (space w)
                 + PrintableRuneWidth RuneWidth (word w) <= limit). lia.
  - left. reflexivity.
  - rewrite app_assoc. apply trailingBlank_word; assumption.
Qed.

Lemma Soft_wroteBegin : forall w done cur sp wd b,
  Soft RuneWidth limit w done cur sp wd ->
  Soft RuneWidth limit (set_wroteBegin b w) done cur sp wd.
Proof.
  intros w done cur sp wd b H. destruct H; constructor; destruct w; assumption.
Qed.

(** A word rune joins the pending word. *)
Lemma Soft_word : forall w done cur sp wd c,
  Soft RuneWidth limit w done cur sp wd ->
  textRune c -> unicode.IsSpace c = false ->
  lineLen w + len (space w) + sumWidth RuneWidth (wd ++ [c]) <= limit ->
  Soft RuneWidth limit (word_WriteRune c w) done cur sp (wd ++ [c]).
Proof.
  intros w done cur sp wd c H Hc Hs Hr.
  destruct H as [FL Fbp Fnl Fh Fp Fa Fla Fbuf Fsp Fw Fdt Fct Fst Fwt Fdnb
                 Fcnb Fsnb Fss Fws Fdf Flen Fcf Froom Ftail].
  constructor; try (destruct w; simpl in *; congruence);
    try (destruct w; simpl in *; assumption).
  - destruct w; simpl in *. rewrite encodeAll_app, encodeAll_one. congruence.
  - apply Forall_app. split; [assumption | repeat constructor; apply Hc].
  - rewrite noSep_app, Fws. simpl. rewrite Hs. reflexivity.
  - right. destruct w; simpl in *. exact Hr.
Qed.

(** A white-space rune joins the pending spaces when no word is pending. *)
Lemma Soft_space : forall w done cur sp c,
  Soft RuneWidth limit w done cur sp [] ->
  textRune c -> unicode.IsSpace c = true -> lineBreak c = false ->
  Soft RuneWidth limit (space_WriteRune c w) done cur (sp ++ [c]) [].
Proof.
  intros w done cur sp c H Hc Hs Hb.
  destruct H as [FL Fbp Fnl Fh Fp Fa Fla Fbuf Fsp Fw Fdt Fct Fst Fwt Fdnb
                 Fcnb Fsnb Fss Fws Fdf Flen Fcf Froom Ftail].
  constructor; try (destruct w; simpl in *; congruence);
    try (destruct w; simpl in *; assumption).
  - destruct w; simpl in *. rewrite encodeAll_app, encodeAll_one. congruence.
  - apply Forall_app. split; [assumption | repeat constructor; apply Hc].
  - rewrite noSep_app, Fsnb. simpl. rewrite Hb. reflexivity.
  - rewrite forallb_app, Fss. simpl. rewrite Hs. reflexivity.
  - left. reflexivity.
Qed.

Lemma writeRune_Soft : forall w done cur sp wd c,
  Soft RuneWidth limit w done cur sp wd -> inputRune c ->
  (unicode.IsSpace c = false -> sumWidth RuneWidth wd + RuneWidth c < limit) ->
  exists w' done' cur' sp' wd',
    writeRune RuneWidth w c = Ok w' /\
    Soft RuneWidth limit w' done' cur' sp' wd' /\
    sumWidth RuneWidth wd'
    = if unicode.IsSpace c then 0 else sumWidth RuneWidth wd + RuneWidth c.
Proof.
  intros w done cur sp wd c H [[Hv Hc] Hbp] Hnarrow.
  unfold writeRune.
  rewrite restartAnsi_skip by (right; right; apply (sf_last _ _ _ _ _ _ _ H)).
  cbv beta iota zeta delta [bind].
  replace (c =? ESC) with false by (symmetry; apply Z.eqb_neq; exact Hc).
  apply (Soft_wroteBegin _ _ _ _ _ true) in H.
  revert H. generalize (set_wroteBegin true w). clear w. intros w H.
  destruct (Soft_columns _ _ _ _ _ H) as (C1 & C2 & C3 & C4 & C5).
  pose proof H as H'.
  destruct H' as [FL Fbp Fnl Fh Fp Fa Fla Fbuf Fsp Fw Fdt Fct Fst Fwt Fdnb
                  Fcnb Fsnb Fss Fws Fdf Flen Fcf Froom Ftail].
  rewrite Fa, Fnl, Fbp, Fh. cbv beta iota.
  rewrite newline_is_break.
  destruct (lineBreak c) eqn:Ebr.
  { (* a line break *)
    assert (c = 10) by (unfold lineBreak in Ebr; now apply Z.eqb_eq in Ebr).
    subst c. change (unicode.IsSpace 10) with true. cbv beta iota.
    destruct (Z.eqb_spec (len (word w)) 0) as [E0 | E0].
    - assert (Ew : word w = []) by (apply len_zero_inv; lia).
      assert (Ewd : wd = []) by (apply encodeAll_nil_inv; congruence).
      subst wd.
      destruct (Z.ltb_spec (Limit w) (lineLen w + len (space w))).
      + rewrite addWord_nothing by (destruct w; exact Ew).
        cbv beta iota delta [bind].
        rewrite addNewLine_plain_default by (destruct w; assumption).
        eexists. exists (done ++ [cur]), [], [], [].
        split; [reflexivity |]. split; [| reflexivity].
        eapply Soft_break with (w := w); try eassumption;
          try (destruct w; reflexivity); try (left; reflexivity).
        * destruct w; simpl in *. subst.
          rewrite <- joinLines_break, encodeAll_app, encodeAll_one, ?app_nil_r.
          reflexivity.
        * lia.
      + rewrite addWord_nothing by (destruct w; exact Ew).
        cbv beta iota delta [bind].
        rewrite addNewLine_plain_default by (destruct w; assumption).
        eexists. exists (done ++ [cur ++ sp]), [], [], [].
        split; [reflexivity |]. split; [| reflexivity].
        eapply Soft_break with (w := w); try eassumption;
          try (destruct w; reflexivity); try (left; reflexivity).
        * destruct w; simpl in *. subst.
          rewrite <- joinLines_break, <- joinLines_app, !encodeAll_app,
            encodeAll_one, ?app_nil_r.
          reflexivity.
        * apply Forall_app; split; assumption.
        * rewrite noSep_app, Fcnb, Fsnb. reflexivity.
        * lia.
    - assert (Hpos : 0 < len (word w)) by (pose proof (len_nonneg (word w)); lia).
      assert (Hne : wd <> []).
      { intros E. subst wd. rewrite Fw in E0. now elim E0. }
      assert (Hroom : lineLen w + len (space w) + sumWidth RuneWidth wd <= limit)
        by (destruct Froom; [contradiction | assumption]).
      rewrite addWord_flush by lia.
      cbv beta iota delta [bind].
      assert (HF := Soft_flush _ _ _ _ _ H Hne).
      rewrite addNewLine_plain_default
        by (first [apply (sf_pres _ _ _ _ _ _ _ HF)
                  | apply (sf_last _ _ _ _ _ _ _ HF)]).
      eexists. exists (done ++ [cur ++ sp ++ wd]), [], [], [].
      split; [reflexivity |]. split; [| reflexivity].
      eapply Soft_break with (w := w); try eassumption;
        try (destruct w; reflexivity); try (left; reflexivity).
      * destruct w; simpl in *. subst.
        rewrite <- joinLines_break, <- !joinLines_app, !encodeAll_app,
          encodeAll_one, ?app_nil_r, <- ?app_assoc.
        reflexivity.
      * repeat (apply Forall_app; split); assumption.
      * rewrite !noSep_app, Fcnb, Fsnb.
        rewrite solid_noBreak by assumption. reflexivity.
      * lia. }
  destruct (unicode.IsSpace c) eqn:Esp.
  { (* white space *)
    destruct (Z.ltb_spec 0 (len (word w))) as [Hpos | Hnone].
    - assert (Hne : wd <> []).
      { intros E. subst wd. rewrite Fw in Hpos. unfold len in Hpos.
        simpl in Hpos. lia. }
      assert (Hroom : lineLen w + len (space w) + sumWidth RuneWidth wd <= limit)
        by (destruct Froom; [contradiction | assumption]).
      rewrite addWord_flush by lia.
      cbv beta iota delta [bind].
      assert (HF := Soft_flush _ _ _ _ _ H Hne).
      eexists. exists done, (cur ++ sp ++ wd), ([] ++ [c]), [].
      split; [reflexivity |]. split; [| reflexivity].
      apply Soft_space; try assumption. split; assumption.
    - assert (Ew : word w = []) by (apply len_zero_inv; lia).
      assert (Ewd : wd = []) by (apply encodeAll_nil_inv; congruence).
      subst wd.
      rewrite addWord_nothing by exact Ew.
      cbv beta iota delta [bind].
      eexists. exists done, cur, (sp ++ [c]), [].
      split; [reflexivity |]. split; [| reflexivity].
      apply Soft_space; try assumption. split; assumption. }
  rewrite Hbp. specialize (Hnarrow eq_refl).
  assert (FtW : Forall textRune (wd ++ [c])).
  { apply Forall_app. split; [assumption |].
    constructor; [split; assumption | constructor]. }
  assert (EW : word w ++ utf8.EncodeRune c = encodeAll (wd ++ [c])).
  { rewrite encodeAll_app, encodeAll_one. congruence. }
  simpl andb. cbv beta iota.
  rewrite EW, PrintableRuneWidth_text by assumption.
  rewrite sumWidth_snoc.
  replace (Limit (word_WriteRune c w)) with limit
    by (destruct w; simpl in *; congruence).
  replace (lineLen (word_WriteRune c w)) with (lineLen w)
    by (destruct w; reflexivity).
  replace (space (word_WriteRune c w)) with (space w)
    by (destruct w; reflexivity).
  rewrite ?FL.
  destruct (Z.ltb_spec (sumWidth RuneWidth wd + RuneWidth c) limit)
    as [Hshort | Hlong]; [| lia].
  destruct (Z.ltb_spec limit
              (lineLen w + len (space w)
               + (sumWidth RuneWidth wd + RuneWidth c)))
    as [Hover | Hfits]; simpl andb; cbv beta iota.
  - (* a break before the word *)
    rewrite addNewLine_plain_default by (destruct w; assumption).
    eexists. exists (done ++ [cur]), [], [], (wd ++ [c]).
    split; [reflexivity |]. split; [| apply sumWidth_snoc].
    eapply Soft_break with (w := w); try eassumption;
      try (destruct w; reflexivity).
    + destruct w; simpl in *. subst.
      rewrite <- joinLines_break, encodeAll_app, encodeAll_one, ?app_nil_r.
      reflexivity.
    + lia.
    + rewrite noSep_app, Fws. simpl. rewrite Esp. reflexivity.
    + right. rewrite sumWidth_snoc. lia.
  - eexists. exists done, cur, sp, (wd ++ [c]).
    split; [reflexivity |]. split; [| apply sumWidth_snoc].
    apply Soft_word; try assumption; [split; assumption |].
    rewrite sumWidth_snoc. lia.
Qed.

End Rewrapping.

Section Rewrapping2.

Variable RuneWidth : rune -> Z.
Variable limit : Z.

Hypothesis limit_pos : 0 < limit.
Hypothesis RuneWidth_nonneg : forall c, 0 <= RuneWidth c.

Lemma writeRunes_Soft : forall rs w done cur sp wd,
  Soft RuneWidth limit w done cur sp wd ->
  Forall inputRune rs ->
  narrowWords RuneWidth limit (sumWidth RuneWidth wd) rs = true ->
  exists w' done' cur' sp' wd',
    writeRunes RuneWidth w rs = Ok w' /\
    Soft RuneWidth limit w' done' cur' sp' wd'.
Proof.
  induction rs as [|c rs IH]; intros w done cur sp wd H Hrs Hn.
  - exists w, done, cur, sp, wd. split; [reflexivity | exact H].
  - inversion Hrs as [|? ? Hc Hrest]; subst.
    cbn [narrowWords] in Hn.
    assert (Hnc : unicode.IsSpace c = false ->
                  sumWidth RuneWidth wd + RuneWidth c < limit).
    { intros E. rewrite E in Hn. apply andb_prop in Hn.
      destruct Hn as [Hn _]. now apply Z.ltb_lt. }
    destruct (writeRune_Soft RuneWidth limit limit_pos RuneWidth_nonneg
                _ _ _ _ _ _ H Hc Hnc)
      as (w1 & d1 & c1 & s1 & wd1 & E & H1 & W1).
    assert (Hn1 : narrowWords RuneWidth limit (sumWidth RuneWidth wd1) rs
                  = true).
    { rewrite W1. destruct (unicode.IsSpace c); [exact Hn |].
      apply andb_prop in Hn. now destruct Hn. }
    destruct (IH _ _ _ _ _ H1 Hrest Hn1)
      as (w2 & d2 & c2 & s2 & wd2 & E2 & H2).
    exists w2, d2, c2, s2, wd2. split; [| exact H2].
    simpl. rewrite E. exact E2.
Qed.

(** [Close] flushes the pending word; what was written is text whose
    lines fit and that does not end in a blank. *)
Lemma Close_Soft : forall w done cur sp wd,
  Soft RuneWidth limit w done cur sp wd ->
  exists w' rs,
    Close RuneWidth w = Ok w' /\ buf w' = encodeAll rs /\
    Forall textRune rs /\
    Forall (fun l => columns RuneWidth l <= limit) (splitAt lineBreak rs) /\
    trailingBlank rs = false.
Proof.
  assert (Out : forall w done cur sp wd,
            Soft RuneWidth limit w done cur sp wd ->
            buf w = encodeAll (joinLines done cur) /\
            Forall textRune (joinLines done cur) /\
            Forall (fun l => columns RuneWidth l <= limit)
              (splitAt lineBreak (joinLines done cur)) /\
            trailingBlank (joinLines done cur) = false).
  { intros w done cur sp wd H.
    destruct H as [FL Fbp Fnl Fh Fp Fa Fla Fbuf Fsp Fw Fdt Fct Fst Fwt Fdnb
                   Fcnb Fsnb Fss Fws Fdf Flen Fcf Froom Ftail].
    split; [exact Fbuf |]. split; [| split; [| exact Ftail]].
    - unfold joinLines. apply Forall_app. split; [| assumption].
      apply Forall_flat_map. eapply Forall_impl; [| exact Fdt].
      intros l Hl. apply Forall_app. split; [assumption |].
      repeat constructor; apply textRune_break.
    - rewrite splitAt_joinLines by assumption.
      apply Forall_app. split; [assumption |].
      constructor; [lia | constructor]. }
  intros w done cur sp wd H.
  unfold Close. rewrite (sf_pres _ _ _ _ _ _ _ H).
  cbv beta iota delta [bind].
  destruct (Z.ltb_spec 0 (len (word w))) as [Hpos | Hnone].
  - assert (Hne : wd <> []).
    { intros E. subst wd. rewrite (sf_word _ _ _ _ _ _ _ H) in Hpos.
      unfold len in Hpos. simpl in Hpos. lia. }
    destruct (Soft_columns _ _ RuneWidth_nonneg _ _ _ _ _ H)
      as (C1 & C2 & C3 & C4 & C5).
    pose proof (sf_limit _ _ _ _ _ _ _ H) as FL.
    assert (Hroom : lineLen w + len (space w) + sumWidth RuneWidth wd <= limit)
      by (destruct (sf_room _ _ _ _ _ _ _ H); [contradiction | assumption]).
    rewrite addWord_flush by lia.
    eexists. exists (joinLines done (cur ++ sp ++ wd)).
    split; [reflexivity |].
    apply (Out _ _ _ [] []).
    apply (Soft_flush _ _ RuneWidth_nonneg _ _ _ _ _ H Hne).
  - assert (Ew : word w = []) by (apply len_zero_inv; lia).
    rewrite addWord_nothing by exact Ew.
    exists w, (joinLines done cur). split; [reflexivity |].
    eapply Out; eassumption.
Qed.

End Rewrapping2.

(** X14. Wrapping a second time changes nothing when every word is narrower
    than the limit: for text without escape sequences and breakpoint
    characters, [String] returns a result, none of its lines has more than
    [limit] columns, and [String] on that result returns it unchanged. *)
Theorem rewrapping_narrow_words :
  forall (RuneWidth : rune -> Z) (limit : Z) (s : bytes),
    0 < limit ->
    (forall c, 0 <= RuneWidth c) ->
    plainText s = true ->
    Forall (fun w => sumWidth RuneWidth w < limit) (words (utf8.range s)) ->
    exists out,
      String RuneWidth s limit = Ok out /\
      Forall (fun l => columns RuneWidth l <= limit) (textLines out) /\
      String RuneWidth out limit = Ok out.
Proof.
  intros rw limit s Hl Hw Hp Hwords.
  assert (Hn : narrowWords rw limit (sumWidth rw []) (utf8.range s) = true).
  { apply narrowWords_words; [assumption |]. intros w ws E.
    unfold words in Hwords. rewrite E in Hwords. inversion Hwords; subst.
    split; [simpl; lia | assumption]. }
  destruct (writeRunes_Soft rw limit Hl Hw _ _ _ _ _ _
              (Soft_NewWriter rw limit Hl) (plainText_inputRunes _ Hp) Hn)
    as (w1 & d1 & c1 & s1 & wd1 & E1 & H1).
  destruct (Close_Soft rw limit Hw _ _ _ _ _ H1)
    as (w2 & rs & E2 & Hbuf & Ht & Hfit & Htail).
  exists (encodeAll rs). split; [| split].
  - unfold String. rewrite Bytes_wrapping by lia.
    rewrite E1. cbv beta iota delta [bind].
    rewrite E2. cbv beta iota delta [bind]. rewrite Hbuf. reflexivity.
  - unfold textLines. rewrite <- (app_nil_r (encodeAll rs)).
    rewrite range_encodeAll by (apply textRune_valid; assumption).
    change (utf8.range []) with (@nil rune). rewrite app_nil_r. exact Hfit.
  - apply String_fitting; assumption.
Qed.

Lemma rewrapping_narrow_words_witness :
  exists out,
    String narrowWidth (bs "ab  cd efg" ++ [x0a; x09] ++ bs "h   ") 4 = Ok out /\
    Forall (fun l => columns narrowWidth l <= 4) (textLines out) /\
    String narrowWidth out 4 = Ok out.
Proof.
  apply (rewrapping_narrow_words narrowWidth 4
           (bs "ab  cd efg" ++ [x0a; x09] ++ bs "h   ")).
  - lia.
  - intros c. apply narrowWidth_range.
  - vm_compute. reflexivity.
  - vm_compute. repeat constructor; discriminate.
Defined.

(** ** Breakpoints, and a break inside styled text *)

Section Hyphens.

Variable RuneWidth : rune -> Z.

(** A hyphen when nothing is pending: it is written and not counted. *)
Lemma writeRune_hyphen : forall limit begun b,
  0 < limit ->
  writeRune RuneWidth (set_buf b (set_wroteBegin begun (NewWriter limit))) 0x2D
  = Ok (set_buf (b ++ [x2d]) (set_wroteBegin true (NewWriter limit))).
Proof.
  intros limit begun b Hl. unfold writeRune.
  rewrite restartAnsi_skip by (right; right; reflexivity).
  cbv beta iota zeta delta [bind].
  change (45 =? ESC) with false. cbv beta iota.
  change (ansi (set_wroteBegin true
                  (set_buf b (set_wroteBegin begun (NewWriter limit)))))
    with false.
  cbv beta iota. 
  change (inGroup (Newline (set_wroteBegin true
                  (set_buf b (set_wroteBegin begun (NewWriter limit))))) 45)
    with false.
  change (unicode.IsSpace 45) with false.
  change (inGroup (Breakpoints (set_wroteBegin true
                  (set_buf b (set_wroteBegin begun (NewWriter limit))))) 45)
    with true.
  cbv beta iota.
  rewrite addSpace_fits
    by (change (0 <= limit - 0); lia).
  cbv beta iota delta [bind].
  rewrite addWord_nothing by reflexivity.
  cbv beta iota delta [bind].
  cbv beta iota delta
    [buf_WriteRune buf_Write set_buf set_space set_lineLen set_wroteBegin
     NewWriter Limit Breakpoints Newline KeepNewlines HardWrap TabReplace
     PreserveSpaces buf space word lineLen ansi wroteBegin lastAnsi
     newArgument leadingZero].
  change (utf8.EncodeRune 45) with [x2d]. change (0 + len []) with 0.
  rewrite app_nil_r. reflexivity.
Qed.

Lemma writeRunes_hyphens : forall m limit begun b,
  0 < limit ->
  exists begun',
    writeRunes RuneWidth (set_buf b (set_wroteBegin begun (NewWriter limit)))
      (repeat 0x2D m)
    = Ok (set_buf (b ++ repeat x2d m)
            (set_wroteBegin begun' (NewWriter limit))).
Proof.
  induction m as [|m IH]; intros limit begun b Hl.
  - exists begun. simpl. rewrite app_nil_r. reflexivity.
  - destruct (IH limit true (b ++ [x2d]) Hl) as [begun' E].
    exists begun'. cbn [repeat writeRunes].
    rewrite writeRune_hyphen by assumption.
    cbv beta iota delta [bind]. rewrite E.
    rewrite <- app_assoc. reflexivity.
Qed.

End Hyphens.

(** X15. Breakpoint characters take no room.  A hyphen is written without being
    counted in [lineLen], so a run of hyphens of any length is returned on
    one line, whatever the limit is. *)
Theorem hyphens_take_no_room :
  forall (RuneWidth : rune -> Z) (m : nat) (limit : Z),
    0 < limit ->
    String RuneWidth (repeat x2d m) limit = Ok (repeat x2d m) /\
    textLines (repeat x2d m) = [repeat 0x2D m].
Proof.
  intros rw m limit Hl.
  assert (Hr : utf8.range (repeat x2d m) = repeat 0x2D m).
  { clear. induction m as [|m IH]; [reflexivity |].
    change (repeat x2d (S m)) with (utf8.EncodeRune 0x2D ++ repeat x2d m).
    rewrite range_EncodeRune; [now rewrite IH |].
    unfold validRune, utf8.MaxRune, utf8.surrogateMin, utf8.surrogateMax. lia. }
  split.
  - unfold String. rewrite Bytes_wrapping by lia. rewrite Hr.
    destruct (writeRunes_hyphens rw m limit false [] Hl) as [begun' E].
    change (set_buf [] (set_wroteBegin false (NewWriter limit)))
      with (NewWriter limit) in E.
    rewrite E. reflexivity.
  - unfold textLines. rewrite Hr. apply splitAt_noSep.
    clear. induction m as [|m IH]; [reflexivity | exact IH].
Qed.

Lemma hyphens_take_no_room_witness :
  String narrowWidth (bs "----------") 3 = Ok (bs "----------") /\
  textLines (bs "----------") = [repeat 0x2D 10].
Proof.
  apply (hyphens_take_no_room narrowWidth 10 3). lia.
Defined.

(** X16. A break inside styled text.  When a word rune forces a line break
    while a style is active, the reset sequence is written before the
    break and the word stays pending.  If another rune follows, the loop
    first writes the active style and the pending word after it; if the
    input ends here, [Close] writes the word without the style. *)
Theorem style_across_break :
  forall (RuneWidth : rune -> Z) (w : WordWrap) (c : rune),
    ansi w = false -> lastAnsi w <> [] -> wroteBegin w = true ->
    PreserveSpaces w = false -> HardWrap w = false -> 0 <= Limit w ->
    c <> ESC -> inGroup (Newline w) c = false ->
    unicode.IsSpace c = false -> inGroup (Breakpoints w) c = false ->
    Limit w < lineLen w + len (space w)
              + PrintableRuneWidth RuneWidth (word w ++ utf8.EncodeRune c) ->
    PrintableRuneWidth RuneWidth (word w ++ utf8.EncodeRune c) < Limit w ->
    exists w1,
      writeRune RuneWidth w c = Ok w1 /\
      buf w1 = buf w ++ esc "[0m" ++ [x0a] /\
      word w1 = word w ++ utf8.EncodeRune c /\
      (exists w2, restartAnsi RuneWidth w1 = Ok w2 /\
                  buf w2 = buf w1 ++ lastAnsi w ++ word w1 /\ word w2 = []) /\
      (exists w3, Close RuneWidth w1 = Ok w3 /\ buf w3 = buf w1 ++ word w1).
Proof.
  intros rw w c Ha Hla Hb Hp Hh HL Hc Hn Hs Hbp Hover Hshort.
  assert (E : writeRune rw w c
              = Ok (set_wroteBegin false
                     (set_space []
                        (set_lineLen 0
                           (buf_WriteRune 0x0A
                              (buf_Write (x1b :: bs "[0m")
                                 (word_WriteRune c
                                    (set_wroteBegin true w)))))))).
  { unfold writeRune. rewrite restartAnsi_skip by (left; assumption).
    cbv beta iota zeta delta [bind].
    replace (c =? ESC) with false by (symmetry; apply Z.eqb_neq; exact Hc).
    replace (ansi (set_wroteBegin true w)) with false
      by (destruct w; simpl in *; congruence).
    replace (Newline (set_wroteBegin true w)) with (Newline w)
      by (destruct w; reflexivity).
    replace (Breakpoints (set_wroteBegin true w)) with (Breakpoints w)
      by (destruct w; reflexivity).
    replace (HardWrap (set_wroteBegin true w)) with false
      by (destruct w; simpl in *; congruence).
    rewrite Hn, Hs, Hbp. cbv beta iota. simpl andb. cbv beta iota.
    replace (Limit (word_WriteRune c (set_wroteBegin true w))) with (Limit w)
      by (destruct w; reflexivity).
    replace (lineLen (word_WriteRune c (set_wroteBegin true w)))
      with (lineLen w) by (destruct w; reflexivity).
    replace (space (word_WriteRune c (set_wroteBegin true w)))
      with (space w) by (destruct w; reflexivity).
    replace (word (word_WriteRune c (set_wroteBegin true w)))
      with (word w ++ utf8.EncodeRune c) by (destruct w; reflexivity).
    destruct (Z.ltb_spec (Limit w)
                (lineLen w + len (space w)
                 + PrintableRuneWidth rw (word w ++ utf8.EncodeRune c)));
      [| lia].
    destruct (Z.ltb_spec
                (PrintableRuneWidth rw (word w ++ utf8.EncodeRune c))
                (Limit w)); [| lia].
    cbv beta iota. simpl andb. cbv beta iota.
    unfold addNewLine.
    replace (PreserveSpaces (word_WriteRune c (set_wroteBegin true w)))
      with false by (destruct w; simpl in *; congruence).
    cbv beta iota zeta delta [bind].
    replace (lastAnsi (word_WriteRune c (set_wroteBegin true w)))
      with (lastAnsi w) by (destruct w; reflexivity).
    destruct (Z.eqb_spec (len (lastAnsi w)) 0) as [E0 | E0].
    { exfalso. apply Hla. apply len_zero_inv. lia. }
    reflexivity. }
  eexists. split; [exact E |].
  split; [destruct w; simpl; rewrite <- app_assoc; reflexivity |].
  split; [destruct w; reflexivity |].
  split.
  - match goal with |- context [restartAnsi rw ?v] =>
      destruct (restartAnsi_replays rw v) as (w2 & E2 & B2 & W2) end;
      try (destruct w; simpl in *; congruence);
      try (destruct w; simpl in *; assumption).
    exists w2. split; [exact E2 |]. split; [| exact W2].
    rewrite B2. destruct w; reflexivity.
  - match goal with |- context [Close rw ?v] =>
      destruct (Close_fits rw v) as (w3 & E3 & B3) end.
    + destruct w; simpl in *. change (len []) with 0. lia.
    + exists w3. split; [exact E3 |]. rewrite B3.
      replace (PreserveSpaces _) with false
        by (destruct w; simpl in *; congruence).
      match goal with |- context [space ?v] =>
        replace (space v) with (@nil byte) by (destruct w; reflexivity) end.
      destruct (0 <? _); reflexivity.
Qed.

Lemma style_across_break_witness :
  match Write narrowWidth (NewWriter 3) (esc "[31mab c") with
  | Ok w1 =>
    buf w1 = esc "[31mab" ++ esc "[0m" ++ [x0a] /\ word w1 = bs "c" /\
    (exists w2, restartAnsi narrowWidth w1 = Ok w2 /\
                buf w2 = buf w1 ++ esc "[31m" ++ bs "c") /\
    (exists w3, Close narrowWidth w1 = Ok w3 /\ buf w3 = buf w1 ++ bs "c")
  | Fail _ => False
  end.
Proof.
  destruct (Write narrowWidth (NewWriter 3) (esc "[31mab ")) as [w|f] eqn:E0;
    [| vm_compute in E0; discriminate].
  vm_compute in E0. inversion E0; subst. clear E0.
  match goal with |- match ?t with _ => _ end =>
    replace t with (writeRune narrowWidth
      (mkWordWrap 3 defaultBreakpoints defaultNewline true false [] false
         (esc "[31mab") (bs " ") [] 2 false true (esc "[31m") false false)
      0x63) by (vm_compute; reflexivity) end.
  destruct (style_across_break narrowWidth
      (mkWordWrap 3 defaultBreakpoints defaultNewline true false [] false
         (esc "[31mab") (bs " ") [] 2 false true (esc "[31m") false false)
      0x63) as (w1 & E1 & B1 & W1 & (w2 & E2 & B2 & _) & (w3 & E3 & B3));
    try reflexivity; try discriminate.
  rewrite E1. split; [exact B1 |]. split; [exact W1 |]. split.
  - exists w2. split; [exact E2 |]. rewrite B2, W1. reflexivity.
  - exists w3. split; [exact E3 |]. rewrite B3, W1. reflexivity.
Defined.

(** ** Blanks at the end of the input *)

Section TrailingBlanks.

Variable RuneWidth : rune -> Z.

Lemma addSpace_wroteBegin : forall w b,
  addSpace (set_wroteBegin b w)
  = (w1 <- addSpace w ;; Ok (set_wroteBegin b w1)).
Proof.
  intros w b. unfold addSpace.
  replace (space (set_wroteBegin b w)) with (space w) by (destruct w; reflexivity).
  replace (Limit (set_wroteBegin b w)) with (Limit w) by (destruct w; reflexivity).
  replace (lineLen (set_wroteBegin b w)) with (lineLen w)
    by (destruct w; reflexivity).
  destruct (len (space w) <=? Limit w - lineLen w).
  - destruct w; reflexivity.
  - destruct (strings.Repeat " " (Limit w - lineLen w)) as [r|];
      [| reflexivity].
    cbv beta iota zeta delta [bind].
    replace (Limit (buf_Write r (set_wroteBegin b w))) with (Limit w)
      by (destruct w; reflexivity).
    replace (buf (buf_Write r (set_wroteBegin b w))) with (buf (buf_Write r w))
      by (destruct w; reflexivity).
    replace (Limit (buf_Write r w)) with (Limit w) by (destruct w; reflexivity).
    match goal with |- context [spaceLines ?f ?l ?x ?n] =>
      destruct (spaceLines f l x n) as [[b' k]|] end; [| reflexivity].
    cbv beta iota zeta delta [bind fst snd].
    destruct (0 <? k).
    + destruct (strings.Repeat " " k) as [r2|]; [| reflexivity].
      destruct w; reflexivity.
    + destruct w; reflexivity.
Qed.

Lemma addWord_wroteBegin : forall w b,
  addWord RuneWidth (set_wroteBegin b w)
  = (w1 <- addWord RuneWidth w ;; Ok (set_wroteBegin b w1)).
Proof.
  intros w b. unfold addWord.
  replace (word (set_wroteBegin b w)) with (word w) by (destruct w; reflexivity).
  destruct (0 <? len (word w)); [| reflexivity].
  rewrite addSpace_wroteBegin.
  destruct (addSpace w) as [w1|]; [| reflexivity].
  cbv beta iota delta [bind]. destruct w1; reflexivity.
Qed.

Lemma addSpace_ansi : forall w w',
  addSpace w = Ok w' -> ansi w' = ansi w.
Proof.
  intros w w' H. unfold addSpace in H.
  destruct (len (space w) <=? Limit w - lineLen w).
  - inversion H; subst. destruct w; reflexivity.
  - destruct (strings.Repeat " " (Limit w - lineLen w)) as [r|];
      simpl in H; [| discriminate].
    match type of H with context [spaceLines ?f ?l ?b ?n] =>
      destruct (spaceLines f l b n) as [[b' k]|] end;
      simpl in H; [| discriminate].
    destruct (0 <? k).
    + destruct (strings.Repeat " " k) as [r2|]; simpl in H; [| discriminate].
      inversion H; subst. destruct w; reflexivity.
    + simpl in H. inversion H; subst. destruct w; reflexivity.
Qed.

Lemma addWord_ansi : forall w w',
  addWord RuneWidth w = Ok w' -> ansi w' = ansi w.
Proof.
  intros w w' H. unfold addWord in H.
  destruct (0 <? len (word w)).
  - destruct (addSpace w) as [w1|] eqn:E; simpl in H; [| discriminate].
    apply addSpace_ansi in E. inversion H; subst.
    destruct w1; simpl in *. exact E.
  - inversion H; subst. reflexivity.
Qed.

(** A blank is put aside after the pending word was written. *)
Lemma writeRune_blank : forall w c,
  ansi w = false -> wroteBegin w = true \/ lastAnsi w = [] ->
  c <> ESC -> inGroup (Newline w) c = false -> unicode.IsSpace c = true ->
  writeRune RuneWidth w c
  = (w1 <- addWord RuneWidth w ;;
     Ok (space_WriteRune c (set_wroteBegin true w1))).
Proof.
  intros w c Ha Hb Hc Hn Hs. unfold writeRune.
  rewrite restartAnsi_skip by tauto.
  cbv beta iota zeta delta [bind].
  replace (c =? ESC) with false by (symmetry; apply Z.eqb_neq; exact Hc).
  replace (ansi (set_wroteBegin true w)) with false
    by (destruct w; simpl in *; congruence).
  replace (Newline (set_wroteBegin true w)) with (Newline w)
    by (destruct w; reflexivity).
  rewrite Hn, Hs. cbv beta iota.
  rewrite addWord_wroteBegin.
  destruct (addWord RuneWidth w); reflexivity.
Qed.

(** Blanks after blanks: nothing reaches the output. *)
Lemma blanks_pending : forall sp v,
  word v = [] -> ansi v = false -> wroteBegin v = true \/ lastAnsi v = [] ->
  Forall textRune sp ->
  forallb (fun c => unicode.IsSpace c && negb (inGroup (Newline v) c)) sp
  = true ->
  exists v',
    writeRunes RuneWidth v sp = Ok v' /\ buf v' = buf v /\ word v' = [] /\
    PreserveSpaces v' = PreserveSpaces v.
Proof.
  induction sp as [|c sp IH]; intros v Hw Ha Hb Ht Hs.
  - exists v. split; [reflexivity |]. split; [reflexivity |].
    split; [exact Hw | reflexivity].
  - inversion Ht as [|? ? [_ Hc] Ht']; subst.
    simpl in Hs. apply andb_prop in Hs. destruct Hs as [Hc' Hs].
    apply andb_prop in Hc'. destruct Hc' as [Hsp Hnl].
    apply negb_true_iff in Hnl.
    cbn [writeRunes]. rewrite writeRune_blank by assumption.
    rewrite addWord_nothing by assumption.
    cbv beta iota delta [bind].
    destruct (IH (space_WriteRune c (set_wroteBegin true v))) as (v' & E & B & W & P);
      try (destruct v; simpl in *; assumption).
    + left. destruct v; reflexivity.
    + exists v'. split; [exact E |].
      rewrite B, W, P. destruct v; repeat split; assumption.
Qed.

Lemma Close_plain : forall w,
  PreserveSpaces w = false -> Close RuneWidth w = addWord RuneWidth w.
Proof. intros w H. unfold Close. rewrite H. reflexivity. Qed.

(** Blanks at the end of the input do not change the result. *)
Lemma trailing_blanks : forall sp w,
  ansi w = false -> wroteBegin w = true \/ lastAnsi w = [] ->
  PreserveSpaces w = false ->
  Forall textRune sp ->
  forallb (fun c => unicode.IsSpace c && negb (inGroup (Newline w) c)) sp
  = true ->
  (w1 <- writeRunes RuneWidth w sp ;; w2 <- Close RuneWidth w1 ;; Ok (buf w2))
  = (w2 <- Close RuneWidth w ;; Ok (buf w2)).
Proof.
  intros sp w Ha Hb Hp Ht Hs.
  destruct sp as [|c sp]; [reflexivity |].
  inversion Ht as [|? ? [_ Hc] Ht']; subst.
  simpl in Hs. apply andb_prop in Hs. destruct Hs as [Hc' Hs].
  apply andb_prop in Hc'. destruct Hc' as [Hsp Hnl].
  apply negb_true_iff in Hnl.
  cbn [writeRunes]. rewrite writeRune_blank by assumption.
  rewrite (Close_plain w Hp).
  destruct (addWord RuneWidth w) as [w1|f] eqn:E; [| reflexivity].
  cbv beta iota delta [bind].
  pose proof (addWord_empties RuneWidth _ _ E) as W1.
  pose proof (addWord_ansi _ _ E) as A1.
  pose proof (addWord_advances RuneWidth _ _ E) as [St _].
  destruct St as (_ & _ & SN & _ & _ & _ & SP).
  destruct (blanks_pending sp (space_WriteRune c (set_wroteBegin true w1)))
    as (v' & E' & B' & W' & P').
  - destruct w1; simpl in *; assumption.
  - destruct w1; simpl in *; congruence.
  - left. destruct w1; reflexivity.
  - assumption.
  - replace (Newline (space_WriteRune c (set_wroteBegin true w1)))
      with (Newline w) by (destruct w1; simpl in *; congruence).
    exact Hs.
  - rewrite E'. cbv beta iota delta [bind].
    rewrite Close_plain by (rewrite P'; destruct w1; simpl in *; congruence).
    rewrite addWord_nothing by assumption.
    cbv beta iota delta [bind]. rewrite B'. destruct w1; reflexivity.
Qed.

End TrailingBlanks.

(** X17. Blanks at the end of the input are dropped: for text without escape
    sequences, followed by white space that holds no line break, [String]
    returns what it returns for the text alone (or fails as it does). *)
Theorem trailing_blanks_dropped :
  forall (RuneWidth : rune -> Z) (limit : Z) (rs sp : list rune),
    limit <> 0 ->
    Forall textRune rs -> Forall textRune sp ->
    forallb blankRune sp = true ->
    String RuneWidth (encodeAll (rs ++ sp)) limit
    = String RuneWidth (encodeAll rs) limit.
Proof.
  intros rw limit rs sp Hl Hrs Hsp Hb.
  unfold String. rewrite !Bytes_wrapping by assumption.
  rewrite <- (app_nil_r (encodeAll (rs ++ sp))).
  rewrite <- (app_nil_r (encodeAll rs)).
  rewrite !range_encodeAll
    by (apply textRune_valid; try apply Forall_app; auto).
  change (utf8.range []) with (@nil rune). rewrite !app_nil_r.
  rewrite writeRunes_app.
  destruct (writeRunes rw (NewWriter limit) rs) as [w|f] eqn:E;
    [| reflexivity].
  cbv beta iota delta [bind].
  assert (K0 : Kept (NewWriter limit) [] [] [])
    by (apply Kept_fresh; [apply fresh_NewWriter | reflexivity]).
  destruct (writeRunes_Kept rw _ _ _ _ _ _ K0
              (textRune_valid _ Hrs) (textRune_noESC _ Hrs) E)
    as (B1 & S1 & W1 & K1 & _).
  pose proof (writeRunes_advances rw _ _ _ E) as [St _].
  destruct St as (_ & _ & SN & _ & _ & _ & SP).
  apply (trailing_blanks rw sp w).
  - apply (kept_ansi _ _ _ _ K1).
  - right. apply (kept_last _ _ _ _ K1).
  - rewrite SP. reflexivity.
  - assumption.
  - rewrite SN. rewrite <- Hb. clear.
    induction sp as [|c sp IH]; [reflexivity |].
    cbn [forallb]. rewrite IH. unfold blankRune.
    change (Newline (NewWriter limit)) with defaultNewline.
    rewrite newline_is_break. reflexivity.
Qed.

Lemma trailing_blanks_dropped_witness :
  String narrowWidth (bs "ab cd" ++ [x20; x09; x20]) 4
  = String narrowWidth (bs "ab cd") 4.
Proof.
  apply (trailing_blanks_dropped narrowWidth 4
           [0x61; 0x62; 0x20; 0x63; 0x64] [0x20; 0x09; 0x20]).
  - discriminate.
  - repeat constructor;
      unfold utf8.MaxRune, utf8.surrogateMin, utf8.surrogateMax;
      try lia; discriminate.
  - repeat constructor;
      unfold utf8.MaxRune, utf8.surrogateMin, utf8.surrogateMax;
      try lia; discriminate.
  - reflexivity.
Defined.

(** ** Words stay whole *)

Lemma splitAt_cons_some : forall (A : Type) (sep : A -> bool) l,
  splitAt sep l <> [].
Proof.
  intros A sep [|c l]; [discriminate |]. simpl.
  destruct (sep c); [discriminate |].
  destruct (splitAt sep l); discriminate.
Qed.

Lemma splitAt_at_sep : forall (A : Type) (sep : A -> bool) a s b,
  sep s = true ->
  splitAt sep (a ++ s :: b) = splitAt sep a ++ splitAt sep b.
Proof.
  intros A sep a s b Hs. induction a as [|c a IH].
  - simpl. rewrite Hs. reflexivity.
  - cbn [app splitAt]. rewrite IH.
    destruct (sep c); [reflexivity |].
    pose proof (splitAt_cons_some A sep a) as Hne.
    destruct (splitAt sep a) as [|x xs]; [congruence | reflexivity].
Qed.

Lemma tokens_at_space : forall a s b,
  unicode.IsSpace s = true -> tokens (a ++ s :: b) = tokens a ++ tokens b.
Proof.
  intros a s b Hs. unfold tokens, words.
  rewrite splitAt_at_sep by exact Hs. apply filter_app.
Qed.

Lemma tokens_blank : forall x, forallb unicode.IsSpace x = true -> tokens x = [].
Proof.
  induction x as [|s x IH]; intros H; [reflexivity |].
  simpl in H. apply andb_prop in H. destruct H as [Hs Hx].
  change (s :: x) with ([] ++ s :: x).
  rewrite tokens_at_space by exact Hs. rewrite IH by exact Hx. reflexivity.
Qed.

Lemma tokens_blank_after : forall a x,
  forallb unicode.IsSpace x = true -> tokens (a ++ x) = tokens a.
Proof.
  intros a [|s x] H; [now rewrite app_nil_r |].
  simpl in H. apply andb_prop in H. destruct H as [Hs Hx].
  rewrite tokens_at_space by exact Hs.
  rewrite (tokens_blank x Hx). apply app_nil_r.
Qed.

Lemma endsBlank_inv : forall a,
  endsBlank a = true ->
  a = [] \/ exists a' s, a = a' ++ [s] /\ unicode.IsSpace s = true.
Proof.
  intros a H. destruct a as [|c a]; [now left | right].
  destruct (exists_last (l := c :: a)) as (a' & s & E); [discriminate |].
  exists a', s. split; [exact E |].
  unfold endsBlank in H. rewrite E, last_last in H. exact H.
Qed.

Lemma endsBlank_snoc : forall a s, endsBlank (a ++ [s]) = unicode.IsSpace s.
Proof. intros a s. unfold endsBlank. now rewrite last_last. Qed.

Lemma tokens_after_blank : forall a b,
  endsBlank a = true -> tokens (a ++ b) = tokens a ++ tokens b.
Proof.
  intros a b H. destruct (endsBlank_inv a H) as [E | (a' & s & E & Hs)].
  - subst a. reflexivity.
  - subst a. rewrite <- app_assoc. cbn [app].
    rewrite tokens_at_space by exact Hs.
    rewrite (tokens_blank_after a' [s]); [reflexivity |].
    simpl. now rewrite Hs.
Qed.

Lemma endsBlank_blank : forall a x,
  forallb unicode.IsSpace x = true ->
  x <> [] \/ endsBlank a = true -> endsBlank (a ++ x) = true.
Proof.
  intros a x Hx H. destruct x as [|c x].
  - rewrite app_nil_r. destruct H as [H | H]; [congruence | exact H].
  - destruct (exists_last (l := c :: x)) as (x' & s & E); [discriminate |].
    rewrite E in *. rewrite app_assoc, endsBlank_snoc.
    rewrite forallb_app in Hx. apply andb_prop in Hx.
    destruct Hx as [_ Hs]. simpl in Hs. now rewrite andb_true_r in Hs.
Qed.

(** Writing white space, a word and white space again after text from
    which the word is set apart adds that word to the words of the text. *)
Lemma tokens_flush : forall a x wd y,
  forallb unicode.IsSpace x = true -> forallb unicode.IsSpace y = true ->
  x <> [] \/ endsBlank a = true \/ wd = [] ->
  tokens (a ++ x ++ wd ++ y) = tokens a ++ tokens wd.
Proof.
  intros a x wd y Hx Hy H.
  destruct wd as [|c wd].
  - cbn [app]. rewrite tokens_blank_after; [now rewrite app_nil_r |].
    rewrite forallb_app, Hx, Hy. reflexivity.
  - rewrite app_assoc. rewrite tokens_after_blank.
    + rewrite tokens_blank_after by exact Hx.
      rewrite tokens_blank_after by exact Hy. reflexivity.
    + apply endsBlank_blank; [exact Hx |].
      destruct H as [H | [H | H]]; [now left | now right | discriminate].
Qed.

Lemma invisible_blank : forall X,
  visible X = [] -> forallb unicode.IsSpace X = true.
Proof.
  induction X as [|c X IH]; intros H; [reflexivity |].
  unfold visible in H. cbn [filter] in H.
  destruct (unicode.IsSpace c) eqn:E; cbn [negb] in H; [| discriminate].
  cbn [forallb]. rewrite E. apply IH. exact H.
Qed.

Lemma spaceLines_grows : forall fuel limit b n b' k,
  spaceLines fuel limit b n = Ok (b', k) ->
  (b' = b /\ k = n) \/ (exists y, b' = b ++ y /\ y <> []).
Proof.
  intros fuel limit b n b' k H. destruct fuel as [|fuel]; simpl in H.
  - destruct (limit <=? n); [discriminate |]. inversion H; subst. now left.
  - destruct (limit <=? n).
    + destruct (strings.Repeat " " limit) as [sp|] eqn:E; simpl in H;
        [| discriminate].
      apply spaceLines_appends in H. destruct H as [x Hx].
      right. exists ((x0a :: sp) ++ x). split; [| discriminate].
      rewrite Hx, app_assoc. reflexivity.
    + inversion H; subst. now left.
Qed.

(** [addSpace] writes something whenever spaces are pending. *)
Lemma addSpace_grows : forall w w',
  addSpace w = Ok w' -> space w <> [] ->
  exists x, buf w' = buf w ++ x /\ x <> [].
Proof.
  intros w w' H Hs. unfold addSpace in H.
  destruct (Z.leb_spec (len (space w)) (Limit w - lineLen w)) as [Hfit | Hfit].
  - inversion H; subst. exists (space w). split; [| exact Hs].
    destruct w; reflexivity.
  - destruct (strings.Repeat " " (Limit w - lineLen w)) as [r|] eqn:E;
      simpl in H; [| discriminate].
    match type of H with context [spaceLines ?f ?l ?b ?n] =>
      destruct (spaceLines f l b n) as [[b' k]|] eqn:E2 end;
      simpl in H; [| discriminate].
    apply spaceLines_grows in E2. simpl in E2.
    destruct E2 as [[Hb Hk] | (y & Hy & Hne)].
    + subst b' k.
      destruct (Z.ltb_spec 0 (len (space w) - (Limit w - lineLen w)));
        [| lia].
      destruct (strings.Repeat " " (len (space w) - (Limit w - lineLen w)))
        as [r2|] eqn:E3; simpl in H; [| discriminate].
      inversion H; subst. exists (r ++ x0a :: r2).
      split; [destruct w; simpl; now rewrite <- app_assoc |].
      destruct r; discriminate.
    + subst b'. destruct (0 <? k).
      * destruct (strings.Repeat " " k) as [r2|] eqn:E3; simpl in H;
          [| discriminate].
        inversion H; subst. exists (r ++ y ++ x0a :: r2).
        split; [destruct w; simpl; rewrite <- !app_assoc; reflexivity |].
        destruct r; [destruct y; [congruence | discriminate] | discriminate].
      * simpl in H. inversion H; subst. exists (r ++ y).
        split; [destruct w; simpl; rewrite <- !app_assoc; reflexivity |].
        destruct r; [destruct y; [congruence | discriminate] | discriminate].
Qed.

Lemma addSpace_exact : forall w B S W w',
  Kept w B S W -> addSpace w = Ok w' ->
  exists X,
    Kept w' (B ++ X) [] W /\ forallb unicode.IsSpace X = true /\
    (S <> [] -> X <> []).
Proof.
  intros w B S W w' K H.
  destruct (addSpace_Kept _ _ _ _ _ K H) as (X & K1 & HX).
  exists X. split; [exact K1 |]. split; [now apply invisible_blank |].
  intros HS HXn. subst X.
  destruct (addSpace_grows _ _ H) as (x & Hx & Hne).
  - rewrite (kept_space _ _ _ _ K). intros E.
    apply encodeAll_nil_inv in E. contradiction.
  - rewrite (kept_buf _ _ _ _ K1), (kept_buf _ _ _ _ K), app_nil_r in Hx.
    rewrite <- (app_nil_r (encodeAll B)) in Hx at 1.
    apply app_inv_head in Hx. congruence.
Qed.

Section Whole1.

Variable RuneWidth : rune -> Z.

Lemma addWord_exact : forall w B S W w',
  Kept w B S W -> addWord RuneWidth w = Ok w' ->
  (W = [] /\ w' = w) \/
  (W <> [] /\
   exists X, Kept w' (B ++ X ++ W) [] [] /\
             forallb unicode.IsSpace X = true /\ (S <> [] -> X <> [])).
Proof.
  intros w B S W w' K H. unfold addWord in H.
  destruct (Z.ltb_spec 0 (len (word w))) as [Hw | Hw].
  - right.
    assert (HW : W <> []).
    { intros E. subst W. rewrite (kept_word _ _ _ _ K) in Hw.
      change (len (encodeAll [])) with 0 in Hw. lia. }
    split; [exact HW |].
    destruct (addSpace w) as [w1|] eqn:E; simpl in H; [| discriminate].
    destruct (addSpace_exact _ _ _ _ _ K E) as (X & K1 & HX & HS).
    inversion H; subst. exists X. split; [| split; assumption].
    destruct K1. constructor; try (destruct w1; simpl in *; assumption);
      try reflexivity; try constructor.
    + destruct w1; simpl in *. rewrite app_assoc, encodeAll_app. congruence.
    + rewrite app_assoc. apply Forall_valid_app; assumption.
  - left. inversion H; subst. split; [| reflexivity].
    apply encodeAll_nil_inv. rewrite <- (kept_word _ _ _ _ K).
    apply len_zero_inv. assumption.
Qed.

Lemma addNewLine_exact : forall w B S W w',
  Kept w B S W -> addNewLine w = Ok w' ->
  exists X, Kept w' (B ++ X ++ [0x0A]) [] W /\
            forallb unicode.IsSpace X = true.
Proof.
  intros w B S W w' K H. unfold addNewLine in H.
  assert (E : exists w1 X S1,
             (if PreserveSpaces w then addSpace w else Ok w) = Ok w1 /\
             Kept w1 (B ++ X) S1 W /\ forallb unicode.IsSpace X = true).
  { destruct (PreserveSpaces w).
    - destruct (addSpace w) as [w1|] eqn:E; [| discriminate].
      destruct (addSpace_exact _ _ _ _ _ K E) as (X & K1 & HX & _).
      exists w1, X, []. split; [reflexivity |]. split; assumption.
    - exists w, [], S. split; [reflexivity |].
      rewrite app_nil_r. split; [exact K | reflexivity]. }
  destruct E as (w1 & X & S1 & E & K1 & HX). rewrite E in H.
  cbv beta iota zeta delta [bind] in H.
  replace (len (lastAnsi w1) =? 0) with true in H
    by (rewrite (kept_last _ _ _ _ K1); reflexivity).
  simpl negb in H. cbv beta iota in H. inversion H; subst.
  exists X. split; [| exact HX].
  destruct K1. constructor; try (destruct w1; simpl in *; assumption);
    try reflexivity; try constructor.
  - destruct w1; simpl in *.
    rewrite app_assoc, encodeAll_app, encodeAll_one. f_equal. assumption.
  - rewrite app_assoc. apply Forall_valid_app; [assumption |].
    constructor; [| constructor].
    unfold validRune, utf8.MaxRune, utf8.surrogateMin, utf8.surrogateMax. lia.
Qed.

End Whole1.

Section Whole2.

Variable RuneWidth : rune -> Z.

Lemma tokens_snoc_space : forall a c,
  unicode.IsSpace c = true -> tokens (a ++ [c]) = tokens a.
Proof.
  intros a c H. apply tokens_blank_after. simpl. now rewrite H.
Qed.

Lemma blank_break : forall Y,
  forallb unicode.IsSpace Y = true ->
  forallb unicode.IsSpace (Y ++ [0x0A]) = true.
Proof. intros Y H. rewrite forallb_app, H. reflexivity. Qed.

Lemma writeRune_Whole : forall bp w seen B S W c w',
  Whole bp w seen B S W -> validRune c -> wordText bp c = true ->
  writeRune RuneWidth w c = Ok w' ->
  exists B' S' W', Whole bp w' (seen ++ [c]) B' S' W'.
Proof.
  intros bp w seen B S W c w' [K Hh Hbp (pre & Hseen & Hpre & Htok) Hgap]
         Hv Hc H.
  pose proof (writeRune_advances RuneWidth _ _ _ H) as [St _].
  destruct St as (_ & SB & _ & _ & SH & _ & _).
  rewrite Hh in SH. rewrite Hbp in SB.
  apply andb_prop in Hc. destruct Hc as [Hesc Hc].
  apply negb_true_iff in Hesc.
  unfold writeRune in H.
  rewrite restartAnsi_skip in H by (right; right; apply (kept_last _ _ _ _ K)).
  cbv beta iota zeta delta [bind] in H.
  rewrite Hesc in H.
  assert (K0 : Kept (set_wroteBegin true w) B S W)
    by (apply (Kept_fields w); [assumption | destruct w; reflexivity ..]).
  assert (Hh0 : HardWrap (set_wroteBegin true w) = false)
    by (destruct w; exact Hh).
  assert (Hbp0 : Breakpoints (set_wroteBegin true w) = bp)
    by (destruct w; exact Hbp).
  revert K0 Hh0 Hbp0 H. generalize (set_wroteBegin true w). clear K Hh Hbp w.
  intros w K Hh Hbp H.
  rewrite (kept_ansi _ _ _ _ K) in H. cbv beta iota in H.
  assert (HS : forallb unicode.IsSpace S = true)
    by (apply invisible_blank, (kept_blank _ _ _ _ K)).
  destruct (inGroup (Newline w) c) eqn:Enl.
  { assert (Hsp : unicode.IsSpace c = true)
      by (eapply inGroup_spaces; [apply (kept_nl _ _ _ _ K) | exact Enl]).
    destruct W as [|c0 W0].
    - (* no word is pending *)
      assert (Ew : word w = []) by (rewrite (kept_word _ _ _ _ K); reflexivity).
      rewrite Ew in H. change (len [] =? 0) with true in H. cbv beta iota in H.
      match type of H with context [addWord RuneWidth ?w1] =>
        assert (A : exists B1, Kept w1 B1 [] [] /\ tokens B1 = tokens B);
        [| assert (Ew1 : word w1 = []);
           [| set (v := w1) in *; clearbody v] ] end.
      { destruct (Limit w <? lineLen w + len (space w)).
        - exists B. split; [| reflexivity].
          destruct K. constructor;
            try (destruct w; simpl in *; assumption); try reflexivity;
            try constructor.
        - exists (B ++ S). split; [| now apply tokens_blank_after].
          destruct K. constructor;
            try (destruct w; simpl in *; assumption); try reflexivity;
            try constructor.
          + destruct w; simpl in *. rewrite encodeAll_app. congruence.
          + apply Forall_valid_app; assumption. }
      { destruct (Limit w <? lineLen w + len (space w));
          destruct w; simpl in *; exact Ew. }
      destruct A as (B1 & K1 & T1).
      rewrite (addWord_nothing RuneWidth v Ew1) in H.
      cbv beta iota delta [bind] in H.
      destruct (addNewLine_exact _ _ _ _ _ K1 H) as (Y & K2 & HY).
      exists (B1 ++ Y ++ [0x0A]), [], []. constructor; try assumption.
      + exists (seen ++ [c]). split; [now rewrite app_nil_r |].
        split; [now rewrite endsBlank_snoc |].
        rewrite tokens_snoc_space by exact Hsp.
        rewrite tokens_blank_after by (apply blank_break; exact HY).
        rewrite Hseen, app_nil_r, T1. exact Htok.
      + right. rewrite app_assoc. apply endsBlank_snoc.
    - (* a word is pending *)
      assert (Ew : (len (word w) =? 0) = false).
      { rewrite (kept_word _ _ _ _ K). apply Z.eqb_neq.
        pose proof (len_word_pos c0 W0). lia. }
      rewrite Ew in H.
      destruct (addWord RuneWidth w) as [w2|] eqn:E; [| discriminate].
      cbv beta iota delta [bind] in H.
      destruct (addWord_exact _ _ _ _ _ _ K E)
        as [[HW _] | (_ & X & K2 & HX & HSX)]; [discriminate |].
      destruct (addNewLine_exact _ _ _ _ _ K2 H) as (Y & K3 & HY).
      exists ((B ++ X ++ c0 :: W0) ++ Y ++ [0x0A]), [], [].
      constructor; try assumption.
      + exists (seen ++ [c]). split; [now rewrite app_nil_r |].
        split; [now rewrite endsBlank_snoc |].
        rewrite tokens_snoc_space by exact Hsp.
        rewrite Hseen, tokens_after_blank by exact Hpre.
        rewrite <- !app_assoc.
        rewrite (tokens_flush B X (c0 :: W0) (Y ++ [0x0A]));
          [now rewrite Htok | exact HX | apply blank_break; exact HY |].
        destruct Hgap as [Hg | Hg]; [left; now apply HSX | right; now left].
      + right. rewrite !app_assoc. apply endsBlank_snoc. }
  destruct (unicode.IsSpace c) eqn:Esp.
  { destruct (addWord RuneWidth w) as [w2|] eqn:E; [| discriminate].
    cbv beta iota delta [bind] in H. inversion H; subst w'. clear H.
    destruct (addWord_exact _ _ _ _ _ _ K E)
      as [[HW Hw2] | (HW & X & K2 & HX & HSX)].
    - subst W w2. exists B, (S ++ [c]), []. constructor; try assumption.
      + destruct K. constructor; try (destruct w; simpl in *; assumption).
        * destruct w; simpl in *.
          rewrite encodeAll_app, encodeAll_one. congruence.
        * apply Forall_valid_app;
            [assumption | constructor; [assumption | constructor]].
        * rewrite visible_app, visible_one, Esp, app_nil_r. assumption.
      + exists (seen ++ [c]). split; [now rewrite app_nil_r |].
        split; [now rewrite endsBlank_snoc |].
        rewrite tokens_snoc_space by exact Esp.
        rewrite Hseen, app_nil_r. exact Htok.
      + left. destruct S; discriminate.
    - exists (B ++ X ++ W), [c], []. constructor; try assumption.
      + destruct K2. constructor; try (destruct w2; simpl in *; assumption);
          try reflexivity; try constructor.
        * destruct w2; simpl in *. rewrite app_nil_r.
          match goal with Hnil : ?s = [] |- ?s ++ _ = _ => rewrite Hnil end.
          reflexivity.
        * assumption.
        * constructor.
        * rewrite visible_one, Esp. reflexivity.
      + exists (seen ++ [c]). split; [now rewrite app_nil_r |].
        split; [now rewrite endsBlank_snoc |].
        rewrite tokens_snoc_space by exact Esp.
        rewrite Hseen, tokens_after_blank by exact Hpre.
        rewrite <- (app_nil_r W) at 2.
        rewrite (tokens_flush B X W []);
          [now rewrite Htok | exact HX | reflexivity |].
        destruct Hgap as [Hg | Hg]; [left; now apply HSX | right; now left].
      + left. discriminate. }
  simpl in Hc. apply negb_true_iff in Hc.
  rewrite Hbp, Hc, Hh in H. cbv beta iota in H. simpl andb in H.
  cbv beta iota in H.
  assert (KW : Kept (word_WriteRune c w) B S (W ++ [c])).
  { destruct K. constructor; try (destruct w; simpl in *; assumption).
    - destruct w; simpl in *. rewrite encodeAll_app, encodeAll_one. congruence.
    - apply Forall_valid_app;
        [assumption | constructor; [assumption | constructor]]. }
  match type of H with (if ?b then _ else _) = _ => destruct b end.
  { destruct (addNewLine_exact _ _ _ _ _ KW H) as (Y & K2 & HY).
    exists (B ++ Y ++ [0x0A]), [], (W ++ [c]). constructor; try assumption.
    - exists pre. split; [rewrite Hseen; now rewrite app_assoc |].
      split; [exact Hpre |].
      rewrite tokens_blank_after by (apply blank_break; exact HY).
      exact Htok.
    - right. rewrite app_assoc. apply endsBlank_snoc. }
  inversion H; subst w'. exists B, S, (W ++ [c]). constructor; try assumption.
  exists pre. split; [rewrite Hseen; now rewrite app_assoc |].
  split; assumption.
Qed.

End Whole2.

Section Whole3.

Variable RuneWidth : rune -> Z.

Lemma writeRunes_Whole : forall bp rs w seen B S W w',
  Whole bp w seen B S W -> Forall validRune rs ->
  forallb (wordText bp) rs = true ->
  writeRunes RuneWidth w rs = Ok w' ->
  exists B' S' W', Whole bp w' (seen ++ rs) B' S' W'.
Proof.
  induction rs as [|c rs IH]; intros w seen B S W w' I Hv Hc H.
  - simpl in H. inversion H; subst. exists B, S, W. now rewrite app_nil_r.
  - inversion Hv as [|? ? Hvc Hvrs]; subst. simpl in Hc.
    apply andb_prop in Hc. destruct Hc as [Hc Hrs]. simpl in H.
    destruct (writeRune RuneWidth w c) as [w1|] eqn:E; simpl in H;
      [| discriminate].
    destruct (writeRune_Whole RuneWidth _ _ _ _ _ _ _ _ I Hvc Hc E)
      as (B1 & S1 & W1 & I1).
    destruct (IH _ _ _ _ _ _ I1 Hvrs Hrs H) as (B2 & S2 & W2 & I2).
    exists B2, S2, W2. rewrite <- app_assoc in I2. exact I2.
Qed.

Lemma writeAll_Whole : forall bp chunks w seen B S W w',
  Whole bp w seen B S W -> Limit w <> 0 -> KeepNewlines w = true ->
  forallb (fun b => forallb (wordText bp) (utf8.range b)) chunks = true ->
  writeAll RuneWidth w chunks = Ok w' ->
  exists B' S' W',
    Whole bp w' (seen ++ flat_map utf8.range chunks) B' S' W'.
Proof.
  induction chunks as [|b chunks IH]; intros w seen B S W w' I HL Hk Hc H.
  - simpl in H. inversion H; subst. exists B, S, W.
    simpl. now rewrite app_nil_r.
  - simpl in Hc. apply andb_prop in Hc. destruct Hc as [Hb Hc]. simpl in H.
    destruct (Write RuneWidth w b) as [w1|] eqn:E; simpl in H;
      [| discriminate].
    pose proof (Write_advances RuneWidth _ _ _ E) as [St _].
    destruct St as (SL & _ & _ & SK & _).
    rewrite Write_tabsReplaced in E by assumption.
    unfold tabsReplaced in E. rewrite (wh_hard _ _ _ _ _ _ I) in E.
    destruct (writeRunes_Whole _ _ _ _ _ _ _ _ I (range_valid _) Hb E)
      as (B1 & S1 & W1 & I1).
    destruct (IH w1 _ B1 S1 W1 w' I1) as (B2 & S2 & W2 & I2);
      try congruence; try assumption.
    exists B2, S2, W2. cbn [flat_map]. rewrite app_assoc. exact I2.
Qed.

(** [Close] writes the pending word apart from what was written before. *)
Lemma Close_Whole : forall bp w seen B S W w',
  Whole bp w seen B S W -> Close RuneWidth w = Ok w' ->
  tokens (utf8.range (buf w')) = tokens seen.
Proof.
  intros bp w seen B S W w' [K _ _ (pre & Hseen & Hpre & Htok) Hgap] H.
  unfold Close in H.
  assert (HS : forallb unicode.IsSpace S = true)
    by (apply invisible_blank, (kept_blank _ _ _ _ K)).
  assert (A : exists w1 B1 S1,
             (if PreserveSpaces w then addSpace w else Ok w) = Ok w1 /\
             Kept w1 B1 S1 W /\ tokens B1 = tokens B /\
             (S1 <> [] \/ endsBlank B1 = true)).
  { destruct (PreserveSpaces w).
    - destruct (addSpace w) as [w1|] eqn:E; [| discriminate].
      destruct (addSpace_exact _ _ _ _ _ K E) as (X & K1 & HX & HSX).
      exists w1, (B ++ X), []. split; [reflexivity |]. split; [exact K1 |].
      split; [now apply tokens_blank_after |].
      right. apply endsBlank_blank; [exact HX |].
      destruct Hgap as [Hg | Hg]; [left; now apply HSX | now right].
    - exists w, B, S. split; [reflexivity |]. split; [exact K |].
      split; [reflexivity | exact Hgap]. }
  destruct A as (w1 & B1 & S1 & E & K1 & T1 & G1). rewrite E in H.
  cbv beta iota delta [bind] in H.
  assert (R : forall v Bv, Kept v Bv [] [] -> utf8.range (buf v) = Bv).
  { intros v Bv Kv. rewrite (kept_buf _ _ _ _ Kv).
    rewrite <- (app_nil_r (encodeAll Bv)).
    rewrite range_encodeAll by apply (kept_B _ _ _ _ Kv).
    change (utf8.range []) with (@nil rune). apply app_nil_r. }
  destruct (addWord_exact _ _ _ _ _ _ K1 H)
    as [[HW Hw'] | (HW & X & K2 & HX & HSX)].
  - subst W w'. rewrite Hseen, app_nil_r, Htok, <- T1.
    rewrite (kept_buf _ _ _ _ K1).
    rewrite <- (app_nil_r (encodeAll B1)).
    rewrite range_encodeAll by apply (kept_B _ _ _ _ K1).
    change (utf8.range []) with (@nil rune). now rewrite app_nil_r.
  - rewrite (R _ _ K2). rewrite Hseen, (tokens_after_blank pre W Hpre).
    rewrite <- (app_nil_r W) at 1.
    rewrite (tokens_flush B1 X W []);
      [now rewrite T1, Htok | exact HX | reflexivity |].
    destruct G1 as [Hg | Hg]; [left; now apply HSX | right; now left].
Qed.

End Whole3.

Lemma Whole_fresh : forall w,
  fresh w -> HardWrap w = false ->
  forallb unicode.IsSpace (Newline w) = true ->
  Whole (Breakpoints w) w [] [] [] [].
Proof.
  intros w Hf Hh Hn.
  constructor; [now apply Kept_fresh | exact Hh | reflexivity | | now right].
  exists []. repeat split.
Qed.

(** X18. Words stay whole.  A writer that does not wrap hard and keeps
    newlines neither breaks a word nor joins two: whatever the limit, the
    breakpoints and [PreserveSpaces] are, and as long as every character of
    [Newline] is white space, when the input holds no escape character and
    none of the breakpoints, the words of the result (its runs without
    white space) are the words of the input, in the same order.  A word
    wider than the limit is therefore written unbroken. *)
Theorem words_kept :
  forall (RuneWidth : rune -> Z) (w : WordWrap) (chunks : list bytes)
         (out : bytes),
    fresh w -> Limit w <> 0 -> KeepNewlines w = true -> HardWrap w = false ->
    forallb unicode.IsSpace (Newline w) = true ->
    forallb (fun b => forallb (wordText (Breakpoints w)) (utf8.range b))
            chunks = true ->
    session RuneWidth w chunks = Ok out ->
    tokens (utf8.range out) = tokens (flat_map utf8.range chunks).
Proof.
  intros rw w chunks out Hf HL Hk Hh Hn Hc H.
  unfold session in H.
  destruct (writeAll rw w chunks) as [w1|] eqn:E; simpl in H; [| discriminate].
  destruct (Close rw w1) as [w2|] eqn:E2; simpl in H; [| discriminate].
  inversion H; subst. clear H.
  pose proof (Whole_fresh w Hf Hh Hn) as I0.
  destruct (writeAll_Whole rw _ _ _ _ _ _ _ _ I0 HL Hk Hc E)
    as (B1 & S1 & W1 & I1).
  apply (Close_Whole rw _ _ _ _ _ _ _ I1 E2).
Qed.

Lemma words_kept_witness :
  match session narrowWidth (NewWriter 4)
          [bs "abcdefgh ij"; bs " k" ++ x0a :: bs "lm  nopq r"] with
  | Ok out =>
    out = bs "abcdefgh" ++ x0a :: bs "ij k" ++ x0a :: bs "lm" ++ x0a
          :: bs "nopq" ++ x0a :: bs "r" /\
    tokens (utf8.range out)
    = tokens (utf8.range (bs "abcdefgh ij")
              ++ utf8.range (bs " k" ++ x0a :: bs "lm  nopq r"))
  | Fail _ => False
  end /\
  match session narrowWidth slashWriter
          [bs "ab  cd e" ++ [x0d]; [xff] ++ bs "g   hi"] with
  | Ok out =>
    tokens (utf8.range out)
    = tokens (utf8.range (bs "ab  cd e" ++ [x0d])
              ++ utf8.range ([xff] ++ bs "g   hi"))
  | Fail _ => False
  end.
Proof.
  split.
  - destruct (session narrowWidth (NewWriter 4)
                [bs "abcdefgh ij"; bs " k" ++ x0a :: bs "lm  nopq r"])
      as [out|f] eqn:E.
    + split; [vm_compute in E; inversion E; reflexivity |].
      rewrite (words_kept narrowWidth (NewWriter 4)
                 [bs "abcdefgh ij"; bs " k" ++ x0a :: bs "lm  nopq r"] out);
        [ cbn [flat_map]; rewrite app_nil_r; reflexivity
        | repeat split | discriminate | reflexivity | reflexivity
        | reflexivity | vm_compute; reflexivity | exact E ].
    + vm_compute in E. discriminate.
  - destruct (session narrowWidth slashWriter
                [bs "ab  cd e" ++ [x0d]; [xff] ++ bs "g   hi"])
      as [out|f] eqn:E.
    + rewrite (words_kept narrowWidth slashWriter
                 [bs "ab  cd e" ++ [x0d]; [xff] ++ bs "g   hi"] out);
        [ cbn [flat_map]; rewrite app_nil_r; reflexivity
        | repeat split | discriminate | reflexivity | reflexivity
        | reflexivity | vm_compute; reflexivity | exact E ].
    + vm_compute in E. discriminate.
Defined.

(** ** Text without breakpoints: the width of the lines *)

Lemma plainText_wordText : forall chunks,
  forallb plainText chunks = true ->
  forallb (fun b => forallb (wordText defaultBreakpoints) (utf8.range b))
          chunks = true.
Proof.
  intros chunks H. apply forallb_forall. intros b Hb.
  rewrite forallb_forall in H. specialize (H b Hb).
  unfold plainText in H. apply forallb_forall. intros c Hc.
  rewrite forallb_forall in H. specialize (H c Hc).
  apply andb_prop in H. destruct H as [He Hbp].
  unfold wordText. rewrite He, Hbp. apply orb_true_r.
Qed.

(** The bound is not the limit for every line: the break is guarded by
    [word.PrintableRuneWidth() < w.Limit], so a word exactly as wide as the
    limit is not moved to a new line.  With limit 2 the input [" ab"] is
    written unchanged as one line of width 3, a space and a word as wide
    as the limit; no word of the line is wider than the limit. *)
Lemma word_as_wide_as_the_limit :
  String narrowWidth (bs " ab") 2 = Ok (bs " ab") /\
  textLines (bs " ab") = [[0x20; 0x61; 0x62]] /\
  lineWidth narrowWidth [0x20; 0x61; 0x62] = 3 /\
  forallb (withinLimit narrowWidth defaultBreakpoints 2) (textLines (bs " ab"))
  = false /\
  existsb (fun w => 2 <? lineWidth narrowWidth w) (words [0x20; 0x61; 0x62])
  = false.
Proof. vm_compute. repeat split. Qed.

(** X19. Lines within the limit.  With the default settings and a positive
    limit, for input without escape characters and breakpoint characters,
    however it is cut into [Write] calls: the result has the words of the
    input, and every line of it is no wider than the limit, except a line
    that holds a word whose own width is at least the limit; and when
    every character is narrower than the limit, [Write] and [Close]
    succeed.  [String] is the session with one [Write].  The width
    function is assumed never negative and to give white space no more
    columns than it has bytes. *)
Theorem lines_within_limit :
  forall (RuneWidth : rune -> Z) (limit : Z) (chunks : list bytes),
    0 < limit ->
    (forall c, 0 <= RuneWidth c) ->
    (forall c, unicode.IsSpace c = true ->
               RuneWidth c <= len (utf8.EncodeRune c)) ->
    forallb plainText chunks = true ->
    (forall out,
       session RuneWidth (NewWriter limit) chunks = Ok out ->
       tokens (utf8.range out) = tokens (flat_map utf8.range chunks) /\
       forallb (fits RuneWidth limit) (textLines out) = true) /\
    ((forall b c, In b chunks -> In c (utf8.range b) -> RuneWidth c < limit) ->
     exists out, session RuneWidth (NewWriter limit) chunks = Ok out) /\
    (forall s, String RuneWidth s limit
               = session RuneWidth (NewWriter limit) [s]).
Proof.
  intros rw limit chunks Hl Hrw Hsp Hplain.
  assert (Hp : Forall (fun b => plainText b = true) chunks)
    by (apply Forall_forall; now apply forallb_forall).
  assert (Hne : limit <> 0) by lia.
  assert (HI0 : Inv rw limit (NewWriter limit) [] [] [] [])
    by (apply Inv_NewWriter; assumption).
  unfold session. split; [| split].
  - intros out Hout.
    destruct (writeAll rw (NewWriter limit) chunks) as [w1 | f] eqn:E1;
      [| discriminate].
    cbv beta iota delta [bind] in Hout.
    destruct (Close rw w1) as [w2 | f] eqn:E2; [| discriminate].
    inversion Hout; subst out; clear Hout.
    split.
    + pose proof (Whole_fresh (NewWriter limit) (fresh_NewWriter limit)
                    eq_refl eq_refl) as I0.
      destruct (writeAll_Whole rw _ _ _ _ _ _ _ _ I0 Hne eq_refl
                  (plainText_wordText chunks Hplain) E1)
        as (B1 & S1 & W1 & I1).
      apply (Close_Whole rw _ _ _ _ _ _ _ I1 E2).
    + assert (H1 : exists d1 c1 s1 wd1, Inv rw limit w1 d1 c1 s1 wd1)
        by (eapply writeAll_Inv; eassumption).
      destruct H1 as (d1 & c1 & s1 & wd1 & HI1).
      assert (H2 : exists d2 c2 s2, Inv rw limit w2 d2 c2 s2 [])
        by (eapply Close_Inv; eassumption).
      destruct H2 as (d2 & c2 & s2 & HI2).
      eapply Inv_lines; eassumption.
  - intros Hnarrow.
    assert (H1 : exists w1 d1 c1 s1 wd1,
              writeAll rw (NewWriter limit) chunks = Ok w1 /\
              Inv rw limit w1 d1 c1 s1 wd1 /\ Room w1).
    { eapply writeAll_total; try eassumption. left. reflexivity. }
    destruct H1 as (w1 & d1 & c1 & s1 & wd1 & E1 & HI1 & HR1).
    rewrite E1. cbv beta iota delta [bind].
    unfold Close.
    rewrite (sh_pres _ _ _ _ _ _ (inv_shape _ _ _ _ _ _ _ HI1)).
    cbv beta iota delta [bind].
    destruct (addWord_total rw w1 HR1) as (w2 & E2 & _).
    rewrite E2. eexists. reflexivity.
  - intros s. apply String_session.
Qed.

Lemma lines_within_limit_witness :
  exists out,
    String narrowWidth (bs "a bb  ccc dddddddd e" ++ x0a :: bs "ff ggg") 6
    = Ok out /\
    tokens (utf8.range out)
    = tokens (utf8.range (bs "a bb  ccc dddddddd e" ++ x0a :: bs "ff ggg")) /\
    forallb (fits narrowWidth 6) (textLines out) = true.
Proof.
  destruct (lines_within_limit narrowWidth 6
              [bs "a bb  ccc dddddddd e" ++ x0a :: bs "ff ggg"])
    as (Hlines & Htotal & Hstring).
  - lia.
  - intros c. apply narrowWidth_range.
  - apply narrowWidth_space.
  - vm_compute. reflexivity.
  - destruct Htotal as [out Hout].
    + intros b c _ _. pose proof (narrowWidth_range c). lia.
    + exists out. rewrite Hstring.
      split; [exact Hout |].
      destruct (Hlines out Hout) as [Ht Hf].
      cbn [flat_map] in Ht. rewrite app_nil_r in Ht.
      split; [exact Ht | exact Hf].
Defined.

(** ** What [lineLen] counts *)

(** White space is counted by its bytes (the field is commented as
    [not accurate for tabs]): after ["a\tb "] the line holds two columns
    and [lineLen] is 3. *)
Lemma tab_counted_as_a_column :
  match Write narrowWidth (NewWriter 10) (bs "a" ++ x09 :: bs "b ") with
  | Ok w => currentLine (buf w) = [0x61; 0x09; 0x62] /\
            lineWidth narrowWidth (currentLine (buf w)) = 2 /\
            lineLen w = 3
  | Fail _ => False
  end.
Proof. vm_compute. repeat split. Qed.

(** X20. What [lineLen] counts.  With the default settings and a positive
    limit, for input without escape characters and breakpoint characters,
    after every [Write] and after [Close], [lineLen] is the number of
    columns written since the last line break, white space counted by its
    bytes, unless the current line holds a word at least as wide as the
    limit.  That number is the printable width of the line when its white
    space takes as many columns as bytes. *)
Theorem lineLen_counts_columns :
  forall (RuneWidth : rune -> Z) (limit : Z) (chunks : list bytes),
    0 < limit ->
    (forall c, 0 <= RuneWidth c) ->
    (forall c, unicode.IsSpace c = true ->
               RuneWidth c <= len (utf8.EncodeRune c)) ->
    forallb plainText chunks = true ->
    (forall w,
       writeAll RuneWidth (NewWriter limit) chunks = Ok w ->
       (lineLen w = columns RuneWidth (currentLine (buf w)) \/
        holdsWideWord RuneWidth limit (currentLine (buf w)) = true) /\
       (forall w',
          Close RuneWidth w = Ok w' ->
          lineLen w' = columns RuneWidth (currentLine (buf w')) \/
          holdsWideWord RuneWidth limit (currentLine (buf w')) = true)) /\
    (forall l,
       noESC l = true ->
       (forall c, In c l -> unicode.IsSpace c = true ->
                  RuneWidth c = len (utf8.EncodeRune c)) ->
       columns RuneWidth l = lineWidth RuneWidth l).
Proof.
  intros rw limit chunks Hl Hrw Hsp Hplain.
  assert (Hp : Forall (fun b => plainText b = true) chunks)
    by (apply Forall_forall; now apply forallb_forall).
  assert (Hne : limit <> 0) by lia.
  assert (HI0 : Inv rw limit (NewWriter limit) [] [] [] [])
    by (apply Inv_NewWriter; assumption).
  split; [| apply columns_lineWidth].
  intros w Hw.
  assert (H1 : exists d1 c1 s1 wd1, Inv rw limit w d1 c1 s1 wd1)
    by (eapply writeAll_Inv; eassumption).
  destruct H1 as (d1 & c1 & s1 & wd1 & HI1).
  split.
  - eapply Inv_lineLen; eassumption.
  - intros w' Hw'.
    assert (H2 : exists d2 c2 s2, Inv rw limit w' d2 c2 s2 [])
      by (eapply Close_Inv; eassumption).
    destruct H2 as (d2 & c2 & s2 & HI2).
    eapply Inv_lineLen; eassumption.
Qed.

Lemma lineLen_counts_columns_witness :
  exists w,
    writeAll narrowWidth (NewWriter 10) [bs "ab cd" ++ x09 :: bs "e f"; bs "g "]
    = Ok w /\
    lineLen w = 10 /\
    lineWidth narrowWidth (currentLine (buf w)) = 9 /\
    (lineLen w = columns narrowWidth (currentLine (buf w)) \/
     holdsWideWord narrowWidth 10 (currentLine (buf w)) = true).
Proof.
  destruct (lineLen_counts_columns narrowWidth 10
              [bs "ab cd" ++ x09 :: bs "e f"; bs "g "]) as [H _].
  - lia.
  - intros c. apply narrowWidth_range.
  - apply narrowWidth_space.
  - vm_compute. reflexivity.
  - destruct (writeAll narrowWidth (NewWriter 10)
                [bs "ab cd" ++ x09 :: bs "e f"; bs "g "]) as [w | f] eqn:E.
    + exists w. split; [reflexivity |].
      pose proof (proj1 (H w eq_refl)) as Hw.
      vm_compute in E. inversion E; subst w.
      split; [reflexivity | split; [vm_compute; reflexivity | exact Hw]].
    + vm_compute in E. discriminate.
Defined.
